(** * The tag system of PicoPicoScript (tag.c)

    A shallow embedding of the tag document tokenizer
    ([parse_tag_document]), the record builder ([parse_tag_callback]),
    the loader ([load_tag_file], [cleanup_tag]) and the cursor
    ([get_tag_line], [get_current_tag], [move_to_next_tag]), followed by
    the properties of the design document that were checked against them
    and by further properties of the code.

    Conventions of the model.
    - A C [int] is a [Z].  The two counters that no test in the code
      bounds ([line] and [cur_index]) are incremented with [int_incr],
      which has no defined result at [INT_MAX]; the other counters are
      incremented only after a comparison that keeps them in range.
    - Behaviour that C leaves undefined (a store past the end of an
      array, a second [free] of the same block, a signed overflow, a
      [strncpy] between overlapping objects) is the outcome [Undef] of
      the [result] type.
    - A [const char *] that names a file is a [name_ptr]: the string is
      read through the pointer each time the code uses it, so the model
      tells a string in storage of the caller ([Outside]) from the
      buffer [cur_file] itself ([CurFile]), the pointer that
      [get_tag_file_name] hands out and that [cleanup_tag] empties.  A
      [string] used where a [name_ptr] is expected is a string of the
      caller ([Outside] is a coercion).  Pointers into the strings that
      the records own are not modelled as file names.
    - A character buffer is represented by the characters stored in its
      cells [0, len) since the scanner last reset [len] to 0.  The C
      string that a reader sees after [buf[len] = '\0'] is that list,
      because the scanner never stores a NUL (the loop stops at the first
      NUL of the document).  The static buffers keep stale bytes between
      two calls, but a row is always rewritten and terminated before the
      callback reads it, so the stale bytes are not part of the model.
    - A zero-initialised static array is a list that holds its first
      cells; every cell at or beyond the length of the list still has its
      all-zero initial value.  Index checks against the declared size are
      explicit ([in_bounds]).
    - [PROP_MAX] and [struct tag] are declared in tag.h; [PROP_MAX] is a
      parameter of the development and [struct tag] is reconstructed from
      the fields tag.c reads and writes.
    - The two [assert (len > 0)] of the tokenizer hold where they stand
      (the test before each of them has excluded [len == 0]) and are not
      part of the model.
    - [S_TR] (message translation) is the identity, and the duplication of
      a message literal by the tokenizer is not tracked by the allocator
      model.  [strdup] in the record builder, whose failure the code
      tests, draws its outcome from an oracle kept in the program state. *)

From Stdlib Require Import ZArith String Ascii List Bool Lia.
Import ListNotations.

Open Scope string_scope.
Open Scope Z_scope.

(** ** Undefined behaviour as an outcome *)

Inductive result (A : Type) : Type :=
| Ok (a : A)
| Undef.

Arguments Ok {A} a.
Arguments Undef {A}.

Definition bind {A B : Type} (r : result A) (k : A -> result B) : result B :=
  match r with
  | Ok a => k a
  | Undef => Undef
  end.

Notation "x <- e ;; k" := (bind e (fun x => k))
  (at level 61, e at next level, right associativity).

(** ** Sizes and machine integers *)

Definition TAG_NAME_MAX : Z := 128.
Definition PROP_NAME_MAX : Z := 128.
Definition PROP_VALUE_MAX : Z := 4096.
Definition COMMAND_MAX : Z := 65536.
Definition INT_MAX : Z := 2147483647.

(** [x++] on an [int] that nothing else bounds. *)
Definition int_incr (x : Z) : result Z :=
  if x <? INT_MAX then Ok (x + 1) else Undef.

(** [0 <= i < n]: the index [i] designates a cell of an array of [n] cells. *)
Definition in_bounds (i n : Z) : bool := (0 <=? i) && (i <? n).

(** ** Arrays *)

Fixpoint set_nth {A : Type} (d : A) (n : nat) (v : A) (l : list A) : list A :=
  match n, l with
  | O, [] => [v]
  | O, _ :: t => v :: t
  | S n', [] => d :: set_nth d n' v []
  | S n', x :: t => x :: set_nth d n' v t
  end.

(** Cell [i] of an array whose untouched cells hold [d]. *)
Definition aget {A : Type} (d : A) (i : Z) (l : list A) : A :=
  nth (Z.to_nat i) l d.

Definition aset {A : Type} (d : A) (i : Z) (v : A) (l : list A) : list A :=
  set_nth d (Z.to_nat i) v l.

(** ** Characters *)

Definition NUL : ascii := "000"%char.
Definition LF : ascii := "010"%char.
Definition CR : ascii := "013"%char.
Definition TAB : ascii := "009"%char.
Definition SPACE : ascii := " "%char.
Definition LBRACKET : ascii := "["%char.
Definition RBRACKET : ascii := "]"%char.
Definition EQUALS : ascii := "="%char.
Definition DQUOTE : ascii := "034"%char.
Definition BACKSLASH : ascii := "\"%char.
Definition LOWER_N : ascii := "n"%char.

(** [c == ' ' || c == '\r' || c == '\t'] *)
Definition is_blank (c : ascii) : bool :=
  Ascii.eqb c SPACE || Ascii.eqb c CR || Ascii.eqb c TAB.

(** [c == ' ' || c == '\r' || c == '\t' || c == '\n'] *)
Definition is_blank_or_newline (c : ascii) : bool :=
  is_blank c || Ascii.eqb c LF.

Definition between (lo hi c : ascii) : bool :=
  (nat_of_ascii lo <=? nat_of_ascii c)%nat && (nat_of_ascii c <=? nat_of_ascii hi)%nat.

(** The characters a property name may hold.  Bytes above 127 fail every
    range test whether [char] is signed or not. *)
Definition is_prop_name_char (c : ascii) : bool :=
  between "a" "z" c || between "A" "Z" c || between "0" "9" c
  || Ascii.eqb c "-" || Ascii.eqb c "_".

(** ** Character buffers *)

Definition take (n : Z) (s : string) : string := substring 0 (Z.to_nat n) s.

(** [buf[len] = c] in a buffer of [cap] cells. *)
Definition poke (cap : Z) (buf : string) (len : Z) (c : ascii) : result string :=
  if in_bounds len cap then Ok (take len buf ++ String c EmptyString) else Undef.

(** [buf[len] = '\0'] in a buffer of [cap] cells. *)
Definition terminate (cap : Z) (buf : string) (len : Z) : result string :=
  if in_bounds len cap then Ok (take len buf) else Undef.

(** ** The tokenizer *)

Inductive state : Type :=
| ST_INIT
| ST_TAGNAME
| ST_PROPNAME
| ST_PROPVALUE_QUOTE
| ST_PROPVALUE_BODY.

Definition state_eqb (a b : state) : bool :=
  match a, b with
  | ST_INIT, ST_INIT
  | ST_TAGNAME, ST_TAGNAME
  | ST_PROPNAME, ST_PROPNAME
  | ST_PROPVALUE_QUOTE, ST_PROPVALUE_QUOTE
  | ST_PROPVALUE_BODY, ST_PROPVALUE_BODY => true
  | _, _ => false
  end.

(** The local variables of [parse_tag_document], its three static buffers
    and its two output parameters. *)
Record locals : Type := mkLocals {
  st : state;
  line : Z;
  len : Z;
  prop_count : Z;
  tag_name : string;
  prop_name : list string;
  prop_val : list string;
  error_msg : option string;
  error_line : option Z
}.

Definition set_st (v : state) (l : locals) : locals :=
  mkLocals v (line l) (len l) (prop_count l) (tag_name l) (prop_name l)
           (prop_val l) (error_msg l) (error_line l).

Definition set_line (v : Z) (l : locals) : locals :=
  mkLocals (st l) v (len l) (prop_count l) (tag_name l) (prop_name l)
           (prop_val l) (error_msg l) (error_line l).

Definition set_len (v : Z) (l : locals) : locals :=
  mkLocals (st l) (line l) v (prop_count l) (tag_name l) (prop_name l)
           (prop_val l) (error_msg l) (error_line l).

Definition set_prop_count (v : Z) (l : locals) : locals :=
  mkLocals (st l) (line l) (len l) v (tag_name l) (prop_name l)
           (prop_val l) (error_msg l) (error_line l).

Definition set_tag_name (v : string) (l : locals) : locals :=
  mkLocals (st l) (line l) (len l) (prop_count l) v (prop_name l)
           (prop_val l) (error_msg l) (error_line l).

Definition set_prop_name (v : list string) (l : locals) : locals :=
  mkLocals (st l) (line l) (len l) (prop_count l) (tag_name l) v
           (prop_val l) (error_msg l) (error_line l).

Definition set_prop_val (v : list string) (l : locals) : locals :=
  mkLocals (st l) (line l) (len l) (prop_count l) (tag_name l) (prop_name l)
           v (error_msg l) (error_line l).

(** [*error_msg = strdup(S_TR(msg)); *error_line = line;] *)
Definition set_error (msg : string) (l : locals) : locals :=
  mkLocals (st l) (line l) (len l) (prop_count l) (tag_name l) (prop_name l)
           (prop_val l) (Some msg) (Some (line l)).

(** [state = ST_INIT; top = doc; line = 1; len = 0; prop_count = 0;] with
    both output parameters not yet written. *)
Definition initial_locals : locals :=
  mkLocals ST_INIT 1 0 0 EmptyString [] [] None None.

(** How one turn of the [while] loop ends: [continue] (after [top++] when
    [skip] is set) or [return]. *)
Inductive control (W : Type) : Type :=
| Continue (l : locals) (w : W) (skip : bool)
| Return (ok : bool) (l : locals) (w : W).

Arguments Continue {W} l w skip.
Arguments Return {W} ok l w.

(** How the [while] loop ends: at the NUL of the document or at a
    [return] of its body. *)
Inductive loop_exit (W : Type) : Type :=
| AtEnd (l : locals) (w : W)
| Returned (ok : bool) (l : locals) (w : W).

Arguments AtEnd {W} l w.
Arguments Returned {W} ok l w.

Section Tokenizer.

(** The size of the property tables, from tag.h. *)
Variable PROP_MAX : Z.

(** The state the callback works on, and the callback.  A
    [const char **] argument is [None] when it is [NULL]. *)
Variable W : Type.
Variable callback :
  string -> Z -> option (list string) -> option (list string) -> Z -> W ->
  result (bool * W).

(** [line++] *)
Definition next_line (l : locals) : result locals :=
  n <- int_incr (line l);; Ok (set_line n l).

Definition fail (msg : string) (l : locals) (w : W) : result (control W) :=
  Ok (Return false (set_error msg l) w).

Definition case_INIT (c : ascii) (l : locals) (w : W) : result (control W) :=
  if Ascii.eqb c LBRACKET then
    Ok (Continue (set_len 0 (set_st ST_TAGNAME l)) w false)
  else if Ascii.eqb c LF then
    l' <- next_line l;; Ok (Continue l' w false)
  else if is_blank c then
    Ok (Continue l w false)
  else
    fail "Invalid character." l w.

Definition case_TAGNAME (c : ascii) (l : locals) (w : W) : result (control W) :=
  if (len l =? 0) && is_blank_or_newline c then
    Ok (Continue l w false)
  else
    l <- (if Ascii.eqb c LF then next_line l else Ok l);;
    if is_blank_or_newline c then
      name <- terminate TAG_NAME_MAX (tag_name l) (len l);;
      Ok (Continue (set_len 0 (set_st ST_PROPNAME (set_tag_name name l))) w false)
    else if Ascii.eqb c RBRACKET then
      name <- terminate TAG_NAME_MAX (tag_name l) (len l);;
      let l := set_tag_name name l in
      r <- callback (tag_name l) 0 None None (line l) w;;
      let (ok, w) := r in
      if negb ok then fail "Too many properties." l w
      else Ok (Continue (set_st ST_INIT l) w false)
    else if TAG_NAME_MAX <=? len l then
      fail "Tag name too long." l w
    else
      name <- poke TAG_NAME_MAX (tag_name l) (len l) c;;
      Ok (Continue (set_len (len l + 1) (set_tag_name name l)) w false).

Definition case_PROPNAME (c : ascii) (l : locals) (w : W) : result (control W) :=
  if prop_count l =? PROP_MAX then
    fail "Too many properties." l w
  else if (len l =? 0) && Ascii.eqb c SPACE then
    Ok (Continue l w false)
  else if (len l =? 0) && Ascii.eqb c RBRACKET then
    r <- callback (tag_name l) (prop_count l)
                  (Some (prop_name l)) (Some (prop_val l)) (line l) w;;
    let (ok, w) := r in
    if negb ok then fail "Internal error." l w
    else Ok (Continue (set_st ST_INIT l) w false)
  else
    l <- (if (len l =? 0) && Ascii.eqb c LF then next_line l else Ok l);;
    if (len l =? 0) && is_blank_or_newline c then
      Ok (Continue l w false)
    else if (0 <? len l) && Ascii.eqb c EQUALS then
      if in_bounds (prop_count l) PROP_MAX then
        row <- terminate PROP_NAME_MAX (aget EmptyString (prop_count l) (prop_name l)) (len l);;
        let l := set_prop_name (aset EmptyString (prop_count l) row (prop_name l)) l in
        Ok (Continue (set_len 0 (set_st ST_PROPVALUE_QUOTE l)) w false)
      else Undef
    else if PROP_NAME_MAX <=? len l then
      fail "Property name too long." l w
    else if is_prop_name_char c then
      if in_bounds (prop_count l) PROP_MAX then
        row <- poke PROP_NAME_MAX (aget EmptyString (prop_count l) (prop_name l)) (len l) c;;
        let l := set_prop_name (aset EmptyString (prop_count l) row (prop_name l)) l in
        Ok (Continue (set_len (len l + 1) l) w false)
      else Undef
    else
      Ok (Continue (set_error "Invalid character." l) w false).

Definition case_PROPVALUE_QUOTE (c : ascii) (l : locals) (w : W)
  : result (control W) :=
  l <- (if Ascii.eqb c LF then next_line l else Ok l);;
  if is_blank_or_newline c then
    Ok (Continue l w false)
  else if Ascii.eqb c DQUOTE then
    Ok (Continue (set_len 0 (set_st ST_PROPVALUE_BODY l)) w false)
  else
    Ok (Continue l w false).

(** [prop_val[prop_count][len] = c; len++;] *)
Definition put_value (c : ascii) (l : locals) : result locals :=
  if in_bounds (prop_count l) PROP_MAX then
    row <- poke PROP_VALUE_MAX (aget EmptyString (prop_count l) (prop_val l)) (len l) c;;
    Ok (set_len (len l + 1) (set_prop_val (aset EmptyString (prop_count l) row (prop_val l)) l))
  else Undef.

(** [next] is [*top], the character after [c] (NUL at the end of the
    document). *)
Definition case_PROPVALUE_BODY (c next : ascii) (l : locals) (w : W)
  : result (control W) :=
  if Ascii.eqb c BACKSLASH then
    if Ascii.eqb next DQUOTE then
      l' <- put_value DQUOTE l;; Ok (Continue l' w true)
    else if Ascii.eqb next LOWER_N then
      l' <- put_value LF l;; Ok (Continue l' w true)
    else if Ascii.eqb next BACKSLASH then
      l' <- put_value BACKSLASH l;; Ok (Continue l' w true)
    else
      l' <- put_value BACKSLASH l;; Ok (Continue l' w false)
  else if Ascii.eqb c DQUOTE then
    if in_bounds (prop_count l) PROP_MAX then
      row <- terminate PROP_VALUE_MAX (aget EmptyString (prop_count l) (prop_val l)) (len l);;
      let l := set_prop_val (aset EmptyString (prop_count l) row (prop_val l)) l in
      Ok (Continue (set_len 0 (set_st ST_PROPNAME (set_prop_count (prop_count l + 1) l)))
                   w false)
    else Undef
  else if PROP_VALUE_MAX <=? len l then
    fail "Property value too long." l w
  else
    l' <- put_value c l;; Ok (Continue l' w false).

(** The body of the [switch]. *)
Definition step (c next : ascii) (l : locals) (w : W) : result (control W) :=
  match st l with
  | ST_INIT => case_INIT c l w
  | ST_TAGNAME => case_TAGNAME c l w
  | ST_PROPNAME => case_PROPNAME c l w
  | ST_PROPVALUE_QUOTE => case_PROPVALUE_QUOTE c l w
  | ST_PROPVALUE_BODY => case_PROPVALUE_BODY c next l w
  end.

(** [*top] *)
Definition peek (top : string) : ascii :=
  match top with
  | EmptyString => NUL
  | String c _ => c
  end.

(** [while ( *top != '\0') { c = *top++; switch (state) ... }] *)
Fixpoint scan (top : string) (l : locals) (w : W) : result (loop_exit W) :=
  match top with
  | EmptyString => Ok (AtEnd l w)
  | String c rest =>
      if Ascii.eqb c NUL then Ok (AtEnd l w)
      else
        match step c (peek rest) l w with
        | Undef => Undef
        | Ok (Return ok l' w') => Ok (Returned ok l' w')
        | Ok (Continue l' w' false) => scan rest l' w'
        | Ok (Continue l' w' true) =>
            match rest with
            | EmptyString => Undef
            | String _ rest' => scan rest' l' w'
            end
        end
  end.

(** What the caller receives: the returned [bool], the two output
    parameters, and the state the callback left. *)
Definition parse_tag_document (doc : string) (w : W)
  : result (bool * option string * option Z * W) :=
  e <- scan doc initial_locals w;;
  match e with
  | Returned ok l w' => Ok (ok, error_msg l, error_line l, w')
  | AtEnd l w' =>
      if state_eqb (st l) ST_INIT then Ok (true, error_msg l, error_line l, w')
      else
        let l := set_error "Unexpected EOF" l in
        Ok (false, error_msg l, error_line l, w')
  end.

End Tokenizer.

(** ** The tag store *)

(** A [char *] that owns a heap string: [NULL], a live block, or a block
    that was passed to [free] while the pointer kept its value. *)
Inductive cptr : Type :=
| Null
| Live (s : string)
| Dangling.

Module Tag.

(** Modelled from the spec: [struct tag] is declared in tag.h, which is
    not among the sources.  A Tag Record owns a name, a source line
    number and an ordered sequence of properties bounded by the
    configured maximum; the fields are the ones tag.c reads and writes
    ([tag_name], [prop_count], [prop_name[PROP_MAX]],
    [prop_value[PROP_MAX]], [line]). *)
Record t : Type := mk {
  tag_name : cptr;
  prop_count : Z;
  prop_name : list cptr;
  prop_value : list cptr;
  line : Z
}.

(** A cell of the static table before anything is stored in it. *)
Definition zero : t := mk Null 0 [] [] 0.

Definition set_tag_name (v : cptr) (r : t) : t :=
  mk v (prop_count r) (prop_name r) (prop_value r) (line r).

Definition set_prop_count (v : Z) (r : t) : t :=
  mk (tag_name r) v (prop_name r) (prop_value r) (line r).

Definition set_prop_name (v : list cptr) (r : t) : t :=
  mk (tag_name r) (prop_count r) v (prop_value r) (line r).

Definition set_prop_value (v : list cptr) (r : t) : t :=
  mk (tag_name r) (prop_count r) (prop_name r) v (line r).

Definition set_line (v : Z) (r : t) : t :=
  mk (tag_name r) (prop_count r) (prop_name r) (prop_value r) v.

End Tag.

(** What the logging collaborator received. *)
Inductive log_entry : Type :=
| Diagnostic (file : string) (line : option Z) (msg : option string)
| TooManyTags
| OutOfMemory.

(** The file-scope variables of tag.c, the log, and the oracle of the
    allocator: the head of [heap] tells whether the next [strdup]
    succeeds, and an empty oracle never fails. *)
Record tagsys : Type := mkSys {
  cur_file : string;
  cur_index : Z;
  tag : list Tag.t;
  tag_size : Z;
  log : list log_entry;
  heap : list bool
}.

Definition set_cur_file (v : string) (g : tagsys) : tagsys :=
  mkSys v (cur_index g) (tag g) (tag_size g) (log g) (heap g).

Definition set_cur_index (v : Z) (g : tagsys) : tagsys :=
  mkSys (cur_file g) v (tag g) (tag_size g) (log g) (heap g).

Definition set_tag (v : list Tag.t) (g : tagsys) : tagsys :=
  mkSys (cur_file g) (cur_index g) v (tag_size g) (log g) (heap g).

Definition set_tag_size (v : Z) (g : tagsys) : tagsys :=
  mkSys (cur_file g) (cur_index g) (tag g) v (log g) (heap g).

Definition set_heap (v : list bool) (g : tagsys) : tagsys :=
  mkSys (cur_file g) (cur_index g) (tag g) (tag_size g) (log g) v.

Definition log_error (e : log_entry) (g : tagsys) : tagsys :=
  mkSys (cur_file g) (cur_index g) (tag g) (tag_size g) (log g ++ [e]) (heap g).

(** Where a [const char *file] points: at a string [s] in storage of
    the caller, which the tag system neither writes nor frees, or at
    [cur_file]. *)
Inductive name_ptr : Type :=
| Outside (s : string)
| CurFile.

Coercion Outside : string >-> name_ptr.

(** The string read through the pointer in the state [g]. *)
Definition name_at (p : name_ptr) (g : tagsys) : string :=
  match p with
  | Outside s => s
  | CurFile => cur_file g
  end.

(** The state of a process that has not loaded anything yet. *)
Definition boot (h : list bool) : tagsys := mkSys EmptyString 0 [] 0 [] h.

(** [tag[i]] *)
Definition tag_at (i : Z) (g : tagsys) : Tag.t := aget Tag.zero i (tag g).

(** A store through [t = &tag[i]]. *)
Definition update_tag (i : Z) (f : Tag.t -> Tag.t) (g : tagsys) : tagsys :=
  set_tag (aset Tag.zero i (f (tag_at i g)) (tag g)) g.

Definition strdup (s : string) (g : tagsys) : cptr * tagsys :=
  match heap g with
  | [] => (Live s, g)
  | true :: h => (Live s, set_heap h g)
  | false :: h => (Null, set_heap h g)
  end.

(** [free(p)]: defined unless the block was freed before. *)
Definition free (p : cptr) : result cptr :=
  match p with
  | Null => Ok Null
  | Live _ => Ok Dangling
  | Dangling => Undef
  end.

(** [for (i = from; ...; i++) body], run [n] times. *)
Fixpoint for_loop {A : Type} (n : nat) (i : Z) (body : Z -> A -> result A) (a : A)
  : result A :=
  match n with
  | O => Ok a
  | S n' => a' <- body i a;; for_loop n' (i + 1) body a'
  end.

Section TagSystem.

Variable PROP_MAX : Z.

(** The external file reader: the content of a file, or [None] when
    [load_file] returns false. *)
Variable load_file : string -> option string.

(** [if (a[i] != NULL) { free(a[i]); a[i] = NULL; }] on an array of
    [PROP_MAX] pointers. *)
Definition free_and_clear (i : Z) (a : list cptr) : result (list cptr) :=
  if in_bounds i PROP_MAX then
    match aget Null i a with
    | Null => Ok a
    | p => _ <- free p;; Ok (aset Null i Null a)
    end
  else Undef.

(** The body of the inner loop of [cleanup_tag]; the index it uses is
    [i], the number of the record, for every [j]. *)
Definition cleanup_props (i : Z) (j : Z) (r : Tag.t) : result Tag.t :=
  names <- free_and_clear i (Tag.prop_name r);;
  let r := Tag.set_prop_name names r in
  values <- free_and_clear i (Tag.prop_value r);;
  Ok (Tag.set_prop_value values r).

(** The body of the outer loop of [cleanup_tag]. *)
Definition cleanup_record (i : Z) (g : tagsys) : result tagsys :=
  if in_bounds i COMMAND_MAX then
    let r := tag_at i g in
    p <- free (Tag.tag_name r);;
    let r := Tag.set_tag_name p r in
    r <- for_loop (Z.to_nat PROP_MAX) 0 (cleanup_props i) r;;
    Ok (update_tag i (fun _ => r) g)
  else Undef.

Definition cleanup_tag (g : tagsys) : result tagsys :=
  let g := set_cur_index 0 g in
  let g := set_cur_file EmptyString g in
  for_loop (Z.to_nat (tag_size g)) 0 cleanup_record g.

Definition init_tag (g : tagsys) : result tagsys := cleanup_tag g.

(** [p[i]] through a [const char **] argument. *)
Definition deref (p : option (list string)) (i : Z) : result string :=
  match p with
  | None => Undef
  | Some a => Ok (aget EmptyString i a)
  end.

(** [for (i = 0; i < props; i++)] of [parse_tag_callback], with [n]
    turns left; the record is [tag[slot]]. *)
Fixpoint copy_props (n : nat) (i : Z) (slot : Z)
         (prop_name prop_value : option (list string)) (g : tagsys)
  : result (bool * tagsys) :=
  match n with
  | O => Ok (true, g)
  | S n' =>
      if in_bounds i PROP_MAX then
        name <- deref prop_name i;;
        let (p, g) := strdup name g in
        let g := update_tag slot
                   (fun r => Tag.set_prop_name (aset Null i p (Tag.prop_name r)) r) g in
        match p with
        | Null => Ok (false, log_error OutOfMemory g)
        | _ =>
            value <- deref prop_value i;;
            let (q, g) := strdup value g in
            let g := update_tag slot
                       (fun r => Tag.set_prop_value (aset Null i q (Tag.prop_value r)) r) g in
            match q with
            | Null => Ok (false, log_error OutOfMemory g)
            | _ => copy_props n' (i + 1) slot prop_name prop_value g
            end
        end
      else Undef
  end.

Definition parse_tag_callback (name : string) (props : Z)
           (prop_name prop_value : option (list string)) (line : Z) (g : tagsys)
  : result (bool * tagsys) :=
  if COMMAND_MAX <=? tag_size g then
    Ok (false, log_error TooManyTags g)
  else
    let slot := tag_size g in
    if in_bounds slot COMMAND_MAX then
      let g := set_tag_size (slot + 1) g in
      let g := update_tag slot (Tag.set_prop_count props) g in
      let (p, g) := strdup name g in
      let g := update_tag slot (Tag.set_tag_name p) g in
      match p with
      | Null => Ok (false, log_error OutOfMemory g)
      | _ =>
          r <- copy_props (Z.to_nat props) 0 slot prop_name prop_value g;;
          let (ok, g) := r in
          if ok then Ok (true, update_tag slot (Tag.set_line line) g)
          else Ok (false, g)
      end
    else Undef.

(** [strncpy(cur_file, file, sizeof(cur_file) - 1)]; the last cell of
    [cur_file] is never written and stays NUL.  The two parameters of
    [strncpy] are [restrict]-qualified and the call writes 1023 cells of
    [cur_file]: when [file] is [cur_file] itself the copy is between
    overlapping objects (C11 7.24.2.4), which has no defined result.
    (By then [cleanup_tag] has emptied the buffer, so the name that was
    passed is lost whatever the copy does.) *)
Definition save_file_name (file : name_ptr) (g : tagsys) : result tagsys :=
  match file with
  | Outside s => Ok (set_cur_file (take 1023 s) g)
  | CurFile => Undef
  end.

(** [file] is read three times: by [load_file] on entry, by [strncpy]
    after [cleanup_tag], and by [log_error] after the parse. *)
Definition load_tag_file (file : name_ptr) (g : tagsys) : result (bool * tagsys) :=
  match load_file (name_at file g) with
  | None => Ok (false, g)
  | Some buf =>
      g <- cleanup_tag g;;
      g <- save_file_name file g;;
      r <- parse_tag_document PROP_MAX tagsys parse_tag_callback buf g;;
      let '(ok, error_message, error_line, g) := r in
      if negb ok then
        Ok (false, log_error (Diagnostic (name_at file g) error_line error_message) g)
      else Ok (true, g)
  end.

(** [return &cur_file[0]]: the caller receives the buffer, not a copy
    of its content. *)
Definition get_tag_file_name (g : tagsys) : name_ptr := CurFile.

Definition get_tag_line (g : tagsys) : result Z :=
  if tag_size g <=? cur_index g then Ok (-1)
  else if in_bounds (cur_index g) COMMAND_MAX then Ok (Tag.line (tag_at (cur_index g) g))
  else Undef.

(** The result is the record the returned pointer designates, or [None]
    for [NULL]. *)
Definition get_current_tag (g : tagsys) : result (option Tag.t) :=
  if tag_size g <=? cur_index g then Ok None
  else if in_bounds (cur_index g) COMMAND_MAX then Ok (Some (tag_at (cur_index g) g))
  else Undef.

Definition move_to_next_tag (g : tagsys) : result tagsys :=
  i <- int_incr (cur_index g);; Ok (set_cur_index i g).

End TagSystem.



(** * Vocabulary of the statements *)

(** The callback state carried by the two ways a loop turn or the loop
    can end. *)
Definition control_world {W : Type} (c : control W) : W :=
  match c with
  | Continue _ w _ => w
  | Return _ _ w => w
  end.

Definition exit_world {W : Type} (e : loop_exit W) : W :=
  match e with
  | AtEnd _ w => w
  | Returned _ _ w => w
  end.

(** [g'] extends [g]: cursor and file name are the same, no record was
    removed and the records that were there are untouched. *)
Definition extends (g g' : tagsys) : Prop :=
  cur_index g' = cur_index g /\
  cur_file g' = cur_file g /\
  tag_size g <= tag_size g' /\
  forall i, 0 <= i < tag_size g -> tag_at i g' = tag_at i g.

(** Only the record [slot] may differ between [g] and [g']. *)
Definition same_but (slot : Z) (g g' : tagsys) : Prop :=
  cur_index g' = cur_index g /\
  cur_file g' = cur_file g /\
  tag_size g' = tag_size g /\
  forall i, 0 <= i -> i <> slot -> tag_at i g' = tag_at i g.

(** [n] calls of [move_to_next_tag]. *)
Fixpoint advance (n : nat) (g : tagsys) : result tagsys :=
  match n with
  | O => Ok g
  | S n' => g' <- move_to_next_tag g;; advance n' g'
  end.

(** The locals once [c] has been stored at the end of the value that is
    being read: [prop_val[prop_count][len] = c; len++;]. *)
Definition value_extended (c : ascii) (l : locals) : locals :=
  set_len (len l + 1)
    (set_prop_val
       (aset EmptyString (prop_count l)
             (take (len l) (aget EmptyString (prop_count l) (prop_val l))
              ++ String c EmptyString)
             (prop_val l))
       l).

(** ** The decoding of a value *)

(** The decoding of the text of a value as the design document words it:
    backslash and quote stand for a quote, backslash and [n] for a
    newline, two backslashes for one, a backslash before any other
    character for itself, the other character being read next as an
    ordinary one; every other character stands for itself. *)
Fixpoint decode (src : string) : string :=
  match src with
  | EmptyString => EmptyString
  | String c rest =>
      if Ascii.eqb c BACKSLASH then
        match rest with
        | EmptyString => String BACKSLASH EmptyString
        | String d rest' =>
            if Ascii.eqb d DQUOTE then String DQUOTE (decode rest')
            else if Ascii.eqb d LOWER_N then String LF (decode rest')
            else if Ascii.eqb d BACKSLASH then String BACKSLASH (decode rest')
            else String BACKSLASH (decode rest)
        end
      else String c (decode rest)
  end.

(** [src] is the text of a value between its quotes: it has no NUL, every
    quote in it is escaped, and its last character is not a backslash
    that would escape the closing quote. *)
Fixpoint value_text (src : string) : bool :=
  match src with
  | EmptyString => true
  | String c rest =>
      if Ascii.eqb c NUL then false
      else if Ascii.eqb c DQUOTE then false
      else if Ascii.eqb c BACKSLASH then
        match rest with
        | EmptyString => false
        | String d rest' =>
            if Ascii.eqb d DQUOTE || Ascii.eqb d LOWER_N || Ascii.eqb d BACKSLASH
            then value_text rest'
            else value_text rest
        end
      else value_text rest
  end.

(** The locals once the characters of [s] have been stored one after the
    other. *)
Fixpoint stored (s : string) (l : locals) : locals :=
  match s with
  | EmptyString => l
  | String c s' => stored s' (value_extended c l)
  end.

(** The row of the value that is being read, the string a terminator
    stored now would leave in it, and the condition that the cells below
    [len] have been written. *)
Definition value_row (l : locals) : string :=
  aget EmptyString (prop_count l) (prop_val l).

Definition value_so_far (l : locals) : string := take (len l) (value_row l).

Definition row_filled (l : locals) : Prop :=
  (Z.to_nat (len l) <= String.length (value_row l))%nat.

(** ** The tags of a document *)

(** What the tokenizer hands to its callback for one tag. *)
Record event : Type := mkEvent {
  ev_name : string;
  ev_props : Z;
  ev_prop_name : list string;
  ev_prop_value : list string;
  ev_line : Z
}.

(** The [n] strings from index [from] on that a [const char **] argument
    gives access to. *)
Definition rows (p : option (list string)) (from : Z) (n : nat) : list string :=
  match p with
  | None => []
  | Some a => map (fun k => aget EmptyString (from + Z.of_nat k) a) (seq 0 n)
  end.

(** A callback that accepts every tag and keeps the list of what it was
    given. *)
Definition record_event (name : string) (props : Z)
           (prop_name prop_value : option (list string)) (line : Z)
           (evs : list event) : result (bool * list event) :=
  Ok (true, (evs ++ [mkEvent name props (rows prop_name 0 (Z.to_nat props))
                                        (rows prop_value 0 (Z.to_nat props)) line])%list).

(** The record that the record builder makes of a tag in an untouched
    cell of the table. *)
Definition record_of (e : event) : Tag.t :=
  Tag.mk (Live (ev_name e)) (ev_props e) (map Live (ev_prop_name e))
         (map Live (ev_prop_value e)) (ev_line e).

(** The store holds the records of [evs], in this order, and nothing
    else; the allocator never fails. *)
Definition holds (g : tagsys) (evs : list event) : Prop :=
  heap g = [] /\ tag g = map record_of evs /\ tag_size g = Z.of_nat (length evs) /\
  tag_size g <= COMMAND_MAX.

(** ** Sample documents *)

Definition Q : string := String DQUOTE EmptyString.
Definition NL : string := String LF EmptyString.

Fixpoint replicate (n : nat) (s : string) : string :=
  match n with
  | O => EmptyString
  | S n' => s ++ replicate n' s
  end.

(** A callback that accepts every tag and keeps no state. *)
Definition accept_all (name : string) (props : Z)
           (prop_name prop_value : option (list string)) (line : Z) (w : unit)
  : result (bool * unit) :=
  Ok (true, w).

(** A file system with one readable content, and one with none. *)
Definition only (doc : string) (file : string) : option string := Some doc.
Definition no_file (file : string) : option string := None.

(** A tag whose opening bracket is followed at once by a newline, then by
    two spaces, [a=], a quoted [1] and the closing bracket. *)
Definition newline_after_bracket : string :=
  "[" ++ NL ++ "  a=" ++ Q ++ "1" ++ Q ++ "]".

(** A tag [t] with the single property [v] whose value is written [src],
    up to the quote that closes the value. *)
Definition value_in_tag (src : string) : string := "[t v=" ++ Q ++ src ++ Q.

(** The value [a], escaped quote, [b], escaped [n], [c], escaped backslash,
    [d] as it is written in a document, and what it stands for. *)
Definition escaped_source : string := "a\" ++ Q ++ "b\nc\\d".
Definition escaped_decoded : string := "a" ++ Q ++ "b" ++ NL ++ "c\d".

(** [a\xb] as it is written, and its four characters. *)
Definition unsupported_source : string := "a\xb".
Definition unsupported_decoded : string :=
  String "a" (String BACKSLASH (String "x" (String "b" EmptyString))).

(** The locals when the closing quote of the value of [value_in_tag] has
    been read. *)
Definition value_read (value : string) : locals :=
  mkLocals ST_PROPNAME 1 0 1 "t" ["v"] [value] None None.

(** A value of [n] escapes [\n], and one of [n] plain characters. *)
Definition escaped_value (n : nat) : string :=
  "[t a=" ++ Q ++ replicate n "\n" ++ Q ++ "]".

Definition plain_value (n : nat) : string :=
  "[t a=" ++ Q ++ replicate n "x" ++ Q ++ "]".

(** A tag [t] with [n] properties, each written [a=] and a quoted [1]. *)
Definition prop_text : string := "a=" ++ Q ++ "1" ++ Q.
Definition one_prop : string := " " ++ prop_text.
Definition full_tag (n : nat) : string := "[t" ++ replicate n one_prop ++ "]".

(** Two documents of one tag each; the tag of the first is on line 3. *)
Definition doc_A : string := NL ++ NL ++ "[a]".
Definition doc_B : string := "[b]".

Definition two_files (file : string) : option string :=
  if String.eqb file "A" then Some doc_A
  else if String.eqb file "B" then Some doc_B
  else None.

Definition record_A : Tag.t := Tag.mk (Live "a") 0 [] [] 3.
Definition residue_A : Tag.t := Tag.mk Dangling 0 [] [] 3.
Definition record_B : Tag.t := Tag.mk (Live "b") 0 [] [] 1.

Definition after_A : tagsys := mkSys "A" 0 [record_A] 1 [] [].
Definition cleaned_A : tagsys := mkSys EmptyString 0 [residue_A] 1 [] [].
Definition after_A_B : tagsys := mkSys "B" 0 [residue_A; record_B] 2 [] [].

(** A complete tag followed by a character that no tag may follow. *)
Definition tag_then_garbage : string := "[a]x".

Definition after_garbage : tagsys :=
  mkSys "A" 0 [Tag.mk (Live "a") 0 [] [] 1] 1
        [Diagnostic "A" (Some 1) (Some "Invalid character.")] [].

(** A tag that the document never closes, on line 1 and on line 3. *)
Definition unterminated : string := "[say".
Definition unterminated_on_line_3 : string := NL ++ NL ++ "[say".

(** The same tag with a newline between the bracket and the name: the
    text has two lines and ends on the second. *)
Definition unterminated_on_line_2 : string := "[" ++ NL ++ "say".

(** The cursor after one [move_to_next_tag] in a process that has loaded
    nothing. *)
Definition advanced_once : tagsys := mkSys EmptyString 1 [] 0 [] [].

(** The cursor at the last value of an [int], in a process that has
    loaded nothing. *)
Definition at_int_max : tagsys := mkSys EmptyString INT_MAX [] 0 [] [].

(** The locals in the middle of a value: state [ST_PROPVALUE_BODY], first
    property, nothing stored yet. *)
Definition in_value : locals :=
  mkLocals ST_PROPVALUE_BODY 1 0 0 "t" ["v"] [] None None.

(** ** What the tokenizer tells its caller *)

(** The locals carried by the two ways a loop turn or the loop can end. *)
Definition control_locals {W : Type} (c : control W) : locals :=
  match c with
  | Continue l _ _ => l
  | Return _ l _ => l
  end.

Definition exit_locals {W : Type} (e : loop_exit W) : locals :=
  match e with
  | AtEnd l _ => l
  | Returned _ l _ => l
  end.

(** The messages the tokenizer has for its caller. *)
Definition messages : list string :=
  ["Invalid character."; "Tag name too long."; "Too many properties.";
   "Internal error."; "Property name too long."; "Property value too long.";
   "Unexpected EOF"].

(** The number of newline characters of a text. *)
Fixpoint newlines (s : string) : Z :=
  match s with
  | EmptyString => 0
  | String c rest => (if Ascii.eqb c LF then 1 else 0) + newlines rest
  end.

(** Every character of [s] passes the test [p]. *)
Fixpoint all_chars (p : ascii -> bool) (s : string) : bool :=
  match s with
  | EmptyString => true
  | String c rest => p c && all_chars p rest
  end.

(** The output parameters are untouched, or hold the message that the
    tokenizer leaves, without returning, for a character it skipped in a
    property name, with a line between [lo] and [hi]. *)
Definition quiet (lo hi : Z) (l : locals) : Prop :=
  (error_msg l = None /\ error_line l = None) \/
  (error_msg l = Some "Invalid character." /\
   exists n, error_line l = Some n /\ lo <= n <= hi).

(** ** Names *)

(** A character that a tag name keeps: it is not a blank, a newline, a
    closing bracket or a NUL. *)
Definition is_tag_name_char (c : ascii) : bool :=
  negb (is_blank_or_newline c || Ascii.eqb c RBRACKET || Ascii.eqb c NUL).

(** The locals when the characters of [name] have been stored as the tag
    name. *)
Definition named (name : string) (l : locals) : locals :=
  set_len (Z.of_nat (String.length name)) (set_tag_name name l).

(** The locals while the name of a property is read: [p] is what has
    been stored of it. *)
Definition key_so_far (pn : list string) (p : string) (l0 : locals) : locals :=
  set_len (Z.of_nat (String.length p)) (set_prop_name (pn ++ [p]) l0).

(** ** Writing a document *)

(** The text of a value in which every quote and every backslash is
    escaped. *)
Fixpoint escape (v : string) : string :=
  match v with
  | EmptyString => EmptyString
  | String c rest =>
      if Ascii.eqb c DQUOTE || Ascii.eqb c BACKSLASH
      then String BACKSLASH (String c (escape rest))
      else String c (escape rest)
  end.

(** A property (name and value) written after a space, and a tag written
    with its properties. *)
Definition write_prop (kv : string * string) : string :=
  " " ++ fst kv ++ "=" ++ Q ++ escape (snd kv) ++ Q.

Fixpoint write_props (props : list (string * string)) : string :=
  match props with
  | [] => EmptyString
  | kv :: more => write_prop kv ++ write_props more
  end.

Definition write_tag (name : string) (props : list (string * string)) : string :=
  "[" ++ name ++ write_props props ++ "]".

(** What can be written so: a tag name of 1 to 127 characters that are
    not blanks, newlines, closing brackets or NUL; a property name of 1
    to 127 letters, digits, hyphens and underscores; a value of at most
    4095 characters other than NUL. *)
Definition not_empty (s : string) : bool :=
  match s with
  | EmptyString => false
  | String _ _ => true
  end.

Definition name_ok (name : string) : bool :=
  not_empty name && all_chars is_tag_name_char name
  && (Z.of_nat (String.length name) <? TAG_NAME_MAX).

Definition key_ok (key : string) : bool :=
  not_empty key && all_chars is_prop_name_char key
  && (Z.of_nat (String.length key) <? PROP_NAME_MAX).

Definition value_ok (v : string) : bool :=
  all_chars (fun c => negb (Ascii.eqb c NUL)) v
  && (Z.of_nat (String.length v) <? PROP_VALUE_MAX).

Definition prop_ok (kv : string * string) : bool :=
  key_ok (fst kv) && value_ok (snd kv).

(** The two tables hold the names [pn] and the values [pv] of the
    properties read so far, and nothing else. *)
Definition tables (pn pv : list string) (l : locals) : Prop :=
  prop_name l = pn /\ prop_val l = pv /\ length pv = length pn /\
  prop_count l = Z.of_nat (length pn).

(** The locals when one more property has been read. *)
Definition with_prop (key v : string) (l : locals) : locals :=
  mkLocals ST_PROPNAME (line l) 0 (prop_count l + 1) (tag_name l)
           (prop_name l ++ [key]) (prop_val l ++ [v]) (error_msg l) (error_line l).

Fixpoint with_props (props : list (string * string)) (l : locals) : locals :=
  match props with
  | [] => l
  | kv :: more => with_props more (with_prop (fst kv) (snd kv) l)
  end.

(** A tag with its properties, and a document written with one tag on
    each line. *)
Definition written_tag : Type := (string * list (string * string))%type.

Definition tag_ok (t : written_tag) : bool :=
  name_ok (fst t) && forallb prop_ok (snd t).

Fixpoint write_doc (tags : list written_tag) : string :=
  match tags with
  | [] => EmptyString
  | t :: more => write_tag (fst t) (snd t) ++ NL ++ write_doc more
  end.

Fixpoint total_props (tags : list written_tag) : nat :=
  match tags with
  | [] => O
  | t :: more => (length (snd t) + total_props more)%nat
  end.

(** What the callback is given for the tags of such a document, the
    first of them on line [ln], when the tables hold the names [pn] and
    the values [pv] already.  A tag without properties is reported with
    no table; a tag with properties is reported with the whole tables,
    in which its properties come last. *)
Fixpoint events_of (tags : list written_tag) (pn pv : list string) (ln : Z)
  : list event :=
  match tags with
  | [] => []
  | t :: more =>
      match snd t with
      | [] => mkEvent (fst t) 0 [] [] ln :: events_of more pn pv (ln + 1)
      | _ :: _ =>
          let pn' := (pn ++ map fst (snd t))%list in
          let pv' := (pv ++ map snd (snd t))%list in
          mkEvent (fst t) (Z.of_nat (length pn')) pn' pv' ln
          :: events_of more pn' pv' (ln + 1)
      end
  end.

(** ** Clients of the tag system *)

(** What [cleanup_tag] leaves of a record: the number of properties, the
    line, and every pointer of the two tables except those at index
    [i]. *)
Definition off_diagonal (i : Z) (r r' : Tag.t) : Prop :=
  Tag.prop_count r' = Tag.prop_count r /\ Tag.line r' = Tag.line r /\
  forall k, 0 <= k -> k <> i ->
    aget Null k (Tag.prop_name r') = aget Null k (Tag.prop_name r) /\
    aget Null k (Tag.prop_value r') = aget Null k (Tag.prop_value r).

(** [if (p != NULL) { free(p); p = NULL; }] has run, with a defined
    result, on a cell that held [p] and now holds [p']: the block had
    not been freed before, and the cell holds [NULL]. *)
Definition freed_and_null (p p' : cptr) : Prop := p <> Dangling /\ p' = Null.

(** What [cleanup_tag] does to the record of index [i], [r] before and
    [r'] after: the name is freed and its pointer kept; when the inner
    loop runs at all ([0 < PROP_MAX]) the index [i] lies within the two
    tables and the two strings at index [i] are freed, their pointers
    set to [NULL]; when it does not run the two tables are as they
    were; everything else is left as in [off_diagonal]. *)
Definition cleaned (PROP_MAX i : Z) (r r' : Tag.t) : Prop :=
  free (Tag.tag_name r) = Ok (Tag.tag_name r') /\
  off_diagonal i r r' /\
  (0 < PROP_MAX ->
   i < PROP_MAX /\
   freed_and_null (aget Null i (Tag.prop_name r)) (aget Null i (Tag.prop_name r')) /\
   freed_and_null (aget Null i (Tag.prop_value r)) (aget Null i (Tag.prop_value r'))) /\
  (PROP_MAX <= 0 ->
   Tag.prop_name r' = Tag.prop_name r /\ Tag.prop_value r' = Tag.prop_value r).

(** The cursor is not negative and the number of records fits the
    table. *)
Definition well_formed (g : tagsys) : Prop :=
  0 <= cur_index g /\ 0 <= tag_size g <= COMMAND_MAX.

(** A call of one of the functions that change the state of the tag
    system, and a sequence of such calls.  The name given to a load is
    a string of the caller. *)
Inductive call : Type :=
| CallInit
| CallCleanup
| CallLoad (file : string)
| CallNext.

Definition do_call (PROP_MAX : Z) (load_file : string -> option string)
           (c : call) (g : tagsys) : result tagsys :=
  match c with
  | CallInit => init_tag PROP_MAX g
  | CallCleanup => cleanup_tag PROP_MAX g
  | CallLoad file => r <- load_tag_file PROP_MAX load_file file g;; Ok (snd r)
  | CallNext => move_to_next_tag g
  end.

Fixpoint do_calls (PROP_MAX : Z) (load_file : string -> option string)
         (cs : list call) (g : tagsys) : result tagsys :=
  match cs with
  | [] => Ok g
  | c :: more => g' <- do_call PROP_MAX load_file c g;; do_calls PROP_MAX load_file more g'
  end.

(** The names and the values of all the properties of the tags of a
    document, in the order of the document. *)
Definition all_keys (tags : list written_tag) : list string :=
  flat_map (fun t => map fst (snd t)) tags.

Definition all_values (tags : list written_tag) : list string :=
  flat_map (fun t => map snd (snd t)) tags.

(** The store holds the records [base], then the records of [evs], in
    the first cells of the table, and nothing else; the allocator never
    fails. *)
Definition holds_after (base : list Tag.t) (g : tagsys) (evs : list event) : Prop :=
  heap g = [] /\ tag g = (base ++ map record_of evs)%list /\
  tag_size g = Z.of_nat (length base + length evs) /\ tag_size g <= COMMAND_MAX.

(** The records counted are the first cells of the table, nothing was
    stored beyond them, and the allocator never fails. *)
Definition compact (g : tagsys) : Prop :=
  heap g = [] /\ tag_size g = Z.of_nat (length (tag g)) /\ tag_size g <= COMMAND_MAX.

(** ** More samples *)

(** A tag whose property name holds an exclamation mark. *)
Definition marked_name : string := "[t a!=" ++ Q ++ "1" ++ Q ++ "]".

(** Two lines of blanks. *)
Definition blank_lines : string :=
  String TAB (String LF (String SPACE (String CR (String LF EmptyString)))).

(** Three tags: two properties, none, one.  The second value holds a
    quote and a backslash. *)
Definition sample_tags : list written_tag :=
  [("say", [("text", "hi"); ("who", "a" ++ Q ++ "b\c")]);
   ("wait", []);
   ("jump", [("to", "end")])].

(** The locals after the name of a tag [t], before its first property,
    and after the equals sign of a property [a]. *)
Definition before_props : locals :=
  mkLocals ST_PROPNAME 1 0 0 "t" [] [] None None.

Definition before_quote : locals :=
  mkLocals ST_PROPVALUE_QUOTE 1 0 0 "t" ["a"] [] None None.

(** A store of one record with two properties. *)
Definition two_props : tagsys :=
  mkSys EmptyString 0
        [Tag.mk (Live "t") 2 [Live "k0"; Live "k1"] [Live "v0"; Live "v1"] 1] 1 [] [].

Definition two_props_cleaned : tagsys :=
  mkSys EmptyString 0
        [Tag.mk Dangling 2 [Null; Live "k1"] [Null; Live "v1"] 1] 1 [] [].




(** * Properties *)

(** ** Outcomes, indices and loops *)

Lemma bind_ok {A B : Type} (r : result A) (k : A -> result B) (b : B) :
  bind r k = Ok b -> exists a, r = Ok a /\ k a = Ok b.
Proof.
  destruct r as [a|]; simpl; intros H; [exists a; auto | discriminate].
Qed.

Lemma in_bounds_iff (i n : Z) : in_bounds i n = true <-> 0 <= i < n.
Proof.
  unfold in_bounds. rewrite andb_true_iff, Z.leb_le, Z.ltb_lt. tauto.
Qed.

Lemma int_incr_ok (x : Z) : x < INT_MAX -> int_incr x = Ok (x + 1).
Proof.
  intros H. unfold int_incr. apply Z.ltb_lt in H. now rewrite H.
Qed.

Lemma string_app_assoc (a b c : string) :
  ((a ++ b) ++ c = a ++ (b ++ c))%string.
Proof. induction a as [|x a IH]; cbn; [reflexivity | now rewrite IH]. Qed.

Lemma nth_set_nth_same {A : Type} (d v : A) (n : nat) (l : list A) :
  nth n (set_nth d n v l) d = v.
Proof.
  revert l. induction n as [|n IH]; intros [|x t]; cbn; auto.
Qed.

Lemma nth_set_nth_other {A : Type} (d v : A) (n m : nat) (l : list A) :
  n <> m -> nth m (set_nth d n v l) d = nth m l d.
Proof.
  revert m l. induction n as [|n IH]; intros [|m] [|x t] H; cbn; auto;
    try congruence.
  - now destruct m.
  - rewrite IH by congruence. now destruct m.
Qed.

Lemma aget_aset_same {A : Type} (d v : A) (i : Z) (l : list A) :
  aget d i (aset d i v l) = v.
Proof. apply nth_set_nth_same. Qed.

Lemma aget_aset_other {A : Type} (d v : A) (i j : Z) (l : list A) :
  0 <= i -> 0 <= j -> i <> j -> aget d j (aset d i v l) = aget d j l.
Proof.
  intros Hi Hj H. apply nth_set_nth_other. lia.
Qed.

Lemma for_loop_invariant {A : Type} (P : A -> Prop) (body : Z -> A -> result A) :
  (forall i a a', P a -> body i a = Ok a' -> P a') ->
  forall n i a a', P a -> for_loop n i body a = Ok a' -> P a'.
Proof.
  intros Hbody. induction n as [|n IH]; intros i a a' Ha H; cbn in H.
  - now inversion H; subst.
  - apply bind_ok in H as (b & Hb & H). eauto.
Qed.

(** Case analysis on a computation that is known to have a result. *)
Ltac invert_ok :=
  repeat match goal with
  | H : Ok _ = Ok _ |- _ => inversion H; subst; clear H
  | H : Undef = Ok _ |- _ => discriminate H
  | H : bind ?r _ = Ok _ |- _ =>
      let a := fresh "a" in let E := fresh "E" in
      destruct r as [a|] eqn:E; cbn [bind] in H; [|discriminate H]
  | H : (let (_, _) := ?p in _) = Ok _ |- _ => destruct p
  | H : (if ?b then _ else _) = Ok _ |- _ => destruct b eqn:?
  end.

(** ** The cursor *)

Lemma advance_ok (n : nat) (g : tagsys) :
  cur_index g + Z.of_nat n <= INT_MAX ->
  advance n g = Ok (set_cur_index (cur_index g + Z.of_nat n) g).
Proof.
  revert g. induction n as [|n IH]; intros g H.
  - simpl. rewrite Z.add_0_r. now destruct g.
  - rewrite Nat2Z.inj_succ in *. cbn [advance]. unfold move_to_next_tag.
    rewrite int_incr_ok by lia. cbn [bind].
    rewrite IH by (destruct g; cbn [set_cur_index cur_index] in *; lia).
    destruct g; unfold set_cur_index; cbn [cur_index cur_file tag tag_size log heap].
    do 2 f_equal. lia.
Qed.

Lemma past_end_reads (g : tagsys) :
  tag_size g <= cur_index g ->
  get_current_tag g = Ok None /\ get_tag_line g = Ok (-1).
Proof.
  intros H. apply Z.leb_le in H.
  unfold get_current_tag, get_tag_line. now rewrite H.
Qed.

Lemma in_store_reads (g : tagsys) :
  0 <= cur_index g < tag_size g -> tag_size g <= COMMAND_MAX ->
  get_current_tag g = Ok (Some (tag_at (cur_index g) g)) /\
  get_tag_line g = Ok (Tag.line (tag_at (cur_index g) g)).
Proof.
  intros H HC. unfold get_current_tag, get_tag_line.
  replace (tag_size g <=? cur_index g) with false by (symmetry; apply Z.leb_gt; lia).
  replace (in_bounds (cur_index g) COMMAND_MAX) with true
    by (symmetry; apply in_bounds_iff; lia).
  auto.
Qed.

(** On a store of [N] records with the cursor at 0, the read that follows
    [k] advances returns record [k] while [k < N], and nothing at
    [k = N]. *)
Lemma cursor_walk (g : tagsys) (k : nat) :
  cur_index g = 0 -> tag_size g <= COMMAND_MAX ->
  Z.of_nat k <= tag_size g ->
  exists g',
    advance k g = Ok g' /\
    (Z.of_nat k < tag_size g ->
     get_current_tag g' = Ok (Some (tag_at (Z.of_nat k) g)) /\
     get_tag_line g' = Ok (Tag.line (tag_at (Z.of_nat k) g))) /\
    (Z.of_nat k = tag_size g ->
     get_current_tag g' = Ok None /\ get_tag_line g' = Ok (-1)).
Proof.
  intros H0 HC Hk. unfold COMMAND_MAX in HC.
  exists (set_cur_index (cur_index g + Z.of_nat k) g).
  split; [apply advance_ok; unfold INT_MAX; lia|].
  rewrite H0, Z.add_0_l. split; intros H.
  - apply (in_store_reads (set_cur_index (Z.of_nat k) g)); cbn; unfold COMMAND_MAX; lia.
  - apply past_end_reads. cbn. lia.
Qed.

(** ** Strings *)

Lemma string_length_app (a b : string) :
  String.length (a ++ b) = (String.length a + String.length b)%nat.
Proof. induction a as [|x a IH]; cbn; [reflexivity | now rewrite IH]. Qed.

Lemma string_app_nil_r (s : string) : (s ++ EmptyString)%string = s.
Proof. induction s as [|x s IH]; cbn; [reflexivity | now rewrite IH]. Qed.

Lemma substring_whole (s : string) : substring 0 (String.length s) s = s.
Proof. induction s as [|x s IH]; cbn; [reflexivity | now rewrite IH]. Qed.

Lemma substring_length (n : nat) (s : string) :
  (n <= String.length s)%nat -> String.length (substring 0 n s) = n.
Proof.
  revert s. induction n as [|n IH]; intros [|x s] H; cbn in *; try lia; auto.
  rewrite IH; lia.
Qed.

(** ** What one run of the tokenizer does to the state of its callback *)

Section ScanRelation.

Variable PROP_MAX : Z.
Variable W : Type.
Variable callback :
  string -> Z -> option (list string) -> option (list string) -> Z -> W ->
  result (bool * W).

Lemma scan_cons (c : ascii) (rest : string) (l : locals) (w : W) :
  Ascii.eqb c NUL = false ->
  scan PROP_MAX W callback (String c rest) l w =
  match step PROP_MAX W callback c (peek rest) l w with
  | Undef => Undef
  | Ok (Return ok l' w') => Ok (Returned ok l' w')
  | Ok (Continue l' w' false) => scan PROP_MAX W callback rest l' w'
  | Ok (Continue l' w' true) =>
      match rest with
      | EmptyString => Undef
      | String _ rest' => scan PROP_MAX W callback rest' l' w'
      end
  end.
Proof. intros H. cbn [scan]. rewrite H. reflexivity. Qed.

(** Every [return] inside the loop is a [return false]. *)
Lemma step_returns_false (c next : ascii) (l l' : locals) (w w' : W) (ok : bool) :
  step PROP_MAX W callback c next l w = Ok (Return ok l' w') -> ok = false.
Proof.
  unfold step, case_INIT, case_TAGNAME, case_PROPNAME, case_PROPVALUE_QUOTE,
    case_PROPVALUE_BODY, fail.
  intros H. destruct (st l); invert_ok; reflexivity.
Qed.

Lemma scan_returns_false_upto (n : nat) :
  forall (top : string) (l l' : locals) (w w' : W) (ok : bool),
    (String.length top <= n)%nat ->
    scan PROP_MAX W callback top l w = Ok (Returned ok l' w') -> ok = false.
Proof.
  induction n as [|n IH]; intros top l l' w w' ok Hn H.
  - destruct top; [|cbn in Hn; lia]. cbn in H. discriminate.
  - destruct top as [|c rest]; cbn [scan] in H; [discriminate|].
    destruct (Ascii.eqb c NUL); [discriminate|].
    destruct (step PROP_MAX W callback c (peek rest) l w) as [r|] eqn:E;
      [|discriminate].
    cbn in Hn. destruct r as [l1 w1 skip|ok1 l1 w1].
    + destruct skip.
      * destruct rest as [|c' rest']; [discriminate|].
        eapply IH; [|exact H]. cbn in Hn |- *. lia.
      * eapply IH; [|exact H]. lia.
    + inversion H; subst. eapply step_returns_false; exact E.
Qed.

Lemma scan_returns_false (top : string) (l l' : locals) (w w' : W) (ok : bool) :
  scan PROP_MAX W callback top l w = Ok (Returned ok l' w') -> ok = false.
Proof. apply (scan_returns_false_upto (String.length top)). lia. Qed.

(** A relation between the state before and the state after, which every
    call of the callback respects. *)
Variable R : W -> W -> Prop.
Hypothesis R_refl : forall w, R w w.
Hypothesis R_trans : forall a b c, R a b -> R b c -> R a c.
Hypothesis callback_R :
  forall name props pn pv ln w ok w',
    callback name props pn pv ln w = Ok (ok, w') -> R w w'.

Lemma step_rel (c next : ascii) (l : locals) (w : W) (r : control W) :
  step PROP_MAX W callback c next l w = Ok r -> R w (control_world r).
Proof.
  unfold step, case_INIT, case_TAGNAME, case_PROPNAME, case_PROPVALUE_QUOTE,
    case_PROPVALUE_BODY, fail.
  intros H. destruct (st l); invert_ok; cbn [control_world]; eauto.
Qed.

Lemma scan_rel_upto (n : nat) :
  forall (top : string) (l : locals) (w : W) (e : loop_exit W),
    (String.length top <= n)%nat ->
    scan PROP_MAX W callback top l w = Ok e -> R w (exit_world e).
Proof.
  induction n as [|n IH]; intros top l w e Hn H.
  - destruct top; [|cbn in Hn; lia]. cbn in H. invert_ok. apply R_refl.
  - destruct top as [|c rest]; cbn [scan] in H.
    + invert_ok. apply R_refl.
    + destruct (Ascii.eqb c NUL); [invert_ok; apply R_refl|].
      destruct (step PROP_MAX W callback c (peek rest) l w) as [r|] eqn:E;
        [|discriminate].
      apply step_rel in E. cbn in Hn.
      destruct r as [l' w' skip|ok l' w']; cbn [control_world] in E.
      * destruct skip.
        -- destruct rest as [|c' rest']; [discriminate|].
           apply IH in H; [eauto | cbn in Hn |- *; lia].
        -- apply IH in H; [eauto | lia].
      * invert_ok. exact E.
Qed.

Lemma scan_rel (top : string) (l : locals) (w : W) (e : loop_exit W) :
  scan PROP_MAX W callback top l w = Ok e -> R w (exit_world e).
Proof. apply (scan_rel_upto (String.length top)). lia. Qed.

End ScanRelation.

(** ** What the record builder and the loader leave alone *)

Lemma extends_refl (g : tagsys) : extends g g.
Proof. unfold extends. repeat split; auto; lia. Qed.

Lemma extends_trans (a b c : tagsys) : extends a b -> extends b c -> extends a c.
Proof.
  unfold extends. intros (H1 & H2 & H3 & H4) (K1 & K2 & K3 & K4).
  repeat split; try congruence; try lia.
  intros i Hi. rewrite K4 by lia. now apply H4.
Qed.

Lemma tag_at_update_tag_other (i j : Z) (f : Tag.t -> Tag.t) (g : tagsys) :
  0 <= i -> 0 <= j -> i <> j -> tag_at j (update_tag i f g) = tag_at j g.
Proof.
  intros Hi Hj H. unfold tag_at, update_tag. cbn. now apply aget_aset_other.
Qed.

Lemma tag_at_update_tag_same (i : Z) (f : Tag.t -> Tag.t) (g : tagsys) :
  tag_at i (update_tag i f g) = f (tag_at i g).
Proof. unfold tag_at, update_tag. cbn. apply aget_aset_same. Qed.

Lemma same_but_refl (slot : Z) (g : tagsys) : same_but slot g g.
Proof. unfold same_but. auto. Qed.

Lemma same_but_trans (slot : Z) (a b c : tagsys) :
  same_but slot a b -> same_but slot b c -> same_but slot a c.
Proof.
  unfold same_but. intros (H1 & H2 & H3 & H4) (K1 & K2 & K3 & K4).
  repeat split; try congruence. intros i Hi Hs. rewrite K4 by auto. auto.
Qed.

Lemma same_but_update_tag (slot : Z) (f : Tag.t -> Tag.t) (g : tagsys) :
  0 <= slot -> same_but slot g (update_tag slot f g).
Proof.
  intros H. unfold same_but. repeat split; auto.
  intros i Hi Hs. apply tag_at_update_tag_other; auto.
Qed.

Lemma same_but_strdup (slot : Z) (s : string) (g : tagsys) :
  same_but slot g (snd (strdup s g)).
Proof.
  unfold strdup. destruct (heap g) as [|[|] h]; cbn; unfold same_but; cbn; auto.
Qed.

Lemma same_but_log_error (slot : Z) (e : log_entry) (g : tagsys) :
  same_but slot g (log_error e g).
Proof. unfold same_but. auto. Qed.

Section RecordBuilder.

Variable PROP_MAX : Z.

Lemma copy_props_same_but (n : nat) :
  forall i slot pn pv g ok g',
    0 <= slot ->
    copy_props PROP_MAX n i slot pn pv g = Ok (ok, g') -> same_but slot g g'.
Proof.
  induction n as [|n IH]; intros i slot pn pv g ok g' Hs H; cbn [copy_props] in H.
  - inversion H; subst. apply same_but_refl.
  - destruct (in_bounds i PROP_MAX); [|discriminate].
    apply bind_ok in H as (name & _ & H).
    pose proof (same_but_strdup slot name g) as S1.
    destruct (strdup name g) as [p g1]; cbn [snd] in S1.
    pose proof (same_but_update_tag slot
      (fun r => Tag.set_prop_name (aset Null i p (Tag.prop_name r)) r) g1 Hs) as S2.
    set (g2 := update_tag slot _ g1) in *.
    assert (S12 : same_but slot g g2) by (eapply same_but_trans; eauto).
    destruct p;
      [ inversion H; subst;
        eapply same_but_trans; [exact S12 | apply same_but_log_error] | | ].
    all: apply bind_ok in H as (value & _ & H);
      pose proof (same_but_strdup slot value g2) as S3;
      destruct (strdup value g2) as [q g3]; cbn [snd] in S3;
      pose proof (same_but_update_tag slot
        (fun r => Tag.set_prop_value (aset Null i q (Tag.prop_value r)) r) g3 Hs) as S4;
      set (g4 := update_tag slot _ g3) in *;
      assert (S14 : same_but slot g g4)
        by (eapply same_but_trans; [exact S12|eapply same_but_trans; eauto]);
      destruct q;
      [ inversion H; subst;
        eapply same_but_trans; [exact S14 | apply same_but_log_error]
      | eapply same_but_trans; [exact S14 | eapply IH; eauto]
      | eapply same_but_trans; [exact S14 | eapply IH; eauto] ].
Qed.

(** The record builder writes one record, the one at [tag_size], and
    nothing below it. *)
Lemma parse_tag_callback_extends name props pn pv ln g ok g' :
  parse_tag_callback PROP_MAX name props pn pv ln g = Ok (ok, g') ->
  extends g g'.
Proof.
  intros H. unfold parse_tag_callback in H.
  destruct (COMMAND_MAX <=? tag_size g).
  { inversion H; subst. unfold extends. cbn. repeat split; auto; lia. }
  destruct (in_bounds (tag_size g) COMMAND_MAX) eqn:Hb; [|discriminate].
  assert (Hpos : 0 <= tag_size g) by (apply in_bounds_iff in Hb; lia).
  set (slot := tag_size g) in *.
  set (g1 := update_tag slot (Tag.set_prop_count props) (set_tag_size (slot + 1) g)) in *.
  assert (S1 : same_but slot (set_tag_size (slot + 1) g) g1)
    by (apply same_but_update_tag; exact Hpos).
  pose proof (same_but_strdup slot name g1) as S2.
  destruct (strdup name g1) as [p g2]; cbn [snd] in S2.
  pose proof (same_but_update_tag slot (Tag.set_tag_name p) g2 Hpos) as S3.
  set (g3 := update_tag slot (Tag.set_tag_name p) g2) in *.
  assert (S : same_but slot (set_tag_size (slot + 1) g) g3)
    by (eapply same_but_trans; [exact S1|eapply same_but_trans; eauto]).
  assert (Hfin : forall g4, same_but slot g3 g4 -> extends g g4).
  { intros g4 S4.
    destruct (same_but_trans _ _ _ _ S S4) as (K1 & K2 & K3 & K4).
    cbn in K1, K2, K3. unfold extends. repeat split; auto; try lia.
    intros i Hi. rewrite K4 by (fold slot in Hi; lia). reflexivity. }
  destruct p; [inversion H; subst; apply Hfin; apply same_but_log_error | |].
  all: apply bind_ok in H as ([ok0 g4] & E4 & E);
    (apply copy_props_same_but in E4; [|exact Hpos]);
    destruct ok0; inversion E; subst; apply Hfin; auto;
    eapply same_but_trans; [exact E4 | apply same_but_update_tag; exact Hpos].
Qed.

End RecordBuilder.

Section Loader.

Variable PROP_MAX : Z.
Variable load_file : string -> option string.

Lemma scan_extends (top : string) (l : locals) (g : tagsys) (e : loop_exit tagsys) :
  scan PROP_MAX tagsys (parse_tag_callback PROP_MAX) top l g = Ok e ->
  extends g (exit_world e).
Proof.
  apply scan_rel.
  - apply extends_refl.
  - apply extends_trans.
  - intros name props pn pv ln w ok w'. apply parse_tag_callback_extends.
Qed.

Lemma parse_tag_document_extends (doc : string) (g g' : tagsys) ok msg ln :
  parse_tag_document PROP_MAX tagsys (parse_tag_callback PROP_MAX) doc g
    = Ok (ok, msg, ln, g') ->
  extends g g'.
Proof.
  unfold parse_tag_document. intros H.
  apply bind_ok in H as (e & He & H). apply scan_extends in He.
  destruct e as [l w|b l w]; cbn [exit_world] in He.
  - destruct (state_eqb (st l) ST_INIT); inversion H; subst; exact He.
  - inversion H; subst; exact He.
Qed.

Lemma cleanup_record_fields (i : Z) (g g' : tagsys) :
  cleanup_record PROP_MAX i g = Ok g' ->
  cur_index g' = cur_index g /\ cur_file g' = cur_file g /\ tag_size g' = tag_size g.
Proof.
  unfold cleanup_record. intros H.
  destruct (in_bounds i COMMAND_MAX); [|discriminate].
  apply bind_ok in H as (p & _ & H). apply bind_ok in H as (r & _ & H).
  inversion H; subst. cbn. auto.
Qed.

(** [cleanup_tag] resets the cursor and the file name; it leaves
    [tag_size] as it was. *)
Lemma cleanup_tag_fields (g g' : tagsys) :
  cleanup_tag PROP_MAX g = Ok g' ->
  cur_index g' = 0 /\ cur_file g' = EmptyString /\ tag_size g' = tag_size g.
Proof.
  unfold cleanup_tag. intros H.
  eapply (for_loop_invariant
            (fun a => cur_index a = 0 /\ cur_file a = EmptyString /\
                      tag_size a = tag_size g)) in H; eauto.
  intros i a a' (H1 & H2 & H3) Hb.
  apply cleanup_record_fields in Hb as (K1 & K2 & K3). repeat split; congruence.
Qed.

(** The call with a name in storage of the caller: the three reads of
    [file] give the same string. *)
Lemma load_tag_file_outside (file : string) (g : tagsys) :
  load_tag_file PROP_MAX load_file (Outside file) g =
  match load_file file with
  | None => Ok (false, g)
  | Some buf =>
      g <- cleanup_tag PROP_MAX g;;
      r <- parse_tag_document PROP_MAX tagsys (parse_tag_callback PROP_MAX) buf
             (set_cur_file (take 1023 file) g);;
      let '(ok, error_message, error_line, g) := r in
      if negb ok then Ok (false, log_error (Diagnostic file error_line error_message) g)
      else Ok (true, g)
  end.
Proof. reflexivity. Qed.

Lemma load_tag_file_read_failed (file : string) (g : tagsys) :
  load_file file = None ->
  load_tag_file PROP_MAX load_file file g = Ok (false, g).
Proof. intros H. rewrite load_tag_file_outside. now rewrite H. Qed.

Lemma load_tag_file_read_ok (file buf : string) (g g' : tagsys) (ok : bool) :
  load_file file = Some buf ->
  load_tag_file PROP_MAX load_file file g = Ok (ok, g') ->
  exists g0, cleanup_tag PROP_MAX g = Ok g0 /\
             cur_index g' = 0 /\ tag_size g0 <= tag_size g' /\
             forall i, 0 <= i < tag_size g0 -> tag_at i g' = tag_at i g0.
Proof.
  intros Hf H. rewrite load_tag_file_outside in H. rewrite Hf in H.
  apply bind_ok in H as (g0 & Hc & H). exists g0. split; [exact Hc|].
  apply cleanup_tag_fields in Hc as (C1 & C2 & C3).
  apply bind_ok in H as ([[[b msg] ln] g1] & Hp & H).
  apply parse_tag_document_extends in Hp as (P1 & P2 & P3 & P4).
  cbn in P1, P3, P4.
  destruct b; cbn in H; inversion H; subst; cbn; repeat split; try lia;
    try congruence; intros i Hi; apply P4; cbn; lia.
Qed.

(** X25.  No call of [load_tag_file] makes the store shorter: the number
    of records after the call is at least the number before it, whether
    the call returns true or false. *)
Lemma load_tag_file_never_shrinks (file : string) (g g' : tagsys) (ok : bool) :
  load_tag_file PROP_MAX load_file file g = Ok (ok, g') ->
  tag_size g <= tag_size g'.
Proof.
  intros H. destruct (load_file file) as [buf|] eqn:Hf.
  - destruct (load_tag_file_read_ok _ _ _ _ _ Hf H) as (g0 & Hc & _ & K & _).
    apply cleanup_tag_fields in Hc as (_ & _ & C). lia.
  - rewrite (load_tag_file_read_failed file g Hf) in H. inversion H. lia.
Qed.

End Loader.

(** ** The tokenizer *)

Ltac eval_char_tests :=
  repeat match goal with
  | |- context [is_prop_name_char ?c] =>
      let v := eval vm_compute in (is_prop_name_char c) in
      change (is_prop_name_char c) with v
  end.

Ltac use_facts :=
  repeat match goal with
  | H : (?a =? ?b) = _ |- context [?a =? ?b] => rewrite H
  | H : in_bounds ?a ?b = _ |- context [in_bounds ?a ?b] => rewrite H
  end.

(** One turn of the loop on a document whose first character is known. *)
Ltac one_step :=
  rewrite scan_cons by reflexivity;
  unfold step; cbn [st];
  unfold case_INIT, case_TAGNAME, case_PROPNAME, case_PROPVALUE_QUOTE,
    case_PROPVALUE_BODY, put_value;
  repeat progress
    (cbn [st len prop_count line tag_name prop_name prop_val error_msg error_line
          set_st set_len set_prop_count set_prop_name set_prop_val set_line
          set_tag_name peek];
     use_facts; eval_char_tests;
     cbn -[aget aset take scan]).

Section TokenizerFacts.

Variable PROP_MAX : Z.
Variable W : Type.
Variable callback :
  string -> Z -> option (list string) -> option (list string) -> Z -> W ->
  result (bool * W).

(** *** Where a newline is counted and where it is not *)

Lemma newline_counted_in_init (next : ascii) (l : locals) (w : W) :
  st l = ST_INIT -> line l < INT_MAX ->
  step PROP_MAX W callback LF next l w = Ok (Continue (set_line (line l + 1) l) w false).
Proof.
  intros Hst Hl. unfold step. rewrite Hst. unfold case_INIT, next_line.
  rewrite int_incr_ok by exact Hl. reflexivity.
Qed.

Lemma newline_counted_before_quote (next : ascii) (l : locals) (w : W) :
  st l = ST_PROPVALUE_QUOTE -> line l < INT_MAX ->
  step PROP_MAX W callback LF next l w = Ok (Continue (set_line (line l + 1) l) w false).
Proof.
  intros Hst Hl. unfold step. rewrite Hst. unfold case_PROPVALUE_QUOTE, next_line.
  rewrite int_incr_ok by exact Hl. reflexivity.
Qed.

Lemma newline_counted_before_prop_name (next : ascii) (l : locals) (w : W) :
  st l = ST_PROPNAME -> len l = 0 -> prop_count l <> PROP_MAX -> line l < INT_MAX ->
  step PROP_MAX W callback LF next l w = Ok (Continue (set_line (line l + 1) l) w false).
Proof.
  intros Hst Hlen Hpc Hl. apply Z.eqb_neq in Hpc.
  destruct l as [s ln le pc tn pn pv em el]. cbn in Hst, Hlen, Hpc, Hl. subst s le.
  unfold step, case_PROPNAME, next_line. cbn [st prop_count len line].
  rewrite Hpc, int_incr_ok by exact Hl. reflexivity.
Qed.

(** The newline that precedes the first character of a tag name is
    skipped before the counter is reached. *)
Lemma newline_skipped_before_tag_name (next : ascii) (l : locals) (w : W) :
  st l = ST_TAGNAME -> len l = 0 ->
  step PROP_MAX W callback LF next l w = Ok (Continue l w false).
Proof.
  intros Hst Hlen. unfold step. rewrite Hst. unfold case_TAGNAME.
  rewrite Hlen. reflexivity.
Qed.

(** A newline inside a value is stored like any other character. *)
Lemma newline_stored_in_value (next : ascii) (l : locals) (w : W) :
  st l = ST_PROPVALUE_BODY ->
  0 <= prop_count l < PROP_MAX -> 0 <= len l < PROP_VALUE_MAX ->
  step PROP_MAX W callback LF next l w = Ok (Continue (value_extended LF l) w false) /\
  line (value_extended LF l) = line l.
Proof.
  intros Hst Hpc Hlen. split; [|reflexivity].
  unfold step. rewrite Hst. unfold case_PROPVALUE_BODY, put_value, poke.
  apply in_bounds_iff in Hpc. rewrite Hpc.
  replace (PROP_VALUE_MAX <=? len l) with false by (symmetry; apply Z.leb_gt; lia).
  apply in_bounds_iff in Hlen. rewrite Hlen. reflexivity.
Qed.

(** C2 (the code does not do this).  The line counter misses the newline
    that follows the opening bracket: the document made of an opening
    bracket, a newline, two spaces, [a=], a quoted [1] and the closing
    bracket invokes the callback once, with line 1 (and with the text
    after the spaces as the tag name and no property), whatever the
    callback is; the record builder stores that tag with line 1. *)
Theorem newline_after_bracket_reports_line_1 (w : W) :
  parse_tag_document PROP_MAX W callback newline_after_bracket w =
    (r <- callback ("a=" ++ Q ++ "1" ++ Q) 0 None None 1 w;;
     Ok (fst r,
         (if fst r then None else Some "Too many properties."),
         (if fst r then None else Some 1),
         snd r)) /\
  parse_tag_document PROP_MAX tagsys (parse_tag_callback PROP_MAX)
                     newline_after_bracket (boot []) =
    Ok (true, None, None,
        mkSys EmptyString 0 [Tag.mk (Live ("a=" ++ Q ++ "1" ++ Q)) 0 [] [] 1] 1 [] []).
Proof.
  split.
  - vm_compute. destruct (callback _ _ _ _ _ w) as [[[|] w']|]; reflexivity.
  - vm_compute. reflexivity.
Qed.

(** *** Escapes *)

Lemma step_escape (next : ascii) (l : locals) (w : W) :
  st l = ST_PROPVALUE_BODY ->
  0 <= prop_count l < PROP_MAX -> 0 <= len l < PROP_VALUE_MAX ->
  step PROP_MAX W callback BACKSLASH next l w =
  if Ascii.eqb next DQUOTE then Ok (Continue (value_extended DQUOTE l) w true)
  else if Ascii.eqb next LOWER_N then Ok (Continue (value_extended LF l) w true)
  else if Ascii.eqb next BACKSLASH then Ok (Continue (value_extended BACKSLASH l) w true)
  else Ok (Continue (value_extended BACKSLASH l) w false).
Proof.
  intros Hst Hpc Hlen.
  apply in_bounds_iff in Hpc. apply in_bounds_iff in Hlen.
  unfold step. rewrite Hst. unfold case_PROPVALUE_BODY, put_value, poke.
  change (Ascii.eqb BACKSLASH BACKSLASH) with true. cbv iota.
  rewrite Hpc, Hlen.
  destruct (Ascii.eqb next DQUOTE); [reflexivity|].
  destruct (Ascii.eqb next LOWER_N); [reflexivity|].
  destruct (Ascii.eqb next BACKSLASH); reflexivity.
Qed.

Lemma step_plain (c next : ascii) (l : locals) (w : W) :
  st l = ST_PROPVALUE_BODY ->
  0 <= prop_count l < PROP_MAX -> 0 <= len l < PROP_VALUE_MAX ->
  Ascii.eqb c BACKSLASH = false -> Ascii.eqb c DQUOTE = false ->
  step PROP_MAX W callback c next l w = Ok (Continue (value_extended c l) w false).
Proof.
  intros Hst Hpc Hlen Hb Hq.
  unfold step. rewrite Hst. unfold case_PROPVALUE_BODY, put_value, poke.
  rewrite Hb, Hq.
  replace (PROP_VALUE_MAX <=? len l) with false by (symmetry; apply Z.leb_gt; lia).
  apply in_bounds_iff in Hpc. apply in_bounds_iff in Hlen.
  rewrite Hpc, Hlen. reflexivity.
Qed.

(** C3.  In state [ST_PROPVALUE_BODY], with room left in the value buffer,
    a backslash followed by a quote stores a quote, followed by [n] a
    newline, followed by a backslash a backslash, and each of the three
    consumes both characters; a backslash followed by any other character
    [x] stores the backslash and consumes only the backslash, so that the
    scan goes on at [x].  The value written [a], escaped quote, [b],
    escaped [n], [c], escaped backslash, [d] is read as [a], quote, [b],
    newline, [c], backslash, [d]; the value written [a\xb] is read as the
    four characters [a], backslash, [x], [b]. *)
Theorem escape_decoding (l : locals) (w : W) (x : ascii) (rest : string) :
  st l = ST_PROPVALUE_BODY ->
  0 <= prop_count l < PROP_MAX ->
  0 <= len l < PROP_VALUE_MAX ->
  x <> DQUOTE -> x <> LOWER_N -> x <> BACKSLASH ->
  step PROP_MAX W callback BACKSLASH DQUOTE l w
    = Ok (Continue (value_extended DQUOTE l) w true) /\
  step PROP_MAX W callback BACKSLASH LOWER_N l w
    = Ok (Continue (value_extended LF l) w true) /\
  step PROP_MAX W callback BACKSLASH BACKSLASH l w
    = Ok (Continue (value_extended BACKSLASH l) w true) /\
  step PROP_MAX W callback BACKSLASH x l w
    = Ok (Continue (value_extended BACKSLASH l) w false) /\
  (x <> NUL ->
   scan PROP_MAX W callback (String BACKSLASH (String x rest)) l w
     = scan PROP_MAX W callback (String x rest) (value_extended BACKSLASH l) w) /\
  scan PROP_MAX W callback (value_in_tag escaped_source) initial_locals w
    = Ok (AtEnd (value_read escaped_decoded) w) /\
  scan PROP_MAX W callback (value_in_tag unsupported_source) initial_locals w
    = Ok (AtEnd (value_read unsupported_decoded) w).
Proof.
  intros Hst Hpc Hlen Hq Hn Hb.
  assert (Hpos : 1 <= PROP_MAX) by lia.
  apply Ascii.eqb_neq in Hq, Hn, Hb.
  assert (Sx : step PROP_MAX W callback BACKSLASH x l w
               = Ok (Continue (value_extended BACKSLASH l) w false)).
  { rewrite step_escape by assumption. rewrite Hq, Hn, Hb. reflexivity. }
  split; [|split; [|split; [|split; [|split; [|split]]]]].
  - rewrite step_escape by assumption. reflexivity.
  - rewrite step_escape by assumption. reflexivity.
  - rewrite step_escape by assumption. reflexivity.
  - exact Sx.
  - intros H0. rewrite scan_cons by reflexivity. cbn [peek]. rewrite Sx. reflexivity.
  - clear - Hpos. destruct PROP_MAX as [|p|p]; try lia. vm_compute. reflexivity.
  - clear - Hpos. destruct PROP_MAX as [|p|p]; try lia. vm_compute. reflexivity.
Qed.

(** *** The decoding of a whole value *)

Lemma decode_samples :
  decode escaped_source = escaped_decoded /\
  decode unsupported_source = unsupported_decoded /\
  value_text escaped_source = true /\ value_text unsupported_source = true.
Proof. repeat split. Qed.

Lemma value_extended_fields (c : ascii) (l : locals) :
  st (value_extended c l) = st l /\
  prop_count (value_extended c l) = prop_count l /\
  len (value_extended c l) = len l + 1 /\
  line (value_extended c l) = line l /\
  value_row (value_extended c l) = (value_so_far l ++ String c EmptyString)%string.
Proof.
  unfold value_so_far, value_row, value_extended. cbn -[aget aset take].
  rewrite aget_aset_same. auto.
Qed.

Lemma value_extended_filled (c : ascii) (l : locals) :
  0 <= len l -> row_filled l ->
  row_filled (value_extended c l) /\
  value_so_far (value_extended c l) = (value_so_far l ++ String c EmptyString)%string.
Proof.
  unfold row_filled. intros Hlen Hrow.
  destruct (value_extended_fields c l) as (_ & _ & El & _ & Er).
  unfold value_so_far at 1. rewrite El, Er. unfold value_so_far, take.
  assert (L : String.length (substring 0 (Z.to_nat (len l)) (value_row l)
                             ++ String c EmptyString) = Z.to_nat (len l + 1)).
  { rewrite string_length_app, substring_length by exact Hrow. cbn. lia. }
  split; [lia|]. rewrite <- L. apply substring_whole.
Qed.

(** What [stored] leaves in the buffer. *)
Lemma stored_fields (s : string) :
  forall l, 0 <= len l -> row_filled l ->
    st (stored s l) = st l /\
    prop_count (stored s l) = prop_count l /\
    line (stored s l) = line l /\
    len (stored s l) = len l + Z.of_nat (String.length s) /\
    row_filled (stored s l) /\
    value_so_far (stored s l) = (value_so_far l ++ s)%string.
Proof.
  induction s as [|c s IH]; intros l Hlen Hrow; cbn [stored String.length].
  - repeat split; try lia; auto. now rewrite string_app_nil_r.
  - destruct (value_extended_fields c l) as (E1 & E2 & E3 & E4 & _).
    destruct (value_extended_filled c l Hlen Hrow) as (F1 & F2).
    destruct (IH (value_extended c l)) as (I1 & I2 & I3 & I4 & I5 & I6);
      [lia | exact F1 |].
    rewrite I1, I2, I3, I4, I6, E1, E2, E3, E4, F2, string_app_assoc.
    repeat split; auto. lia.
Qed.

Lemma scan_value_upto (n : nat) :
  forall (src tail : string) (l : locals) (w : W),
    (String.length src <= n)%nat ->
    value_text src = true ->
    st l = ST_PROPVALUE_BODY ->
    0 <= prop_count l < PROP_MAX -> 0 <= len l -> row_filled l ->
    len l + Z.of_nat (String.length (decode src)) <= PROP_VALUE_MAX ->
    scan PROP_MAX W callback (src ++ tail) l w
    = scan PROP_MAX W callback tail (stored (decode src) l) w.
Proof.
  induction n as [|n IH]; intros src tail l w Hn Hv Hst Hpc Hlen Hrow Hfit.
  - destruct src; [reflexivity | cbn in Hn; lia].
  - destruct src as [|c rest]; [reflexivity|].
    cbn [value_text] in Hv. cbn [String.length] in Hn.
    destruct (Ascii.eqb c NUL) eqn:E0; [discriminate|].
    destruct (Ascii.eqb c DQUOTE) eqn:Eq; [discriminate|].
    cbn [append]. rewrite scan_cons by exact E0.
    assert (Hnext : forall x, st (value_extended x l) = ST_PROPVALUE_BODY /\
                              0 <= prop_count (value_extended x l) < PROP_MAX /\
                              0 <= len (value_extended x l) /\
                              row_filled (value_extended x l) /\
                              len (value_extended x l) = len l + 1).
    { intros x. destruct (value_extended_fields x l) as (E1 & E2 & E3 & _).
      destruct (value_extended_filled x l Hlen Hrow) as (F1 & _).
      rewrite E1, E2, E3. repeat split; auto; lia. }
    destruct (Ascii.eqb c BACKSLASH) eqn:Eb.
    + apply Ascii.eqb_eq in Eb. subst c.
      destruct rest as [|d rest']; [discriminate|].
      assert (Eu : decode (String BACKSLASH (String d rest')) =
                   if Ascii.eqb d DQUOTE then String DQUOTE (decode rest')
                   else if Ascii.eqb d LOWER_N then String LF (decode rest')
                   else if Ascii.eqb d BACKSLASH then String BACKSLASH (decode rest')
                   else String BACKSLASH (decode (String d rest'))) by reflexivity.
      rewrite Eu in Hfit |- *. clear Eu. cbn [append peek].
      assert (Hroom : 0 <= len l < PROP_VALUE_MAX).
      { destruct (Ascii.eqb d DQUOTE), (Ascii.eqb d LOWER_N), (Ascii.eqb d BACKSLASH);
          cbn [String.length] in Hfit; lia. }
      rewrite step_escape by assumption.
      cbn [String.length] in Hn.
      destruct (Ascii.eqb d DQUOTE) eqn:Edq;
        [|destruct (Ascii.eqb d LOWER_N) eqn:Edn;
          [|destruct (Ascii.eqb d BACKSLASH) eqn:Edb]];
        cbn [orb] in Hv; cbn [stored String.length] in Hfit |- *.
      * destruct (Hnext DQUOTE) as (N1 & N2 & N3 & N4 & N5).
        apply IH; auto; lia.
      * destruct (Hnext LF) as (N1 & N2 & N3 & N4 & N5).
        apply IH; auto; lia.
      * destruct (Hnext BACKSLASH) as (N1 & N2 & N3 & N4 & N5).
        apply IH; auto; lia.
      * destruct (Hnext BACKSLASH) as (N1 & N2 & N3 & N4 & N5).
        assert (Ed : decode (String d rest') = String d (decode rest')).
        { destruct rest'; cbn [decode]; rewrite Edb; reflexivity. }
        rewrite Ed in Hfit. cbn [String.length] in Hfit.
        change (String d (rest' ++ tail)) with (String d rest' ++ tail)%string.
        rewrite IH; auto; rewrite ?Ed; cbn [String.length]; lia.
    + assert (Eu : decode (String c rest) = String c (decode rest))
        by (cbn [decode]; rewrite Eb; reflexivity).
      rewrite Eu in Hfit |- *. clear Eu.
      cbn [stored String.length] in Hfit |- *.
      rewrite step_plain by (auto; lia).
      destruct (Hnext c) as (N1 & N2 & N3 & N4 & N5).
      apply IH; auto; lia.
Qed.

(** In state [ST_PROPVALUE_BODY] the scanner stores, character after
    character, the decoding of the text it reads. *)
Lemma scan_value (src tail : string) (l : locals) (w : W) :
  value_text src = true ->
  st l = ST_PROPVALUE_BODY ->
  0 <= prop_count l < PROP_MAX -> 0 <= len l -> row_filled l ->
  len l + Z.of_nat (String.length (decode src)) <= PROP_VALUE_MAX ->
  scan PROP_MAX W callback (src ++ tail) l w
  = scan PROP_MAX W callback tail (stored (decode src) l) w.
Proof. apply (scan_value_upto (String.length src)). lia. Qed.

(** X22.  The text of a value followed by its closing quote: the scanner is
    back in [ST_PROPNAME] with one more property, whose value is the
    decoding of the text. *)
Theorem value_is_decoded (src tail : string) (l : locals) (w : W) :
  value_text src = true ->
  st l = ST_PROPVALUE_BODY ->
  0 <= prop_count l < PROP_MAX -> len l = 0 ->
  Z.of_nat (String.length (decode src)) < PROP_VALUE_MAX ->
  exists l',
    scan PROP_MAX W callback (src ++ Q ++ tail) l w
      = scan PROP_MAX W callback tail l' w /\
    st l' = ST_PROPNAME /\ len l' = 0 /\ line l' = line l /\
    prop_count l' = prop_count l + 1 /\
    aget EmptyString (prop_count l) (prop_val l') = decode src.
Proof.
  intros Hv Hst Hpc Hlen Hfit.
  assert (Hrow : row_filled l) by (unfold row_filled; rewrite Hlen; cbn; lia).
  rewrite scan_value by (auto; lia).
  destruct (stored_fields (decode src) l) as (S1 & S2 & S3 & S4 & S5 & S6);
    [lia | exact Hrow |].
  set (l2 := stored (decode src) l) in *.
  unfold Q. cbn [append]. rewrite scan_cons by reflexivity.
  unfold step. rewrite S1, Hst. unfold case_PROPVALUE_BODY, terminate.
  change (Ascii.eqb DQUOTE BACKSLASH) with false.
  change (Ascii.eqb DQUOTE DQUOTE) with true. cbv iota.
  rewrite S2.
  replace (in_bounds (prop_count l) PROP_MAX) with true
    by (symmetry; apply in_bounds_iff; lia).
  replace (in_bounds (len l2) PROP_VALUE_MAX) with true
    by (symmetry; apply in_bounds_iff; lia).
  cbn [bind]. eexists. split; [reflexivity|].
  cbn -[aget aset take]. rewrite aget_aset_same.
  repeat split; auto; [lia|].
  rewrite <- S2. fold (value_row l2). fold (value_so_far l2).
  rewrite S6. unfold value_so_far, take. rewrite Hlen.
  destruct (value_row l); reflexivity.
Qed.

(** *** The length of a value *)

(** A plain character that would not fit is refused. *)
Lemma plain_character_checked (c next : ascii) (l : locals) (w : W) :
  st l = ST_PROPVALUE_BODY -> PROP_VALUE_MAX <= len l ->
  c <> BACKSLASH -> c <> DQUOTE ->
  step PROP_MAX W callback c next l w
    = Ok (Return false (set_error "Property value too long." l) w).
Proof.
  intros Hst Hlen Hb Hq. apply Ascii.eqb_neq in Hb, Hq.
  unfold step. rewrite Hst. unfold case_PROPVALUE_BODY, fail. rewrite Hb, Hq.
  apply Z.leb_le in Hlen. rewrite Hlen. reflexivity.
Qed.

(** An escape is stored without the test: when the buffer is full, the
    store goes past its end. *)
Lemma escape_not_checked (next : ascii) (l : locals) (w : W) :
  st l = ST_PROPVALUE_BODY -> PROP_VALUE_MAX <= len l ->
  step PROP_MAX W callback BACKSLASH next l w = Undef.
Proof.
  intros Hst Hlen. unfold step. rewrite Hst.
  unfold case_PROPVALUE_BODY, put_value, poke.
  change (Ascii.eqb BACKSLASH BACKSLASH) with true. cbv iota.
  replace (in_bounds (len l) PROP_VALUE_MAX) with false
    by (symmetry; unfold in_bounds; apply andb_false_iff; right; apply Z.ltb_ge; lia).
  destruct (in_bounds (prop_count l) PROP_MAX);
    destruct (Ascii.eqb next DQUOTE), (Ascii.eqb next LOWER_N),
      (Ascii.eqb next BACKSLASH); reflexivity.
Qed.

(** C4 (the code does not do this).  A value of 4097 escapes, whose 4097
    characters exceed [PROP_VALUE_MAX], is not refused with the message
    of the capacity error: the escape branch stores without the length
    test, and the last store goes past the end of the buffer.  A value of
    4097 plain characters is refused. *)
Theorem escaped_overflow_not_reported (w : W) :
  1 <= PROP_MAX ->
  parse_tag_document PROP_MAX W callback (escaped_value 4097) w = Undef /\
  parse_tag_document PROP_MAX W callback (plain_value 4097) w
    = Ok (false, Some "Property value too long.", Some 1, w).
Proof.
  intros H. destruct PROP_MAX as [|p|p]; try lia.
  split; vm_compute; reflexivity.
Qed.

(** *** The number of properties *)

(** In state [ST_PROPNAME] the first test is on the number of properties
    read so far, whatever the character is, the closing bracket
    included. *)
Lemma property_count_tested_first (c next : ascii) (l : locals) (w : W) :
  st l = ST_PROPNAME -> prop_count l = PROP_MAX ->
  step PROP_MAX W callback c next l w
    = Ok (Return false (set_error "Too many properties." l) w).
Proof.
  intros Hst Hpc. unfold step. rewrite Hst. unfold case_PROPNAME, fail.
  apply Z.eqb_eq in Hpc. rewrite Hpc. reflexivity.
Qed.

Lemma scan_prop_text (rest : string) (l : locals) (w : W) :
  st l = ST_PROPNAME -> len l = 0 -> 0 <= prop_count l < PROP_MAX ->
  exists l',
    scan PROP_MAX W callback (prop_text ++ rest) l w
      = scan PROP_MAX W callback rest l' w /\
    st l' = ST_PROPNAME /\ len l' = 0 /\ prop_count l' = prop_count l + 1 /\
    line l' = line l.
Proof.
  intros Hst Hlen Hpc.
  destruct l as [s ln le pc tn pn pv em el]. cbn in Hst, Hlen, Hpc. subst s le.
  assert (E1 : (pc =? PROP_MAX) = false) by (apply Z.eqb_neq; lia).
  assert (E2 : in_bounds pc PROP_MAX = true) by (apply in_bounds_iff; lia).
  eexists. split.
  - unfold prop_text, Q. cbn [append]. do 5 one_step. reflexivity.
  - cbn. auto.
Qed.

Lemma scan_one_prop (rest : string) (l : locals) (w : W) :
  st l = ST_PROPNAME -> len l = 0 -> 0 <= prop_count l < PROP_MAX ->
  exists l',
    scan PROP_MAX W callback (one_prop ++ rest) l w
      = scan PROP_MAX W callback rest l' w /\
    st l' = ST_PROPNAME /\ len l' = 0 /\ prop_count l' = prop_count l + 1 /\
    line l' = line l.
Proof.
  intros Hst Hlen Hpc.
  destruct (scan_prop_text rest l w Hst Hlen Hpc) as (l' & E & K).
  exists l'. split; [|exact K]. rewrite <- E.
  unfold one_prop. rewrite string_app_assoc. cbn [append].
  rewrite scan_cons by reflexivity.
  unfold step. rewrite Hst. unfold case_PROPNAME. rewrite Hlen.
  replace (prop_count l =? PROP_MAX) with false by (symmetry; apply Z.eqb_neq; lia).
  reflexivity.
Qed.

Lemma scan_full_props (k : nat) :
  forall (l : locals) (w : W),
    st l = ST_PROPNAME -> len l = 0 -> 0 <= prop_count l ->
    prop_count l + Z.of_nat k = PROP_MAX ->
    exists l',
      scan PROP_MAX W callback (replicate k one_prop ++ "]") l w
        = Ok (Returned false l' w) /\
      error_msg l' = Some "Too many properties." /\ error_line l' = Some (line l).
Proof.
  induction k as [|k IH]; intros l w Hst Hlen Hpc Hk.
  - exists (set_error "Too many properties." l). split; [|cbn; auto].
    cbn [replicate append]. rewrite scan_cons by reflexivity.
    rewrite property_count_tested_first by (auto; lia). reflexivity.
  - cbn [replicate]. rewrite string_app_assoc.
    destruct (scan_one_prop (replicate k one_prop ++ "]") l w Hst Hlen)
      as (l1 & E & S1 & S2 & S3 & S4); [lia|].
    rewrite E. destruct (IH l1 w S1 S2) as (l' & E' & M1 & M2); [lia | lia |].
    exists l'. rewrite <- S4. auto.
Qed.

Lemma scan_open_tag (rest : string) (w : W) :
  scan PROP_MAX W callback ("[t " ++ rest) initial_locals w
  = scan PROP_MAX W callback rest
         (mkLocals ST_PROPNAME 1 0 0 "t" [] [] None None) w.
Proof. cbn [append]. do 3 one_step. reflexivity. Qed.

Lemma full_tag_unfold (k : nat) :
  full_tag (S k) = ("[t " ++ prop_text ++ replicate k one_prop ++ "]")%string.
Proof. reflexivity. Qed.

(** C6 (the code does not do this).  A tag with exactly [PROP_MAX]
    properties and its closing bracket is refused with the message of
    too many properties, on its line, and the callback is never
    invoked: the count is tested when the closing bracket is read,
    before the bracket is looked at. *)
Theorem full_tag_is_rejected (w : W) :
  1 <= PROP_MAX ->
  parse_tag_document PROP_MAX W callback (full_tag (Z.to_nat PROP_MAX)) w
  = Ok (false, Some "Too many properties.", Some 1, w).
Proof.
  intros H. unfold parse_tag_document.
  destruct (Z.to_nat PROP_MAX) as [|k] eqn:En; [lia|].
  rewrite full_tag_unfold, scan_open_tag.
  destruct (scan_prop_text (replicate k one_prop ++ "]")
              (mkLocals ST_PROPNAME 1 0 0 "t" [] [] None None) w)
    as (l1 & E1 & S1 & S2 & S3 & S4); [reflexivity | reflexivity | cbn; lia |].
  rewrite E1.
  destruct (scan_full_props k l1 w S1 S2) as (l' & E' & M1 & M2);
    [cbn in S3; lia | cbn in S3; lia |].
  rewrite E'. cbn [bind]. rewrite M1, M2, S4. reflexivity.
Qed.

(** *** The end of the document *)

(** The tokenizer returns true only from the end of the document, in
    state [ST_INIT]. *)
Lemma success_means_end_in_init (doc : string) (w w' : W) msg ln :
  parse_tag_document PROP_MAX W callback doc w = Ok (true, msg, ln, w') ->
  exists l, scan PROP_MAX W callback doc initial_locals w = Ok (AtEnd l w') /\
            st l = ST_INIT.
Proof.
  unfold parse_tag_document. intros H. apply bind_ok in H as (e & He & H).
  destruct e as [l w0|ok l w0].
  - destruct (st l) eqn:Hst; cbn in H; inversion H; subst.
    exists l. auto.
  - inversion H; subst. apply scan_returns_false in He. discriminate.
Qed.

(** When the loop reaches the end of the document with the locals [l],
    the tokenizer returns true if the state is [ST_INIT]; in every other
    state it returns false with the message of the unexpected end and
    the value the line counter has then.  The document made of an
    opening bracket and [say] fails so on line 1, its last line, and the
    same text after two newlines fails on line 3. *)
Theorem end_of_input_rule (doc : string) (w w' : W) (l : locals) :
  scan PROP_MAX W callback doc initial_locals w = Ok (AtEnd l w') ->
  parse_tag_document PROP_MAX W callback doc w
    = match st l with
      | ST_INIT => Ok (true, error_msg l, error_line l, w')
      | _ => Ok (false, Some "Unexpected EOF", Some (line l), w')
      end /\
  parse_tag_document PROP_MAX W callback unterminated w
    = Ok (false, Some "Unexpected EOF", Some 1, w) /\
  parse_tag_document PROP_MAX W callback unterminated_on_line_3 w
    = Ok (false, Some "Unexpected EOF", Some 3, w).
Proof.
  intros H. unfold parse_tag_document at 1. rewrite H. cbn [bind].
  split; [|split].
  - destruct (st l); reflexivity.
  - vm_compute. reflexivity.
  - vm_compute. reflexivity.
Qed.

(** C9 (the code does not do this).  The line reported with the
    unexpected end is the value of the line counter, and this is not
    always the last line of the document.  The text made of an opening
    bracket, a newline and [say] has one newline, so it ends on line 2;
    it is refused with the message of the unexpected end, as the rule
    says, but on line 1, because the newline between the bracket and
    the name did not advance the counter.  For the same tag without
    that newline the line reported, 1, is the last one. *)
Theorem unexpected_eof_not_on_final_line (w : W) :
  1 + newlines unterminated_on_line_2 = 2 /\
  parse_tag_document PROP_MAX W callback unterminated_on_line_2 w
    = Ok (false, Some "Unexpected EOF", Some 1, w) /\
  1 + newlines unterminated = 1 /\
  parse_tag_document PROP_MAX W callback unterminated w
    = Ok (false, Some "Unexpected EOF", Some 1, w).
Proof.
  split; [reflexivity|]. split; [vm_compute; reflexivity|].
  split; [reflexivity|]. vm_compute; reflexivity.
Qed.

End TokenizerFacts.

Lemma escape_decoding_witness :
  step 1 unit accept_all BACKSLASH DQUOTE in_value tt
    = Ok (Continue (value_extended DQUOTE in_value) tt true) /\
  step 1 unit accept_all BACKSLASH LOWER_N in_value tt
    = Ok (Continue (value_extended LF in_value) tt true) /\
  step 1 unit accept_all BACKSLASH BACKSLASH in_value tt
    = Ok (Continue (value_extended BACKSLASH in_value) tt true) /\
  step 1 unit accept_all BACKSLASH "x" in_value tt
    = Ok (Continue (value_extended BACKSLASH in_value) tt false) /\
  scan 1 unit accept_all (String BACKSLASH (String "x" "b")) in_value tt
    = scan 1 unit accept_all (String "x" "b") (value_extended BACKSLASH in_value) tt /\
  scan 1 unit accept_all (value_in_tag escaped_source) initial_locals tt
    = Ok (AtEnd (value_read escaped_decoded) tt) /\
  scan 1 unit accept_all (value_in_tag unsupported_source) initial_locals tt
    = Ok (AtEnd (value_read unsupported_decoded) tt).
Proof.
  destruct (escape_decoding 1 unit accept_all in_value tt "x" "b")
    as (E1 & E2 & E3 & E4 & E5 & E6 & E7).
  - reflexivity.
  - simpl; lia.
  - unfold PROP_VALUE_MAX; simpl; lia.
  - discriminate.
  - discriminate.
  - discriminate.
  - split; [exact E1|]. split; [exact E2|]. split; [exact E3|]. split; [exact E4|].
    split; [apply E5; discriminate|]. split; [exact E6 | exact E7].
Defined.

Lemma escaped_overflow_not_reported_witness :
  1 <= 1 /\
  parse_tag_document 1 unit accept_all (escaped_value 4097) tt = Undef /\
  parse_tag_document 1 unit accept_all (plain_value 4097) tt
    = Ok (false, Some "Property value too long.", Some 1, tt).
Proof.
  split; [lia | apply (escaped_overflow_not_reported 1 unit accept_all tt); lia].
Defined.

Lemma full_tag_is_rejected_witness :
  1 <= 2 /\
  parse_tag_document 2 unit accept_all (full_tag (Z.to_nat 2)) tt
    = Ok (false, Some "Too many properties.", Some 1, tt).
Proof.
  split; [lia | apply (full_tag_is_rejected 2 unit accept_all tt); lia].
Defined.

Lemma end_of_input_rule_witness :
  scan 1 unit accept_all "[a]" initial_locals tt
    = Ok (AtEnd (mkLocals ST_INIT 1 1 0 "a" [] [] None None) tt) /\
  parse_tag_document 1 unit accept_all "[a]" tt = Ok (true, None, None, tt) /\
  parse_tag_document 1 unit accept_all unterminated tt
    = Ok (false, Some "Unexpected EOF", Some 1, tt) /\
  parse_tag_document 1 unit accept_all unterminated_on_line_3 tt
    = Ok (false, Some "Unexpected EOF", Some 3, tt).
Proof.
  split; [vm_compute; reflexivity|].
  apply (end_of_input_rule 1 unit accept_all "[a]" tt tt
           (mkLocals ST_INIT 1 1 0 "a" [] [] None None)).
  vm_compute; reflexivity.
Defined.

(** ** The first load of a process *)

Lemma set_nth_at_end {A : Type} (d v : A) (l : list A) :
  set_nth d (length l) v l = (l ++ [v])%list.
Proof. induction l as [|x l IH]; cbn; [reflexivity | now rewrite IH]. Qed.

Lemma set_nth_last {A : Type} (d v x : A) (l : list A) :
  set_nth d (length l) v (l ++ [x]) = (l ++ [v])%list.
Proof. induction l as [|y l IH]; cbn; [reflexivity | now rewrite IH]. Qed.

Lemma nth_at_end {A : Type} (d : A) (l : list A) : nth (length l) l d = d.
Proof. induction l as [|y l IH]; cbn; auto. Qed.

Lemma nth_last {A : Type} (d x : A) (l : list A) : nth (length l) (l ++ [x]) d = x.
Proof. induction l as [|y l IH]; cbn; auto. Qed.

(** A store into the first untouched cell of the table, and into the
    last cell in use. *)
Lemma update_tag_new (slot : Z) (f : Tag.t -> Tag.t) (g : tagsys) :
  slot = Z.of_nat (length (tag g)) ->
  update_tag slot f g = set_tag (tag g ++ [f Tag.zero])%list g.
Proof.
  intros ->. unfold update_tag, tag_at, aget, aset. rewrite Nat2Z.id.
  now rewrite nth_at_end, set_nth_at_end.
Qed.

Lemma update_tag_last (slot : Z) (f : Tag.t -> Tag.t) (g : tagsys)
      (base : list Tag.t) (r : Tag.t) :
  tag g = (base ++ [r])%list -> slot = Z.of_nat (length base) ->
  update_tag slot f g = set_tag (base ++ [f r])%list g.
Proof.
  intros E ->. unfold update_tag, tag_at, aget, aset. rewrite Nat2Z.id, E.
  now rewrite nth_last, set_nth_last.
Qed.

Lemma strdup_never_fails (s : string) (g : tagsys) :
  heap g = [] -> strdup s g = (Live s, g).
Proof. intros H. unfold strdup. now rewrite H. Qed.

Lemma rows_succ (p : list string) (from : Z) (n : nat) :
  rows (Some p) from (S n) = aget EmptyString from p :: rows (Some p) (from + 1) n.
Proof.
  unfold rows. cbn [seq map]. rewrite Z.add_0_r. f_equal.
  rewrite <- seq_shift, map_map. apply map_ext. intros k. f_equal. lia.
Qed.

(** Two callbacks that stay related for as long as the first one accepts
    drive the tokenizer through the same turns. *)
Section Simulation.

Variable PROP_MAX : Z.
Variables W1 W2 : Type.
Variable cb1 :
  string -> Z -> option (list string) -> option (list string) -> Z -> W1 ->
  result (bool * W1).
Variable cb2 :
  string -> Z -> option (list string) -> option (list string) -> Z -> W2 ->
  result (bool * W2).
Variable S : W1 -> W2 -> Prop.
Hypothesis cb_sim :
  forall name props pn pv ln w1 w2 w1',
    S w1 w2 -> cb1 name props pn pv ln w1 = Ok (true, w1') ->
    exists w2', cb2 name props pn pv ln w2 = Ok (true, w2') /\ S w1' w2'.

Lemma step_sim (c next : ascii) (l l' : locals) (w1 w1' : W1) (w2 : W2) (skip : bool) :
  S w1 w2 ->
  step PROP_MAX W1 cb1 c next l w1 = Ok (Continue l' w1' skip) ->
  exists w2', step PROP_MAX W2 cb2 c next l w2 = Ok (Continue l' w2' skip) /\ S w1' w2'.
Proof.
  intros HS H.
  unfold step, case_INIT, case_TAGNAME, case_PROPNAME, case_PROPVALUE_QUOTE,
    case_PROPVALUE_BODY, fail in *.
  destruct (st l).
  all: repeat match goal with
  | H : Ok _ = Ok _ |- _ => inversion H; subst; clear H
  | H : Undef = Ok _ |- _ => discriminate H
  | H : bind (cb1 ?a ?b ?c ?d ?e ?w) _ = Ok _ |- _ =>
      let r := fresh "r" in let E := fresh "E" in
      destruct (cb1 a b c d e w) as [[[|] r]|] eqn:E; cbn [bind negb] in H;
      [ destruct (cb_sim _ _ _ _ _ _ _ _ HS E) as (? & -> & ?); cbn [bind negb]
      | discriminate H | discriminate H ]
  | H : bind ?r _ = Ok _ |- _ =>
      let a := fresh "a" in let E := fresh "E" in
      destruct r as [a|] eqn:E; cbn [bind] in H |- *; [|discriminate H]
  | H : (if ?b then _ else _) = Ok _ |- _ => destruct b eqn:?
  end; eauto.
Qed.

Lemma scan_sim_upto (n : nat) :
  forall (top : string) (l l' : locals) (w1 w1' : W1) (w2 : W2),
    (String.length top <= n)%nat -> S w1 w2 ->
    scan PROP_MAX W1 cb1 top l w1 = Ok (AtEnd l' w1') ->
    exists w2', scan PROP_MAX W2 cb2 top l w2 = Ok (AtEnd l' w2') /\ S w1' w2'.
Proof.
  induction n as [|n IH]; intros top l l' w1 w1' w2 Hn HS H.
  - destruct top; [|cbn in Hn; lia]. cbn in H |- *. inversion H; subst. eauto.
  - destruct top as [|c rest]; cbn [scan] in H |- *.
    + inversion H; subst. eauto.
    + destruct (Ascii.eqb c NUL); [inversion H; subst; eauto|].
      destruct (step PROP_MAX W1 cb1 c (peek rest) l w1)
        as [[l1 v1 skip|ok l1 v1]|] eqn:E; [ | discriminate | discriminate].
      destruct (step_sim _ _ _ _ _ _ _ _ HS E) as (v2 & -> & HS1).
      cbn in Hn. destruct skip.
      * destruct rest as [|c' rest']; [discriminate|].
        eapply IH; eauto. cbn in Hn |- *. lia.
      * eapply IH; eauto. lia.
Qed.

Lemma scan_sim (top : string) (l l' : locals) (w1 w1' : W1) (w2 : W2) :
  S w1 w2 ->
  scan PROP_MAX W1 cb1 top l w1 = Ok (AtEnd l' w1') ->
  exists w2', scan PROP_MAX W2 cb2 top l w2 = Ok (AtEnd l' w2') /\ S w1' w2'.
Proof. apply (scan_sim_upto (String.length top)). lia. Qed.

End Simulation.

Section FirstLoad.

Variable PROP_MAX : Z.
Variable load_file : string -> option string.

(** The loop of the record builder appends the copies of the names and
    of the values to the two arrays of the record it fills. *)
Lemma copy_props_builds (n : nat) :
  forall (i : Z) (pn pv : option (list string)) (g g' : tagsys)
         (base : list Tag.t) (r : Tag.t),
    heap g = [] -> tag g = (base ++ [r])%list ->
    i = Z.of_nat (length (Tag.prop_name r)) ->
    length (Tag.prop_value r) = length (Tag.prop_name r) ->
    copy_props PROP_MAX n i (Z.of_nat (length base)) pn pv g = Ok (true, g') ->
    g' = set_tag
           (base ++ [Tag.set_prop_value
                       (Tag.prop_value r ++ map Live (rows pv i n))%list
                       (Tag.set_prop_name
                          (Tag.prop_name r ++ map Live (rows pn i n))%list r)])%list g.
Proof.
  induction n as [|n IH]; intros i pn pv g g' base r Hh Ht Hi Hl H;
    cbn [copy_props] in H.
  - inversion H; subst g'. destruct pn, pv; cbn [rows seq map]; rewrite !app_nil_r;
      destruct r, g; cbn in *; now subst.
  - destruct (in_bounds i PROP_MAX); [|discriminate].
    destruct pn as [names|]; [|discriminate]. cbn [deref bind] in H.
    rewrite (strdup_never_fails _ _ Hh) in H.
    rewrite (update_tag_last _ _ _ _ _ Ht eq_refl) in H.
    destruct pv as [values|]; [|discriminate]. cbn [deref bind] in H.
    rewrite strdup_never_fails in H by exact Hh.
    rewrite update_tag_last
      with (base := base)
           (r := Tag.set_prop_name (aset Null i (Live (aget EmptyString i names))
                                         (Tag.prop_name r)) r) in H
      by reflexivity.
    apply IH
      with (r := Tag.set_prop_value
                   (aset Null i (Live (aget EmptyString i values)) (Tag.prop_value r))
                   (Tag.set_prop_name
                      (aset Null i (Live (aget EmptyString i names)) (Tag.prop_name r)) r))
      in H.
    + subst g'. rewrite !rows_succ. cbn [map].
      unfold aset. rewrite Hi, Nat2Z.id, set_nth_at_end.
      rewrite <- Hl at 1. rewrite set_nth_at_end.
      destruct r, g; cbn. rewrite <- !app_assoc. reflexivity.
    + exact Hh.
    + reflexivity.
    + cbn. unfold aset. rewrite Hi, Nat2Z.id, set_nth_at_end, length_app. cbn. lia.
    + cbn. unfold aset. rewrite Hi, Nat2Z.id, set_nth_at_end.
      rewrite <- Hl at 1. rewrite set_nth_at_end, !length_app. cbn. lia.
Qed.

(** A tag that the record builder accepts becomes one more record, after
    the others. *)
Lemma parse_tag_callback_records name props pn pv ln g g' evs :
  holds g evs ->
  parse_tag_callback PROP_MAX name props pn pv ln g = Ok (true, g') ->
  holds g' (evs ++ [mkEvent name props (rows pn 0 (Z.to_nat props))
                                        (rows pv 0 (Z.to_nat props)) ln])%list.
Proof.
  intros (Hh & Ht & Hs & _) H. unfold parse_tag_callback in H. cbv zeta in H.
  destruct (COMMAND_MAX <=? tag_size g) eqn:Hfull; [discriminate|].
  apply Z.leb_gt in Hfull.
  destruct (in_bounds (tag_size g) COMMAND_MAX); [|discriminate].
  assert (Hslot : tag_size g = Z.of_nat (length (tag g)))
    by (rewrite Ht, length_map; exact Hs).
  rewrite (update_tag_new (tag_size g) (Tag.set_prop_count props)
                          (set_tag_size (tag_size g + 1) g) Hslot) in H.
  rewrite strdup_never_fails in H by exact Hh.
  rewrite update_tag_last
    with (base := tag g) (r := Tag.set_prop_count props Tag.zero) in H
    by (reflexivity || exact Hslot).
  apply bind_ok in H as ([ok g1] & Hc & H).
  destruct ok; [|discriminate].
  rewrite Hslot in Hc.
  apply copy_props_builds
    with (r := Tag.set_tag_name (Live name) (Tag.set_prop_count props Tag.zero)) in Hc;
    [ | exact Hh | reflexivity | reflexivity | reflexivity].
  inversion H; subst g' g1.
  erewrite update_tag_last with (base := tag g) by (reflexivity || exact Hslot).
  unfold holds. cbn. repeat split.
  - exact Hh.
  - rewrite Ht, map_app. reflexivity.
  - rewrite length_app. cbn. lia.
  - lia.
Qed.

Lemma scan_records (top : string) (l l' : locals) (g g' : tagsys) (evs : list event) :
  holds g evs ->
  scan PROP_MAX tagsys (parse_tag_callback PROP_MAX) top l g = Ok (AtEnd l' g') ->
  exists evs',
    scan PROP_MAX (list event) record_event top l evs = Ok (AtEnd l' evs') /\
    holds g' evs'.
Proof.
  intros Hh H.
  eapply (scan_sim PROP_MAX tagsys (list event) (parse_tag_callback PROP_MAX)
                   record_event holds); eauto.
  intros name props pn pv ln w1 w2 w1' HS Hcb.
  eexists. split; [reflexivity|].
  eapply parse_tag_callback_records; eauto.
Qed.

Lemma boot_holds : holds (boot []) [].
Proof. unfold holds, COMMAND_MAX. cbn. repeat split; lia. Qed.

(** When the store is empty and the allocator never fails, a load that
    succeeds leaves the records of the tags that the tokenizer reports
    for the document, in the order of the document, and nothing else. *)
Theorem first_load_records (file doc : string) (g g' : tagsys) :
  holds g [] ->
  load_file file = Some doc ->
  load_tag_file PROP_MAX load_file file g = Ok (true, g') ->
  exists evs msg ln,
    parse_tag_document PROP_MAX (list event) record_event doc []
      = Ok (true, msg, ln, evs) /\
    holds g' evs /\ cur_index g' = 0.
Proof.
  intros (Hh & Ht & Hs & Hc) Hf H.
  destruct (load_tag_file_read_ok PROP_MAX load_file _ _ _ _ _ Hf H)
    as (g0 & Hclean & Hcur & _).
  rewrite load_tag_file_outside in H. rewrite Hf, Hclean in H. cbn [bind] in H.
  assert (E0 : g0 = set_cur_file EmptyString (set_cur_index 0 g)).
  { unfold cleanup_tag in Hclean. cbn [tag_size set_cur_file set_cur_index] in Hclean.
    rewrite Hs in Hclean. cbn in Hclean. now inversion Hclean. }
  apply bind_ok in H as ([[[ok msg] ln] g1] & Hp & H).
  destruct ok; [|discriminate]. inversion H; subst g1.
  destruct (success_means_end_in_init _ _ _ _ _ _ _ _ Hp) as (l & Hscan & Hst).
  apply scan_records with (evs := []) in Hscan.
  - destruct Hscan as (evs & Hrec & Hholds).
    exists evs, (error_msg l), (error_line l). split; [|split; assumption].
    unfold parse_tag_document. rewrite Hrec. cbn [bind]. now rewrite Hst.
  - subst g0. unfold holds. cbn. auto.
Qed.

(** X23.  When the store is empty and the allocator never fails, after a
    load that succeeds, of a document for which the tokenizer reports
    [N] tags, the read that follows [k] advances returns the record of
    the [k]-th tag while [k < N], and nothing, with line -1, at
    [k = N]. *)
Theorem first_load_walk (file doc : string) (g g' : tagsys) :
  holds g [] ->
  load_file file = Some doc ->
  load_tag_file PROP_MAX load_file file g = Ok (true, g') ->
  exists evs msg ln,
    parse_tag_document PROP_MAX (list event) record_event doc []
      = Ok (true, msg, ln, evs) /\
    (forall (k : nat) (e : event),
        nth_error evs k = Some e ->
        exists gk, advance k g' = Ok gk /\
                   get_current_tag gk = Ok (Some (record_of e)) /\
                   get_tag_line gk = Ok (ev_line e)) /\
    (exists gN, advance (length evs) g' = Ok gN /\
                get_current_tag gN = Ok None /\ get_tag_line gN = Ok (-1)).
Proof.
  intros Hg Hf H.
  destruct (first_load_records file doc g g' Hg Hf H)
    as (evs & msg & ln & Hp & (Hh & Ht & Hs & Hc) & Hcur).
  exists evs, msg, ln. split; [exact Hp|]. split.
  - intros k e Hk.
    assert (Hlt : (k < length evs)%nat) by (apply nth_error_Some; congruence).
    destruct (cursor_walk g' k Hcur Hc) as (gk & Ha & Hin & _); [lia|].
    exists gk. split; [exact Ha|].
    destruct Hin as (R1 & R2); [lia|].
    assert (E : tag_at (Z.of_nat k) g' = record_of e).
    { unfold tag_at, aget. rewrite Nat2Z.id, Ht.
      erewrite nth_error_nth; [reflexivity|].
      now rewrite nth_error_map, Hk. }
    rewrite R1, R2, E. auto.
  - destruct (cursor_walk g' (length evs) Hcur Hc) as (gN & Ha & _ & Hend); [lia|].
    exists gN. split; [exact Ha|]. apply Hend. lia.
Qed.

End FirstLoad.

(** The same, for a run that a refusal of the first callback or an error of
    the tokenizer ends. *)
Section Refusal.

Variable PROP_MAX : Z.
Variables W1 W2 : Type.
Variable cb1 :
  string -> Z -> option (list string) -> option (list string) -> Z -> W1 ->
  result (bool * W1).
Variable cb2 :
  string -> Z -> option (list string) -> option (list string) -> Z -> W2 ->
  result (bool * W2).
Variable S : W1 -> W2 -> Prop.
Variable F : W1 -> Prop.
Hypothesis cb_sim :
  forall name props pn pv ln w1 w2 w1',
    S w1 w2 -> cb1 name props pn pv ln w1 = Ok (true, w1') ->
    exists w2', cb2 name props pn pv ln w2 = Ok (true, w2') /\ S w1' w2'.
Hypothesis cb_refuse :
  forall name props pn pv ln w1 w2 w1',
    S w1 w2 -> cb1 name props pn pv ln w1 = Ok (false, w1') -> S w1' w2 /\ F w1'.

Lemma step_sim_return (c next : ascii) (l l' : locals) (w1 w1' : W1) (w2 : W2)
      (ok : bool) :
  S w1 w2 ->
  step PROP_MAX W1 cb1 c next l w1 = Ok (Return ok l' w1') ->
  exists w2',
    S w1' w2' /\
    (step PROP_MAX W2 cb2 c next l w2 = Ok (Return ok l' w2') \/ F w1').
Proof.
  intros HS H.
  unfold step, case_INIT, case_TAGNAME, case_PROPNAME, case_PROPVALUE_QUOTE,
    case_PROPVALUE_BODY, fail in *.
  destruct (st l).
  all: repeat match goal with
  | H : Ok _ = Ok _ |- _ => inversion H; subst; clear H
  | H : Undef = Ok _ |- _ => discriminate H
  | H : bind (cb1 ?a ?b ?c ?d ?e ?w) _ = Ok _ |- _ =>
      let r := fresh "r" in let E := fresh "E" in
      destruct (cb1 a b c d e w) as [[[|] r]|] eqn:E; cbn [bind negb] in H;
      [ discriminate H
      | destruct (cb_refuse _ _ _ _ _ _ _ _ HS E) as (? & ?)
      | discriminate H ]
  | H : bind ?r _ = Ok _ |- _ =>
      let a := fresh "a" in let E := fresh "E" in
      destruct r as [a|] eqn:E; cbn [bind] in H |- *; [|discriminate H]
  | H : (if ?b then _ else _) = Ok _ |- _ => destruct b eqn:?
  end; eauto.
Qed.

Lemma scan_sim_returned_upto (n : nat) :
  forall (top : string) (l l' : locals) (w1 w1' : W1) (w2 : W2) (ok : bool),
    (String.length top <= n)%nat -> S w1 w2 ->
    scan PROP_MAX W1 cb1 top l w1 = Ok (Returned ok l' w1') ->
    exists w2',
      S w1' w2' /\
      (scan PROP_MAX W2 cb2 top l w2 = Ok (Returned ok l' w2') \/ F w1').
Proof.
  induction n as [|n IH]; intros top l l' w1 w1' w2 ok Hn HS H.
  - destruct top; [|cbn in Hn; lia]. cbn in H. discriminate.
  - destruct top as [|c rest]; cbn [scan] in H |- *; [discriminate|].
    destruct (Ascii.eqb c NUL); [discriminate|].
    destruct (step PROP_MAX W1 cb1 c (peek rest) l w1)
      as [[l1 v1 skip|ok1 l1 v1]|] eqn:E; [ | | discriminate].
    + destruct (step_sim PROP_MAX W1 W2 cb1 cb2 S cb_sim _ _ _ _ _ _ _ _ HS E)
        as (v2 & -> & HS1).
      cbn in Hn. destruct skip.
      * destruct rest as [|c' rest']; [discriminate|].
        eapply IH; eauto. cbn in Hn |- *. lia.
      * eapply IH; eauto. lia.
    + inversion H; subst.
      destruct (step_sim_return _ _ _ _ _ _ _ _ HS E) as (v2 & HS1 & [-> | HF]); eauto.
Qed.

End Refusal.

Section FailedFirstLoad.

Variable PROP_MAX : Z.
Variable load_file : string -> option string.

Lemma copy_props_accepts (n : nat) :
  forall (i slot : Z) (pn pv : option (list string)) (g g' : tagsys) (ok : bool),
    heap g = [] ->
    copy_props PROP_MAX n i slot pn pv g = Ok (ok, g') -> ok = true.
Proof.
  induction n as [|n IH]; intros i slot pn pv g g' ok Hh H; cbn [copy_props] in H.
  - now inversion H.
  - destruct (in_bounds i PROP_MAX); [|discriminate].
    apply bind_ok in H as (name & _ & H).
    rewrite strdup_never_fails in H by exact Hh.
    apply bind_ok in H as (value & _ & H).
    rewrite strdup_never_fails in H by exact Hh.
    apply IH in H; [exact H | exact Hh].
Qed.

(** With an allocator that never fails, the record builder refuses a tag
    only when the table is full, and then it leaves the table as it is. *)
Lemma parse_tag_callback_refuses name props pn pv ln g g' evs :
  holds g evs ->
  parse_tag_callback PROP_MAX name props pn pv ln g = Ok (false, g') ->
  holds g' evs /\ tag_size g' = COMMAND_MAX.
Proof.
  intros (Hh & Ht & Hs & Hc) H. unfold parse_tag_callback in H. cbv zeta in H.
  destruct (COMMAND_MAX <=? tag_size g) eqn:Hfull.
  - apply Z.leb_le in Hfull. inversion H; subst g'.
    unfold holds. cbn. repeat split; auto; lia.
  - destruct (in_bounds (tag_size g) COMMAND_MAX); [|discriminate].
    rewrite strdup_never_fails in H by exact Hh.
    apply bind_ok in H as ([ok g1] & Hcp & H).
    apply copy_props_accepts in Hcp; [|exact Hh]. subst ok. discriminate.
Qed.

(** X24.  When the store is empty and the allocator never fails, a load that
    fails after its file was read leaves the records of the tags that
    the tokenizer had reported before the error, and nothing else: the
    tokenizer, run with a callback that accepts every tag, fails in the
    same way after these tags, unless the table was full. *)
Theorem failed_first_load_records (file doc : string) (g g' : tagsys) :
  holds g [] ->
  load_file file = Some doc ->
  load_tag_file PROP_MAX load_file file g = Ok (false, g') ->
  exists evs,
    holds g' evs /\ cur_index g' = 0 /\
    ((exists msg ln,
         parse_tag_document PROP_MAX (list event) record_event doc []
           = Ok (false, msg, ln, evs)) \/
     tag_size g' = COMMAND_MAX).
Proof.
  intros (Hh & Ht & Hs & Hc) Hf H.
  destruct (load_tag_file_read_ok PROP_MAX load_file _ _ _ _ _ Hf H)
    as (g0 & Hclean & Hcur & _).
  rewrite load_tag_file_outside in H. rewrite Hf, Hclean in H. cbn [bind] in H.
  assert (E0 : g0 = set_cur_file EmptyString (set_cur_index 0 g)).
  { unfold cleanup_tag in Hclean. cbn [tag_size set_cur_file set_cur_index] in Hclean.
    rewrite Hs in Hclean. cbn in Hclean. now inversion Hclean. }
  assert (H0 : holds (set_cur_file (take 1023 file) g0) []).
  { subst g0. unfold holds. cbn. auto. }
  apply bind_ok in H as ([[[ok msg] ln] g1] & Hp & H).
  destruct ok; [discriminate|]. cbn in H. inversion H; subst g'. clear H.
  assert (Hlog : forall evs e, holds g1 evs -> holds (log_error e g1) evs)
    by (intros evs e K; exact K).
  unfold parse_tag_document in Hp. apply bind_ok in Hp as (e & Hscan & Hp).
  destruct e as [l w|ok l w].
  - destruct (state_eqb (st l) ST_INIT) eqn:Hst; [discriminate|].
    inversion Hp; subst. clear Hp.
    apply scan_records with (evs := []) in Hscan; [|exact H0].
    destruct Hscan as (evs & Hrec & Hholds).
    exists evs. split; [apply Hlog; exact Hholds|]. split; [exact Hcur|].
    left. exists (Some "Unexpected EOF"), (Some (line l)).
    unfold parse_tag_document. rewrite Hrec. cbn [bind]. rewrite Hst. reflexivity.
  - inversion Hp; subst. clear Hp.
    assert (Hsim : exists evs,
               holds g1 evs /\
               (scan PROP_MAX (list event) record_event doc initial_locals []
                  = Ok (Returned false l evs) \/ tag_size g1 = COMMAND_MAX)).
    { eapply (scan_sim_returned_upto PROP_MAX tagsys (list event)
                (parse_tag_callback PROP_MAX) record_event holds
                (fun g => tag_size g = COMMAND_MAX))
        with (n := String.length doc); [ | | | exact H0 | exact Hscan].
      - intros name props pn pv ln0 w1 w2 w1' HS Hcb.
        eexists. split; [reflexivity|].
        eapply parse_tag_callback_records; eauto.
      - intros name props pn pv ln0 w1 w2 w1' HS Hcb.
        eapply parse_tag_callback_refuses; eauto.
      - lia. }
    destruct Hsim as (evs & Hholds & Hor).
    exists evs. split; [apply Hlog; exact Hholds|]. split; [exact Hcur|].
    destruct Hor as [Hrec | Hfull]; [left | right; exact Hfull].
    exists (error_msg l), (error_line l).
    unfold parse_tag_document. rewrite Hrec. reflexivity.
Qed.

End FailedFirstLoad.

(** ** The loader *)

Section LoaderFacts.

Variable PROP_MAX : Z.

(** The inner loop of [cleanup_tag] on a record whose two pointers of
    index [i] are [NULL]. *)
Lemma cleanup_props_nothing (i : Z) (r : Tag.t) (n : nat) :
  (n <> O -> 0 <= i < PROP_MAX) ->
  aget Null i (Tag.prop_name r) = Null -> aget Null i (Tag.prop_value r) = Null ->
  forall j, for_loop n j (cleanup_props PROP_MAX i) r = Ok r.
Proof.
  intros Hb Hn Hv. induction n as [|n IH]; intros j; cbn [for_loop]; [reflexivity|].
  assert (E : in_bounds i PROP_MAX = true)
    by (apply in_bounds_iff; apply Hb; discriminate).
  unfold cleanup_props at 1, free_and_clear. rewrite E, Hn. cbn [bind].
  destruct r as [a b c d e]. cbn in *. rewrite Hv. cbn [bind].
  apply IH. intros _. apply Hb. discriminate.
Qed.

Lemma load_A : load_tag_file PROP_MAX two_files "A" (boot []) = Ok (true, after_A).
Proof. vm_compute. reflexivity. Qed.

Lemma load_B_alone :
  load_tag_file PROP_MAX two_files "B" (boot [])
  = Ok (true, mkSys "B" 0 [record_B] 1 [] []).
Proof. vm_compute. reflexivity. Qed.

(** [cleanup_tag] frees the name of the record of [doc_A] and keeps the
    record in the table. *)
Lemma cleanup_after_A : cleanup_tag PROP_MAX after_A = Ok cleaned_A.
Proof.
  unfold cleanup_tag.
  change (for_loop 1 0 (cleanup_record PROP_MAX)
                   (mkSys EmptyString 0 [record_A] 1 [] []) = Ok cleaned_A).
  cbn [for_loop]. unfold cleanup_record.
  change (in_bounds 0 COMMAND_MAX) with true. cbv iota.
  change (tag_at 0 (mkSys EmptyString 0 [record_A] 1 [] [])) with record_A.
  unfold record_A.
  cbn [Tag.tag_name free bind Tag.set_tag_name Tag.prop_count Tag.prop_name
       Tag.prop_value Tag.line].
  rewrite cleanup_props_nothing; [reflexivity | | reflexivity | reflexivity].
  intros Hn. destruct PROP_MAX; cbn in Hn; try congruence. lia.
Qed.

Lemma load_A_B : load_tag_file PROP_MAX two_files "B" after_A = Ok (true, after_A_B).
Proof.
  rewrite load_tag_file_outside. change (two_files "B") with (Some doc_B). cbv iota beta.
  rewrite cleanup_after_A. cbn [bind]. vm_compute. reflexivity.
Qed.


(** C1 (the code does not do this).  [doc_A] has one tag, on line 3, and
    [doc_B] has one tag, on line 1.  After [doc_A] and then [doc_B] were
    loaded, both with success, the store has two records and not the
    single one that loading [doc_B] alone gives: [cleanup_tag] freed the
    name of the record of [doc_A] but left [tag_size] at 1, so record 0
    is still the one of [doc_A], line 3, and the record of [doc_B] comes
    after it. *)
Theorem reload_keeps_previous_records :
  load_tag_file PROP_MAX two_files "A" (boot []) = Ok (true, after_A) /\
  load_tag_file PROP_MAX two_files "B" after_A = Ok (true, after_A_B) /\
  load_tag_file PROP_MAX two_files "B" (boot [])
    = Ok (true, mkSys "B" 0 [record_B] 1 [] []) /\
  tag_size after_A_B = 2 /\
  tag_at 0 after_A_B = residue_A /\ Tag.line residue_A = 3 /\
  tag_at 1 after_A_B = record_B.
Proof.
  split; [apply load_A|]. split; [apply load_A_B|]. split; [apply load_B_alone|].
  repeat split.
Qed.

(** C8 (the code does not do this).  After [doc_A] and then [doc_B] were
    loaded, both with success, the cursor is at 0 and the walk over the
    store does not return the single record of [doc_B] followed by
    nothing: the first read returns the record left by [doc_A] (line 3,
    its name freed), and the read after one advance returns the record of
    [doc_B] with line 1, where nothing and -1 were expected. *)
Theorem cursor_after_reload :
  load_tag_file PROP_MAX two_files "A" (boot []) = Ok (true, after_A) /\
  load_tag_file PROP_MAX two_files "B" after_A = Ok (true, after_A_B) /\
  cur_index after_A_B = 0 /\
  get_current_tag after_A_B = Ok (Some residue_A) /\
  get_tag_line after_A_B = Ok 3 /\
  exists g,
    move_to_next_tag after_A_B = Ok g /\
    get_current_tag g = Ok (Some record_B) /\
    get_tag_line g = Ok 1.
Proof.
  split; [apply load_A|]. split; [apply load_A_B|].
  split; [reflexivity|]. split; [reflexivity|]. split; [reflexivity|].
  exists (set_cur_index 1 after_A_B). repeat split.
Qed.

End LoaderFacts.


(** C7 (as amended).  A call of [load_tag_file] that could read its file
    leaves the cursor at 0, whether it returns true or false; a call that
    could not read its file returns false and changes nothing. *)
Theorem load_resets_cursor_after_read (PROP_MAX : Z)
        (load_file : string -> option string) (file : string)
        (g g' : tagsys) (ok : bool) :
  load_tag_file PROP_MAX load_file file g = Ok (ok, g') ->
  (load_file file = None /\ ok = false /\ g' = g) \/
  (exists buf, load_file file = Some buf /\ cur_index g' = 0).
Proof.
  intros H. destruct (load_file file) as [buf|] eqn:Hf.
  - right. destruct (load_tag_file_read_ok _ _ _ _ _ _ _ Hf H) as (g0 & _ & K & _).
    exists buf. auto.
  - left. split; [reflexivity|].
    rewrite (load_tag_file_read_failed PROP_MAX load_file file g Hf) in H.
    inversion H. auto.
Qed.

Lemma load_resets_cursor_after_read_witness :
  load_tag_file 1 two_files "B" (set_cur_index 1 after_A) = Ok (true, after_A_B) /\
  ((two_files "B" = None /\ true = false /\ after_A_B = set_cur_index 1 after_A) \/
   (exists buf, two_files "B" = Some buf /\ cur_index after_A_B = 0)).
Proof.
  split; [vm_compute; reflexivity|].
  apply (load_resets_cursor_after_read 1 two_files "B" (set_cur_index 1 after_A)
                                       after_A_B true).
  vm_compute; reflexivity.
Defined.

(** C7 (as stated, refuted).  With the cursor at 1, a call whose file
    cannot be read returns false and leaves the cursor at 1. *)
Lemma failed_read_keeps_cursor :
  move_to_next_tag (boot []) = Ok advanced_once /\
  load_tag_file 1 no_file "missing" advanced_once = Ok (false, advanced_once) /\
  cur_index advanced_once = 1 /\
  ~ (forall PROP_MAX load_file file g ok g',
        load_tag_file PROP_MAX load_file file g = Ok (ok, g') -> cur_index g' = 0).
Proof.
  split; [reflexivity|]. split; [reflexivity|]. split; [reflexivity|].
  intros H.
  specialize (H 1 no_file "missing"%string advanced_once false advanced_once eq_refl).
  discriminate H.
Qed.

(** ** The cursor past the end *)

(** C10 (as amended).  At every cursor position at or past the length
    of the store, whatever the distance, [get_current_tag] returns
    [NULL] and [get_tag_line] returns -1.  [move_to_next_tag] adds one
    to the cursor with no upper clamp, so that [n] more advances from
    such a position, for any [n] that keeps the cursor within the range
    of [int], move the cursor [n] places further, leave the store as it
    is, and leave both reads defined, with these results. *)
Theorem cursor_total_past_end (g : tagsys) (n : nat) :
  tag_size g <= cur_index g ->
  (get_current_tag g = Ok None /\ get_tag_line g = Ok (-1)) /\
  (cur_index g + Z.of_nat n <= INT_MAX ->
   exists g',
     advance n g = Ok g' /\
     cur_index g' = cur_index g + Z.of_nat n /\
     tag_size g' = tag_size g /\
     get_current_tag g' = Ok None /\
     get_tag_line g' = Ok (-1)).
Proof.
  intros Hpast. split; [apply past_end_reads; exact Hpast|].
  intros Hrange.
  exists (set_cur_index (cur_index g + Z.of_nat n) g).
  split; [apply advance_ok; exact Hrange|].
  split; [reflexivity|]. split; [reflexivity|].
  apply past_end_reads. cbn. lia.
Qed.

Lemma cursor_total_past_end_witness :
  tag_size after_A_B <= cur_index (set_cur_index 2 after_A_B) /\
  cur_index (set_cur_index 2 after_A_B) + Z.of_nat 5 <= INT_MAX /\
  (get_current_tag (set_cur_index 2 after_A_B) = Ok None /\
   get_tag_line (set_cur_index 2 after_A_B) = Ok (-1)) /\
  exists g',
    advance 5 (set_cur_index 2 after_A_B) = Ok g' /\
    cur_index g' = cur_index (set_cur_index 2 after_A_B) + Z.of_nat 5 /\
    tag_size g' = tag_size (set_cur_index 2 after_A_B) /\
    get_current_tag g' = Ok None /\
    get_tag_line g' = Ok (-1).
Proof.
  assert (H1 : tag_size after_A_B <= cur_index (set_cur_index 2 after_A_B))
    by (simpl; lia).
  assert (H2 : cur_index (set_cur_index 2 after_A_B) + Z.of_nat 5 <= INT_MAX)
    by (unfold INT_MAX; simpl; lia).
  split; [exact H1|]. split; [exact H2|].
  split.
  - exact (proj1 (cursor_total_past_end (set_cur_index 2 after_A_B) 5 H1)).
  - exact (proj2 (cursor_total_past_end (set_cur_index 2 after_A_B) 5 H1) H2).
Defined.

(** C10 (as stated, refuted).  The number of extra advances is not
    arbitrary.  A process that has loaded nothing and has advanced
    [INT_MAX] times has its cursor at [INT_MAX], past the end of the
    empty store, where both reads are defined; one more
    [move_to_next_tag] increments an [int] that holds [INT_MAX], a
    signed overflow, and nothing is defined after it. *)
Lemma advance_overflows_at_int_max :
  (forall n, Z.of_nat n = INT_MAX -> advance n (boot []) = Ok at_int_max) /\
  tag_size at_int_max <= cur_index at_int_max /\
  get_current_tag at_int_max = Ok None /\
  get_tag_line at_int_max = Ok (-1) /\
  move_to_next_tag at_int_max = Undef /\
  (forall n, advance (S n) at_int_max = Undef) /\
  ~ (forall g n, tag_size g <= cur_index g ->
        exists g', advance n g = Ok g' /\
                   get_current_tag g' = Ok None /\ get_tag_line g' = Ok (-1)).
Proof.
  split.
  { intros n Hn. rewrite advance_ok by (cbn [cur_index boot]; lia).
    cbn [cur_index boot]. rewrite Hn. reflexivity. }
  split; [discriminate|]. split; [reflexivity|]. split; [reflexivity|].
  split; [reflexivity|]. split; [intros n; reflexivity|].
  intros H. destruct (H at_int_max 1%nat) as (g' & Ha & _); [discriminate|].
  discriminate Ha.
Qed.

(** * Further properties *)

(** ** What the caller is told *)

Section Diagnostics.

Variable PROP_MAX : Z.
Variable W : Type.
Variable callback :
  string -> Z -> option (list string) -> option (list string) -> Z -> W ->
  result (bool * W).

Lemma int_incr_inv (x y : Z) : int_incr x = Ok y -> y = x + 1.
Proof.
  unfold int_incr. destruct (x <? INT_MAX); intros H; inversion H; reflexivity.
Qed.

Lemma next_line_inv (l l' : locals) :
  next_line l = Ok l' -> l' = set_line (line l + 1) l.
Proof.
  unfold next_line. intros H. apply bind_ok in H as (n & Hn & H).
  apply int_incr_inv in Hn. inversion H. now subst.
Qed.

(** One turn of the loop moves the line counter by one at most, and only
    on a newline; a turn that goes on leaves the output parameters as
    they were or writes the message of a skipped character; a turn that
    returns writes one of the messages and the line counter. *)
Lemma step_diagnostics (c next : ascii) (l : locals) (w : W) (r : control W) :
  step PROP_MAX W callback c next l w = Ok r ->
  line l <= line (control_locals r)
         <= line l + (if Ascii.eqb c LF then 1 else 0) /\
  match r with
  | Continue l' _ _ =>
      (error_msg l' = error_msg l /\ error_line l' = error_line l) \/
      (error_msg l' = Some "Invalid character." /\ error_line l' = Some (line l'))
  | Return _ l' _ =>
      exists m, error_msg l' = Some m /\ In m messages /\
                error_line l' = Some (line l')
  end.
Proof.
  unfold step, case_INIT, case_TAGNAME, case_PROPNAME, case_PROPVALUE_QUOTE,
    case_PROPVALUE_BODY, put_value, fail, messages.
  intros H. destruct (st l); invert_ok;
    repeat match goal with
    | E : next_line _ = Ok _ |- _ => apply next_line_inv in E; subst
    end;
    cbn [control_locals line set_line set_len set_st set_tag_name set_prop_name
         set_prop_val set_prop_count set_error error_msg error_line In];
    (split;
     [ repeat match goal with
       | E : Ascii.eqb _ LF = _ |- _ => rewrite E
       end; try destruct (Ascii.eqb c LF); lia
     | first [ left; split; reflexivity
             | right; split; reflexivity
             | eexists; split; [reflexivity|]; split; [|reflexivity]; tauto ] ]).
Qed.

Lemma newlines_nonneg (s : string) : 0 <= newlines s.
Proof.
  induction s as [|c s IH]; cbn [newlines]; [lia|].
  destruct (Ascii.eqb c LF); lia.
Qed.

Lemma quiet_weaken (lo hi hi' : Z) (l : locals) :
  hi <= hi' -> quiet lo hi l -> quiet lo hi' l.
Proof.
  intros Hh [H|(H & n & Hn & Hb)]; [left; exact H|].
  right. split; [exact H|]. exists n. split; [exact Hn|lia].
Qed.

Lemma scan_diagnostics_upto (n : nat) :
  forall (top : string) (l : locals) (w : W) (e : loop_exit W) (lo : Z),
    (String.length top <= n)%nat ->
    lo <= line l -> quiet lo (line l) l ->
    scan PROP_MAX W callback top l w = Ok e ->
    line l <= line (exit_locals e) <= line l + newlines top /\
    match e with
    | AtEnd l' _ => quiet lo (line l') l'
    | Returned _ l' _ =>
        exists m, error_msg l' = Some m /\ In m messages /\
                  error_line l' = Some (line l')
    end.
Proof.
  induction n as [|n IH]; intros top l w e lo Hn Hlo Hq H.
  - destruct top; [|cbn in Hn; lia]. cbn in H. invert_ok.
    cbn [exit_locals newlines]. split; [lia | exact Hq].
  - destruct top as [|c rest]; cbn [scan] in H.
    + invert_ok. cbn [exit_locals newlines]. split; [lia | exact Hq].
    + pose proof (newlines_nonneg rest) as Hr.
      destruct (Ascii.eqb c NUL).
      { invert_ok. cbn [exit_locals newlines].
        split; [destruct (Ascii.eqb c LF); lia | exact Hq]. }
      destruct (step PROP_MAX W callback c (peek rest) l w) as [r|] eqn:E;
        [|discriminate].
      apply step_diagnostics in E as (Hl & Hd). cbn in Hn.
      cbn [newlines].
      destruct r as [l1 w1 skip|ok l1 w1]; cbn [control_locals] in Hl.
      * assert (Hq1 : quiet lo (line l1) l1).
        { destruct Hd as [(Hm & Hln)|(Hm & Hln)].
          - apply quiet_weaken with (hi := line l); [lia|].
            unfold quiet in *. rewrite Hm, Hln. exact Hq.
          - right. split; [exact Hm|]. exists (line l1). split; [exact Hln|lia]. }
        destruct skip.
        -- destruct rest as [|c' rest']; [discriminate|].
           apply IH with (lo := lo) in H; [|cbn in Hn |- *; lia|lia|exact Hq1].
           destruct H as (Hb & He). split; [|exact He].
           pose proof (newlines_nonneg rest') as Hr'.
           cbn [newlines] in Hr |- *.
           destruct (Ascii.eqb c' LF); lia.
        -- apply IH with (lo := lo) in H; [|lia|lia|exact Hq1].
           destruct H as (Hb & He). split; [lia|exact He].
      * invert_ok. cbn [exit_locals]. split; [lia|exact Hd].
Qed.

Lemma initial_quiet : quiet 1 (line initial_locals) initial_locals.
Proof. left. split; reflexivity. Qed.

(** X1.  Whenever [parse_tag_document] returns false it has written both
    output parameters: the message is one of the seven messages of the
    tokenizer, and the line lies between 1 and 1 plus the number of
    newline characters of the document. *)
Theorem failure_is_diagnosed (doc : string) (w w' : W)
        (msg : option string) (ln : option Z) :
  parse_tag_document PROP_MAX W callback doc w = Ok (false, msg, ln, w') ->
  exists m n,
    msg = Some m /\ ln = Some n /\ In m messages /\ 1 <= n <= 1 + newlines doc.
Proof.
  unfold parse_tag_document. intros H.
  apply bind_ok in H as (e & He & H).
  pose proof (scan_diagnostics_upto (String.length doc) doc initial_locals w e 1
                (le_n _) (Z.le_refl _) initial_quiet He) as (Hb & Hd).
  change (line initial_locals) with 1 in Hb.
  destruct e as [l w1|ok l w1]; cbn [exit_locals] in Hb.
  - destruct (state_eqb (st l) ST_INIT); [discriminate|].
    inversion H; subst. cbn [set_error error_msg error_line].
    exists "Unexpected EOF", (line l).
    split; [reflexivity|]. split; [reflexivity|]. split; [|lia].
    unfold messages. cbn [In]. tauto.
  - inversion H; subst. destruct Hd as (m & Hm & Hin & Hln).
    exists m, (line l). rewrite Hm, Hln. auto.
Qed.

(** X2.  When [parse_tag_document] returns true, the loop has reached the
    end of the document in state [ST_INIT], and the output parameters
    are either untouched or hold the message that was left, without a
    return, for a character skipped in a property name, with a line of
    the document. *)
Theorem success_leaves_stale_message_at_most (doc : string) (w w' : W)
        (msg : option string) (ln : option Z) :
  parse_tag_document PROP_MAX W callback doc w = Ok (true, msg, ln, w') ->
  (exists l, scan PROP_MAX W callback doc initial_locals w = Ok (AtEnd l w') /\
             st l = ST_INIT) /\
  ((msg = None /\ ln = None) \/
   (msg = Some "Invalid character." /\
    exists n, ln = Some n /\ 1 <= n <= 1 + newlines doc)).
Proof.
  unfold parse_tag_document. intros H.
  apply bind_ok in H as (e & He & H).
  pose proof (scan_diagnostics_upto (String.length doc) doc initial_locals w e 1
                (le_n _) (Z.le_refl _) initial_quiet He) as (Hb & Hd).
  change (line initial_locals) with 1 in Hb.
  destruct e as [l w1|ok l w1]; cbn [exit_locals] in Hb.
  - destruct (st l) eqn:Hst; cbn [state_eqb] in H; inversion H; subst.
    split; [exists l; split; [exact He | exact Hst]|].
    destruct Hd as [Hq|(Hm & n & Hn & Hbn)]; [left; exact Hq|].
    right. split; [exact Hm|]. exists n. split; [exact Hn|lia].
  - inversion H; subst.
    apply scan_returns_false in He. discriminate He.
Qed.

End Diagnostics.

(** ** Between two tags *)

Lemma set_line_same (l : locals) : set_line (line l) l = l.
Proof. now destruct l. Qed.

Section BetweenTags.

Variable PROP_MAX : Z.
Variable W : Type.
Variable callback :
  string -> Z -> option (list string) -> option (list string) -> Z -> W ->
  result (bool * W).

(** In state [ST_INIT] blanks are skipped and newlines are counted. *)
Lemma scan_blanks (ws rest : string) :
  forall (l : locals) (w : W),
    st l = ST_INIT ->
    all_chars is_blank_or_newline ws = true ->
    line l + newlines ws <= INT_MAX ->
    scan PROP_MAX W callback (ws ++ rest) l w
    = scan PROP_MAX W callback rest (set_line (line l + newlines ws) l) w.
Proof.
  induction ws as [|c ws IH]; intros l w Hst Hws Hln.
  - cbn [append newlines]. now rewrite Z.add_0_r, set_line_same.
  - cbn [all_chars] in Hws. apply andb_true_iff in Hws as (Hc & Hws).
    cbn [newlines] in Hln |- *. pose proof (newlines_nonneg ws) as Hnn.
    assert (Hnul : Ascii.eqb c NUL = false).
    { destruct (Ascii.eqb_spec c NUL) as [->|]; [discriminate Hc|reflexivity]. }
    cbn [append]. rewrite scan_cons by exact Hnul.
    unfold step. rewrite Hst. unfold case_INIT.
    assert (Hlb : Ascii.eqb c LBRACKET = false).
    { destruct (Ascii.eqb_spec c LBRACKET) as [->|]; [discriminate Hc|reflexivity]. }
    rewrite Hlb.
    destruct (Ascii.eqb c LF) eqn:Hlf.
    + unfold next_line. rewrite int_incr_ok by lia. cbn [bind].
      rewrite IH; [|exact Hst|exact Hws|cbn [line set_line]; lia].
      replace (line l + (1 + newlines ws)) with (line l + 1 + newlines ws) by lia.
      reflexivity.
    + unfold is_blank_or_newline in Hc. rewrite Hlf, orb_false_r in Hc.
      rewrite Hc. rewrite IH; [|exact Hst|exact Hws|lia].
      reflexivity.
Qed.

(** X3.  A document of blanks and newlines only, the empty document
    included, is accepted: the tokenizer returns true without calling
    the callback and without writing its output parameters. *)
Theorem blank_document_accepted (doc : string) (w : W) :
  all_chars is_blank_or_newline doc = true ->
  1 + newlines doc <= INT_MAX ->
  parse_tag_document PROP_MAX W callback doc w = Ok (true, None, None, w).
Proof.
  intros Hb Hn. unfold parse_tag_document.
  rewrite <- (string_app_nil_r doc) at 1.
  rewrite scan_blanks; [|reflexivity|exact Hb|exact Hn].
  reflexivity.
Qed.

(** X4.  Between two tags, after any run of blanks and newlines, a
    character that is neither a blank, a newline nor an opening bracket
    ends the parse at once: the tokenizer returns false with the message
    of the invalid character and the line of that character, the line
    of the state it started in plus the newlines read since. *)
Theorem stray_character_rejected (ws rest : string) (c : ascii) (l : locals) (w : W) :
  st l = ST_INIT ->
  all_chars is_blank_or_newline ws = true ->
  line l + newlines ws <= INT_MAX ->
  is_blank_or_newline c = false -> c <> LBRACKET -> c <> NUL ->
  scan PROP_MAX W callback (ws ++ String c rest) l w
  = Ok (Returned false
          (set_error "Invalid character." (set_line (line l + newlines ws) l)) w) /\
  (l = initial_locals ->
   parse_tag_document PROP_MAX W callback (ws ++ String c rest) w
   = Ok (false, Some "Invalid character.", Some (1 + newlines ws), w)).
Proof.
  intros Hst Hws Hln Hc Hlb Hnul.
  assert (E : scan PROP_MAX W callback (ws ++ String c rest) l w
              = Ok (Returned false
                      (set_error "Invalid character."
                                 (set_line (line l + newlines ws) l)) w)).
  { rewrite scan_blanks; [|exact Hst|exact Hws|exact Hln].
    apply Ascii.eqb_neq in Hlb, Hnul.
    rewrite scan_cons by exact Hnul.
    unfold step. cbn [st set_line]. rewrite Hst. unfold case_INIT.
    rewrite Hlb. unfold is_blank_or_newline in Hc.
    apply orb_false_iff in Hc as (Hb & Hlf). rewrite Hlf, Hb. reflexivity. }
  split; [exact E|].
  intros ->. unfold parse_tag_document. rewrite E. reflexivity.
Qed.

End BetweenTags.

(** ** The end of the document *)

Section Terminator.

Variable PROP_MAX : Z.
Variable W : Type.
Variable callback :
  string -> Z -> option (list string) -> option (list string) -> Z -> W ->
  result (bool * W).

(** The second [top++] of a turn is taken only past a quote, an [n] or a
    backslash: never past the NUL that ends the document. *)
Lemma step_skips_no_nul (c next : ascii) (l l' : locals) (w w' : W) :
  step PROP_MAX W callback c next l w = Ok (Continue l' w' true) ->
  next = DQUOTE \/ next = LOWER_N \/ next = BACKSLASH.
Proof.
  unfold step, case_INIT, case_TAGNAME, case_PROPNAME, case_PROPVALUE_QUOTE,
    case_PROPVALUE_BODY, fail.
  intros H. destruct (st l); invert_ok;
    repeat match goal with
    | E : Ascii.eqb _ _ = true |- _ => apply Ascii.eqb_eq in E
    end; auto.
Qed.

Lemma peek_before_nul (a b : string) : peek (a ++ String NUL b) = peek a.
Proof. destruct a; reflexivity. Qed.

Lemma scan_stops_at_nul_upto (n : nat) :
  forall (a b : string) (l : locals) (w : W),
    (String.length a <= n)%nat ->
    scan PROP_MAX W callback (a ++ String NUL b) l w
    = scan PROP_MAX W callback a l w.
Proof.
  induction n as [|n IH]; intros a b l w Hn.
  - destruct a; [reflexivity | cbn in Hn; lia].
  - destruct a as [|c a]; [reflexivity|].
    cbn [append scan]. destruct (Ascii.eqb c NUL); [reflexivity|].
    rewrite peek_before_nul. cbn in Hn.
    destruct (step PROP_MAX W callback c (peek a) l w) as [r|] eqn:E;
      [|reflexivity].
    destruct r as [l1 w1 skip|ok l1 w1]; [|reflexivity].
    destruct skip.
    + destruct a as [|d a].
      * apply step_skips_no_nul in E. cbn [peek] in E.
        destruct E as [E|[E|E]]; discriminate E.
      * cbn [append]. apply IH. cbn in Hn. lia.
    + apply IH. lia.
Qed.

(** X5.  The document is read up to its first NUL and not beyond: what
    follows that character has no effect on the result, the output
    parameters or the calls of the callback.  In particular the escape
    that looks one character ahead never steps over the NUL. *)
Theorem document_ends_at_first_nul (a b : string) (w : W) :
  parse_tag_document PROP_MAX W callback (a ++ String NUL b) w
  = parse_tag_document PROP_MAX W callback a w.
Proof.
  unfold parse_tag_document.
  now rewrite (scan_stops_at_nul_upto (String.length a)) by lia.
Qed.

End Terminator.

(** ** Tag names *)

Lemma take_0 (s : string) : take 0 s = EmptyString.
Proof. unfold take. now destruct s. Qed.

Lemma take_whole (s : string) : take (Z.of_nat (String.length s)) s = s.
Proof. unfold take. rewrite Nat2Z.id. apply substring_whole. Qed.

Lemma tag_name_char_tests (c : ascii) :
  is_tag_name_char c = true ->
  is_blank_or_newline c = false /\ Ascii.eqb c RBRACKET = false /\
  Ascii.eqb c NUL = false /\ Ascii.eqb c LF = false.
Proof.
  unfold is_tag_name_char, is_blank_or_newline. intros H.
  apply negb_true_iff in H.
  apply orb_false_iff in H as (H & Hn). apply orb_false_iff in H as (H & Hr).
  apply orb_false_iff in H as (Hb & Hlf). rewrite Hb, Hlf. auto.
Qed.

Section TagNames.

Variable PROP_MAX : Z.
Variable W : Type.
Variable callback :
  string -> Z -> option (list string) -> option (list string) -> Z -> W ->
  result (bool * W).

(** One character of a tag name, stored at the end of what is there. *)
Lemma step_tag_name_char (c next : ascii) (p : string) (l : locals) (w : W) :
  st l = ST_TAGNAME ->
  len l = Z.of_nat (String.length p) -> take (len l) (tag_name l) = p ->
  is_tag_name_char c = true ->
  Z.of_nat (String.length p) < TAG_NAME_MAX ->
  step PROP_MAX W callback c next l w
  = Ok (Continue (named (p ++ String c EmptyString) l) w false).
Proof.
  intros Hst Hlen Hp Hc Hroom.
  apply tag_name_char_tests in Hc as (Hb & Hr & _ & Hlf).
  unfold step. rewrite Hst. unfold case_TAGNAME.
  rewrite Hb, Hlf, Hr, andb_false_r. cbn [bind].
  assert (Hmax : (TAG_NAME_MAX <=? len l) = false) by (apply Z.leb_gt; lia).
  rewrite Hmax. unfold poke.
  assert (Hin : in_bounds (len l) TAG_NAME_MAX = true) by (apply in_bounds_iff; lia).
  rewrite Hin, Hp. cbn [bind]. unfold named.
  rewrite string_length_app. cbn [String.length].
  replace (Z.of_nat (String.length p + 1)) with (len l + 1) by lia.
  reflexivity.
Qed.

Lemma named_fields (name : string) (l : locals) :
  st (named name l) = st l /\ line (named name l) = line l /\
  len (named name l) = Z.of_nat (String.length name) /\
  take (len (named name l)) (tag_name (named name l)) = name.
Proof.
  unfold named. cbn. repeat split. apply take_whole.
Qed.

Lemma named_twice (a b : string) (l : locals) : named a (named b l) = named a l.
Proof. reflexivity. Qed.

(** The characters of a tag name, read one after the other. *)
Lemma scan_tag_name_chars (s : string) :
  forall (rest p : string) (l : locals) (w : W),
    s <> EmptyString ->
    st l = ST_TAGNAME ->
    len l = Z.of_nat (String.length p) -> take (len l) (tag_name l) = p ->
    all_chars is_tag_name_char s = true ->
    Z.of_nat (String.length p) + Z.of_nat (String.length s) <= TAG_NAME_MAX ->
    scan PROP_MAX W callback (s ++ rest) l w
    = scan PROP_MAX W callback rest (named (p ++ s) l) w.
Proof.
  induction s as [|c s IH]; intros rest p l w Hne Hst Hlen Hp Hs Hroom;
    [congruence|].
  cbn [all_chars] in Hs. apply andb_true_iff in Hs as (Hc & Hs).
  cbn [String.length] in Hroom.
  cbn [append]. rewrite scan_cons by (apply tag_name_char_tests in Hc; tauto).
  rewrite (step_tag_name_char c _ p) by (auto; lia).
  destruct s as [|d s'].
  - reflexivity.
  - pose proof (named_fields (p ++ String c EmptyString) l) as (F1 & F2 & F3 & F4).
    rewrite (IH rest (p ++ String c EmptyString));
      [ | discriminate | congruence | exact F3 | exact F4 | exact Hs | ].
    + rewrite named_twice, string_app_assoc. reflexivity.
    + rewrite string_length_app. cbn [String.length] in *. lia.
Qed.

(** The locals after the opening bracket, and what the tag name rule
    needs of them. *)
Lemma open_bracket (rest : string) (l : locals) (w : W) :
  st l = ST_INIT ->
  scan PROP_MAX W callback (String LBRACKET rest) l w
  = scan PROP_MAX W callback rest (set_len 0 (set_st ST_TAGNAME l)) w.
Proof.
  intros Hst. rewrite scan_cons by reflexivity.
  unfold step. rewrite Hst. reflexivity.
Qed.

Lemma scan_tag_name (name rest : string) (l : locals) (w : W) :
  st l = ST_INIT ->
  all_chars is_tag_name_char name = true ->
  Z.of_nat (String.length name) <= TAG_NAME_MAX ->
  exists l1,
    scan PROP_MAX W callback ("[" ++ name ++ rest) l w
    = scan PROP_MAX W callback rest l1 w /\
    st l1 = ST_TAGNAME /\ len l1 = Z.of_nat (String.length name) /\
    take (len l1) (tag_name l1) = name /\
    named name l1 = set_st ST_TAGNAME (named name l) /\
    line l1 = line l /\
    (name <> EmptyString -> l1 = set_st ST_TAGNAME (named name l)).
Proof.
  intros Hst Hname Hroom.
  change ("[" ++ name ++ rest) with (String LBRACKET (name ++ rest)).
  rewrite open_bracket by exact Hst.
  destruct name as [|c name'].
  - exists (set_len 0 (set_st ST_TAGNAME l)). cbn [append].
    repeat split; [cbn; apply take_0 | congruence].
  - remember (String c name') as name eqn:En.
    exists (named name (set_len 0 (set_st ST_TAGNAME l))).
    split.
    + rewrite (scan_tag_name_chars name rest EmptyString);
        [reflexivity | subst; discriminate | reflexivity | reflexivity
         | apply take_0 | exact Hname | cbn [String.length]; lia].
    + repeat split. cbn. apply take_whole.
Qed.

(** A tag without properties. *)
Lemma scan_plain_tag (name rest : string) (l : locals) (w : W) :
  st l = ST_INIT ->
  all_chars is_tag_name_char name = true ->
  Z.of_nat (String.length name) < TAG_NAME_MAX ->
  scan PROP_MAX W callback ("[" ++ name ++ "]" ++ rest) l w
  = (r <- callback name 0 None None (line l) w;;
     if fst r
     then scan PROP_MAX W callback rest (set_st ST_INIT (named name l)) (snd r)
     else Ok (Returned false
                (set_error "Too many properties."
                           (set_st ST_TAGNAME (named name l))) (snd r))).
Proof.
  intros Hst Hname Hroom.
  destruct (scan_tag_name name ("]" ++ rest) l w Hst Hname)
    as (l1 & E & Hst1 & Hlen1 & Htake1 & Hnamed & Hline & Hl1); [lia|].
  rewrite E. cbn [append]. rewrite scan_cons by reflexivity.
  unfold step. rewrite Hst1. unfold case_TAGNAME.
  change (is_blank_or_newline "]") with false.
  change (Ascii.eqb "]" LF) with false.
  change (Ascii.eqb "]" RBRACKET) with true.
  rewrite andb_false_r. cbn [bind]. unfold terminate.
  assert (Hin : in_bounds (len l1) TAG_NAME_MAX = true) by (apply in_bounds_iff; lia).
  rewrite Hin, Htake1. cbn [bind tag_name set_tag_name line].
  rewrite Hline.
  destruct (callback name 0 None None (line l) w) as [[ok w1]|]; [|reflexivity].
  cbn [bind fst snd].
  assert (Hl2 : set_tag_name name l1 = set_st ST_TAGNAME (named name l)).
  { rewrite <- Hnamed. clear - Hlen1. unfold named. destruct l1. cbn in *. now subst. }
  rewrite Hl2. destruct ok; reflexivity.
Qed.

(** X6.  A tag without properties, written as an opening bracket, a name
    of fewer than 128 characters none of which is a blank, a newline, a
    closing bracket or a NUL (the empty name included), and a closing
    bracket: the callback is called once, with the name as it is
    written, no property, two null tables and the current line.  When
    the callback accepts, the scan goes on after the bracket in state
    [ST_INIT]; when it refuses, the tokenizer returns false with the
    message of too many properties. *)
Theorem tag_without_properties (name rest : string) (l : locals) (w : W) :
  st l = ST_INIT ->
  all_chars is_tag_name_char name = true ->
  Z.of_nat (String.length name) < TAG_NAME_MAX ->
  scan PROP_MAX W callback ("[" ++ name ++ "]" ++ rest) l w
  = (r <- callback name 0 None None (line l) w;;
     if fst r
     then scan PROP_MAX W callback rest (set_st ST_INIT (named name l)) (snd r)
     else Ok (Returned false
                (set_error "Too many properties."
                           (set_st ST_TAGNAME (named name l))) (snd r))).
Proof. apply scan_plain_tag. Qed.

(** X7.  The tag name buffer has 128 cells.  When a name of exactly 128
    characters is ended by a blank, a newline or a closing bracket, its
    terminator is stored in cell 128, past the end of the buffer; a
    129th character of the name is refused with the message of the tag
    name too long. *)
Theorem tag_name_capacity (name rest : string) (l : locals) (w : W) :
  st l = ST_INIT ->
  all_chars is_tag_name_char name = true ->
  Z.of_nat (String.length name) = TAG_NAME_MAX ->
  (forall t, is_blank_or_newline t = true \/ t = RBRACKET ->
     scan PROP_MAX W callback ("[" ++ name ++ String t rest) l w = Undef) /\
  (forall c, is_tag_name_char c = true ->
     scan PROP_MAX W callback ("[" ++ name ++ String c rest) l w
     = Ok (Returned false
             (set_error "Tag name too long." (set_st ST_TAGNAME (named name l))) w)).
Proof.
  intros Hst Hname Hfull. split.
  - intros t Ht.
    destruct (scan_tag_name name (String t rest) l w Hst Hname)
      as (l1 & E & Hst1 & Hlen1 & Htake1 & Hnamed & Hline & Hl1); [lia|].
    rewrite E.
    assert (Hnul : Ascii.eqb t NUL = false)
      by (destruct Ht as [Ht| ->]; [destruct (Ascii.eqb_spec t NUL) as [->|];
                                    [discriminate Ht|reflexivity] | reflexivity]).
    rewrite scan_cons by exact Hnul.
    unfold step. rewrite Hst1. unfold case_TAGNAME.
    assert (H0 : (len l1 =? 0) = false)
      by (apply Z.eqb_neq; unfold TAG_NAME_MAX in *; lia).
    rewrite H0. cbn [andb].
    assert (Hout : forall l2, len l2 = len l1 ->
                     terminate TAG_NAME_MAX (tag_name l2) (len l2) = Undef).
    { intros l2 E2. unfold terminate.
      assert (Hin : in_bounds (len l2) TAG_NAME_MAX = false).
      { unfold in_bounds. rewrite E2, Hlen1, Hfull, Z.ltb_irrefl.
        apply andb_false_r. }
      now rewrite Hin. }
    destruct (Ascii.eqb t LF) eqn:Hlf.
    + unfold next_line. destruct (int_incr (line l1)) as [n|]; [|reflexivity].
      cbn [bind]. destruct Ht as [Ht| ->]; [|discriminate Hlf].
      rewrite Ht. rewrite Hout by reflexivity. reflexivity.
    + cbn [bind]. destruct Ht as [Ht| ->].
      * rewrite Ht, Hout by reflexivity. reflexivity.
      * change (is_blank_or_newline RBRACKET) with false.
        change (Ascii.eqb RBRACKET RBRACKET) with true. cbv iota.
        rewrite Hout by reflexivity. reflexivity.
  - intros c Hc.
    destruct (scan_tag_name name (String c rest) l w Hst Hname)
      as (l1 & E & Hst1 & Hlen1 & Htake1 & Hnamed & Hline & Hl1); [lia|].
    rewrite E.
    apply tag_name_char_tests in Hc as (Hb & Hr & Hnul & Hlf).
    rewrite scan_cons by exact Hnul.
    unfold step. rewrite Hst1. unfold case_TAGNAME.
    rewrite Hb, Hlf, Hr, andb_false_r. cbn [bind].
    assert (Hmax : (TAG_NAME_MAX <=? len l1) = true) by (apply Z.leb_le; lia).
    rewrite Hmax. unfold fail. rewrite Hl1; [reflexivity|].
    intros ->. unfold TAG_NAME_MAX in Hfull. discriminate Hfull.
Qed.

End TagNames.

(** ** Properties *)

Lemma prop_name_char_tests (c : ascii) :
  is_prop_name_char c = true ->
  Ascii.eqb c SPACE = false /\ Ascii.eqb c RBRACKET = false /\
  Ascii.eqb c LF = false /\ is_blank_or_newline c = false /\
  Ascii.eqb c EQUALS = false /\ Ascii.eqb c NUL = false.
Proof.
  destruct c as [[] [] [] [] [] [] [] []]; intros H;
    first [discriminate H | repeat split].
Qed.

Lemma set_nth_twice {A : Type} (d v x : A) (n : nat) (l : list A) :
  set_nth d n v (set_nth d n x l) = set_nth d n v l.
Proof.
  revert l. induction n as [|n IH]; intros [|y t]; cbn; auto; now rewrite IH.
Qed.

Lemma aset_twice {A : Type} (d v x : A) (i : Z) (l : list A) :
  aset d i v (aset d i x l) = aset d i v l.
Proof. apply set_nth_twice. Qed.

Lemma aget_at_end {A : Type} (d : A) (l : list A) :
  aget d (Z.of_nat (length l)) l = d.
Proof. unfold aget. rewrite Nat2Z.id. apply nth_at_end. Qed.

Lemma aget_last {A : Type} (d x : A) (l : list A) :
  aget d (Z.of_nat (length l)) (l ++ [x])%list = x.
Proof. unfold aget. rewrite Nat2Z.id. apply nth_last. Qed.

Lemma aset_at_end {A : Type} (d v : A) (l : list A) :
  aset d (Z.of_nat (length l)) v l = (l ++ [v])%list.
Proof. unfold aset. rewrite Nat2Z.id. apply set_nth_at_end. Qed.

Lemma aset_last {A : Type} (d v x : A) (l : list A) :
  aset d (Z.of_nat (length l)) v (l ++ [x])%list = (l ++ [v])%list.
Proof. unfold aset. rewrite Nat2Z.id. apply set_nth_last. Qed.

Section Properties.

Variable PROP_MAX : Z.
Variable W : Type.
Variable callback :
  string -> Z -> option (list string) -> option (list string) -> Z -> W ->
  result (bool * W).

Lemma step_key_char (c next : ascii) (pn : list string)
      (p : string) (l : locals) (w : W) :
  st l = ST_PROPNAME ->
  prop_count l = Z.of_nat (length pn) -> prop_count l < PROP_MAX ->
  len l = Z.of_nat (String.length p) ->
  (prop_name l = pn /\ p = EmptyString \/ prop_name l = (pn ++ [p])%list) ->
  is_prop_name_char c = true ->
  Z.of_nat (String.length p) < PROP_NAME_MAX ->
  step PROP_MAX W callback c next l w
  = Ok (Continue (key_so_far pn (p ++ String c EmptyString) l) w false).
Proof.
  intros Hst Hpc Hmax Hlen Hrow Hc Hroom.
  apply prop_name_char_tests in Hc as Ht.
  destruct Ht as (Hsp & Hrb & Hlf & Hbl & Heq & Hnul).
  unfold step. rewrite Hst. unfold case_PROPNAME.
  assert (E1 : (prop_count l =? PROP_MAX) = false) by (apply Z.eqb_neq; lia).
  rewrite E1, Hsp, Hrb, Hlf, Hbl, Heq, Hc. rewrite !andb_false_r. cbn [bind].
  rewrite !andb_false_r.
  assert (E2 : (PROP_NAME_MAX <=? len l) = false) by (apply Z.leb_gt; lia).
  rewrite E2.
  assert (E3 : in_bounds (prop_count l) PROP_MAX = true) by (apply in_bounds_iff; lia).
  rewrite E3. unfold poke.
  assert (E4 : in_bounds (len l) PROP_NAME_MAX = true) by (apply in_bounds_iff; lia).
  rewrite E4.
  assert (Erow : take (len l) (aget EmptyString (prop_count l) (prop_name l)) = p
                 /\ aset EmptyString (prop_count l) (p ++ String c EmptyString)
                         (prop_name l)
                    = (pn ++ [(p ++ String c EmptyString)%string])%list).
  { rewrite Hpc. destruct Hrow as [(Hn & ->)|Hn]; rewrite Hn.
    - rewrite aget_at_end, aset_at_end. split; [|reflexivity].
      rewrite Hlen. apply take_0.
    - rewrite aget_last, aset_last, Hlen. split; [apply take_whole|reflexivity]. }
  destruct Erow as (Et & Ea). rewrite Et. cbn [bind]. rewrite Ea.
  unfold key_so_far. rewrite string_length_app. cbn [String.length].
  replace (Z.of_nat (String.length p + 1)) with (len l + 1) by lia.
  reflexivity.
Qed.

Lemma scan_key_chars (s : string) :
  forall (rest : string) (pn : list string) (p : string) (l : locals) (w : W),
    s <> EmptyString ->
    st l = ST_PROPNAME ->
    prop_count l = Z.of_nat (length pn) -> prop_count l < PROP_MAX ->
    len l = Z.of_nat (String.length p) ->
    (prop_name l = pn /\ p = EmptyString \/ prop_name l = (pn ++ [p])%list) ->
    all_chars is_prop_name_char s = true ->
    Z.of_nat (String.length p) + Z.of_nat (String.length s) <= PROP_NAME_MAX ->
    scan PROP_MAX W callback (s ++ rest) l w
    = scan PROP_MAX W callback rest (key_so_far pn (p ++ s) l) w.
Proof.
  induction s as [|c s IH]; intros rest pn p l w Hne Hst Hpc Hmax Hlen Hrow Hs Hroom;
    [congruence|].
  cbn [all_chars] in Hs. apply andb_true_iff in Hs as (Hc & Hs).
  cbn [String.length] in Hroom.
  cbn [append]. rewrite scan_cons by (apply prop_name_char_tests in Hc; tauto).
  rewrite (step_key_char c _ pn p) by (auto; lia).
  destruct s as [|d s'].
  - reflexivity.
  - rewrite (IH rest pn (p ++ String c EmptyString));
      [ | discriminate | exact Hst | exact Hpc | exact Hmax | reflexivity
        | right; reflexivity | exact Hs | ].
    + unfold key_so_far. cbn. rewrite string_app_assoc. reflexivity.
    + rewrite string_length_app. cbn [String.length] in *. lia.
Qed.

(** The name of a property, the sign that ends it and the quote that
    opens the value. *)
Lemma scan_key (key rest : string) (pn pv : list string) (l : locals) (w : W) :
  st l = ST_PROPNAME -> len l = 0 -> tables pn pv l -> prop_count l < PROP_MAX ->
  key_ok key = true ->
  scan PROP_MAX W callback (key ++ "=" ++ Q ++ rest) l w
  = scan PROP_MAX W callback rest
         (set_len 0 (set_st ST_PROPVALUE_BODY (set_prop_name (pn ++ [key]) l))) w.
Proof.
  intros Hst Hlen (Hpn & Hpv & Hlens & Hpc) Hmax Hkey.
  unfold key_ok in Hkey. apply andb_true_iff in Hkey as (Hkey & Hroom).
  apply andb_true_iff in Hkey as (Hne & Hchars). apply Z.ltb_lt in Hroom.
  rewrite (scan_key_chars key _ pn EmptyString);
    [ | destruct key; [discriminate Hne | discriminate] | exact Hst | exact Hpc
      | exact Hmax | exact Hlen | left; auto | exact Hchars
      | cbn [String.length]; lia ].
  unfold Q. cbn [append]. rewrite scan_cons by reflexivity.
  unfold step, key_so_far. cbn [st set_len set_prop_name]. rewrite Hst.
  unfold case_PROPNAME.
  cbn [prop_count len line prop_name set_len set_prop_name].
  assert (E1 : (prop_count l =? PROP_MAX) = false) by (apply Z.eqb_neq; lia).
  rewrite E1.
  change (Ascii.eqb "=" SPACE) with false. change (Ascii.eqb "=" RBRACKET) with false.
  change (Ascii.eqb "=" LF) with false. change (is_blank_or_newline "=") with false.
  change (Ascii.eqb "=" EQUALS) with true.
  rewrite !andb_false_r. cbn [bind]. rewrite !andb_false_r, andb_true_r.
  cbn [prop_count len line prop_name set_len set_prop_name].
  assert (E2 : (0 <? Z.of_nat (String.length key)) = true).
  { apply Z.ltb_lt. destruct key; [discriminate Hne | cbn [String.length]; lia]. }
  rewrite E2.
  assert (E3 : in_bounds (prop_count l) PROP_MAX = true) by (apply in_bounds_iff; lia).
  rewrite E3. unfold terminate.
  assert (E4 : in_bounds (Z.of_nat (String.length key)) PROP_NAME_MAX = true)
    by (apply in_bounds_iff; lia).
  rewrite E4, Hpc, aget_last, take_whole. cbn [bind]. rewrite aset_last.
  rewrite scan_cons by reflexivity.
  unfold step. cbn [st set_len set_st set_prop_name]. unfold case_PROPVALUE_QUOTE.
  reflexivity.
Qed.

(** *** Values *)

Lemma escape_is_value_text (v : string) :
  all_chars (fun c => negb (Ascii.eqb c NUL)) v = true ->
  value_text (escape v) = true /\ decode (escape v) = v.
Proof.
  induction v as [|c v IH]; intros H; [split; reflexivity|].
  cbn [all_chars] in H. apply andb_true_iff in H as (Hc & Hv).
  apply negb_true_iff in Hc. destruct (IH Hv) as (IH1 & IH2).
  cbn [escape].
  destruct (Ascii.eqb c DQUOTE) eqn:Eq; [|destruct (Ascii.eqb c BACKSLASH) eqn:Eb].
  - apply Ascii.eqb_eq in Eq. subst c. cbn. rewrite IH1, IH2. auto.
  - apply Ascii.eqb_eq in Eb. subst c. cbn. rewrite IH1, IH2. auto.
  - cbn [orb value_text decode]. rewrite Hc, Eq, Eb, IH1, IH2. auto.
Qed.

Lemma stored_keeps (s : string) :
  forall l,
    st (stored s l) = st l /\ line (stored s l) = line l /\
    prop_count (stored s l) = prop_count l /\ tag_name (stored s l) = tag_name l /\
    prop_name (stored s l) = prop_name l /\ error_msg (stored s l) = error_msg l /\
    error_line (stored s l) = error_line l /\
    forall v, aset EmptyString (prop_count l) v (prop_val (stored s l))
              = aset EmptyString (prop_count l) v (prop_val l).
Proof.
  induction s as [|c s IH]; intros l; cbn [stored].
  - repeat split.
  - destruct (IH (value_extended c l)) as (H1 & H2 & H3 & H4 & H5 & H6 & H7 & H8).
    rewrite H1, H2, H3, H4, H5, H6, H7. repeat split.
    intros v. cbn [value_extended prop_count set_len set_prop_val] in H8.
    rewrite H8. cbn [value_extended prop_val set_len set_prop_val].
    apply aset_twice.
Qed.

(** The text of a value, written with its escapes, and the quote that
    closes it. *)
Lemma scan_written_value (v rest : string) (pv : list string) (l : locals) (w : W) :
  st l = ST_PROPVALUE_BODY -> len l = 0 ->
  prop_val l = pv -> prop_count l = Z.of_nat (length pv) -> prop_count l < PROP_MAX ->
  value_ok v = true ->
  scan PROP_MAX W callback (escape v ++ Q ++ rest) l w
  = scan PROP_MAX W callback rest
         (mkLocals ST_PROPNAME (line l) 0 (prop_count l + 1) (tag_name l)
                   (prop_name l) (pv ++ [v]) (error_msg l) (error_line l)) w.
Proof.
  intros Hst Hlen Hpv Hpc Hmax Hv.
  unfold value_ok in Hv. apply andb_true_iff in Hv as (Hchars & Hroom).
  apply Z.ltb_lt in Hroom.
  destruct (escape_is_value_text v Hchars) as (Htext & Hdec).
  assert (Hfilled : row_filled l) by (unfold row_filled; rewrite Hlen; cbn; lia).
  rewrite (scan_value PROP_MAX W callback (escape v) (Q ++ rest) l w Htext Hst)
    by (rewrite ?Hdec; first [exact Hfilled | lia]).
  rewrite Hdec.
  destruct (stored_fields v l) as (_ & _ & _ & Slen & _ & Sso); [lia|exact Hfilled|].
  destruct (stored_keeps v l) as (K1 & K2 & K3 & K4 & K5 & K6 & K7 & K8).
  unfold Q. cbn [append]. rewrite scan_cons by reflexivity.
  unfold step. rewrite K1, Hst. unfold case_PROPVALUE_BODY.
  change (Ascii.eqb DQUOTE BACKSLASH) with false.
  change (Ascii.eqb DQUOTE DQUOTE) with true. cbv iota.
  rewrite K3.
  assert (E3 : in_bounds (prop_count l) PROP_MAX = true) by (apply in_bounds_iff; lia).
  rewrite E3. unfold terminate.
  assert (E4 : in_bounds (len (stored v l)) PROP_VALUE_MAX = true)
    by (apply in_bounds_iff; lia).
  rewrite E4. cbn [bind].
  assert (Erow : take (len (stored v l))
                      (aget EmptyString (prop_count l) (prop_val (stored v l))) = v).
  { rewrite <- K3.
    change (take (len (stored v l)) (aget EmptyString (prop_count (stored v l))
                                          (prop_val (stored v l))))
      with (value_so_far (stored v l)).
    rewrite Sso. unfold value_so_far. rewrite Hlen, take_0. reflexivity. }
  rewrite Erow, K8, Hpv, Hpc, aset_at_end.
  unfold set_len, set_st, set_prop_count, set_prop_val.
  cbn [st line len prop_count tag_name prop_name prop_val error_msg error_line].
  rewrite K2, K3, K4, K5, K6, K7, <- Hpc. reflexivity.
Qed.

(** *** A property, and the properties of a tag *)

Lemma with_prop_tables (key v : string) (pn pv : list string) (l : locals) :
  tables pn pv l -> tables (pn ++ [key]) (pv ++ [v]) (with_prop key v l).
Proof.
  intros (Hpn & Hpv & Hlens & Hpc). unfold tables, with_prop.
  cbn [prop_name prop_val prop_count]. rewrite Hpn, Hpv, Hpc, !length_app.
  cbn [length]. repeat split; lia.
Qed.

Lemma scan_prop_body (kv : string * string) (rest : string) (pn pv : list string)
      (l : locals) (w : W) :
  st l = ST_PROPNAME -> len l = 0 -> tables pn pv l -> prop_count l < PROP_MAX ->
  prop_ok kv = true ->
  scan PROP_MAX W callback
       (fst kv ++ "=" ++ Q ++ escape (snd kv) ++ Q ++ rest) l w
  = scan PROP_MAX W callback rest (with_prop (fst kv) (snd kv) l) w.
Proof.
  intros Hst Hlen Ht Hmax Hok.
  unfold prop_ok in Hok. apply andb_true_iff in Hok as (Hkey & Hval).
  rewrite (scan_key (fst kv) _ pn pv l w Hst Hlen Ht Hmax Hkey).
  destruct Ht as (Hpn & Hpv & Hlens & Hpc).
  rewrite (scan_written_value (snd kv) rest pv);
    [ | reflexivity | reflexivity | exact Hpv
      | cbn [prop_count set_len set_st set_prop_name]; lia
      | exact Hmax | exact Hval ].
  unfold with_prop. cbn. rewrite Hpn, Hpv. reflexivity.
Qed.

Lemma write_prop_app (kv : string * string) (rest : string) :
  write_prop kv ++ rest
  = String SPACE (fst kv ++ "=" ++ Q ++ escape (snd kv) ++ Q ++ rest).
Proof.
  unfold write_prop. rewrite !string_app_assoc. reflexivity.
Qed.

Lemma with_props_fields (props : list (string * string)) :
  forall (pn pv : list string) (l : locals),
    st l = ST_PROPNAME -> len l = 0 -> tables pn pv l ->
    with_props props l
    = mkLocals ST_PROPNAME (line l) 0 (prop_count l + Z.of_nat (length props))
               (tag_name l) (pn ++ map fst props) (pv ++ map snd props)
               (error_msg l) (error_line l).
Proof.
  induction props as [|kv props IH]; intros pn pv l Hst Hlen Ht.
  - destruct Ht as (Hpn & Hpv & _ & _). destruct l. cbn in *. subst.
    now rewrite !app_nil_r, Z.add_0_r.
  - cbn [with_props].
    rewrite (IH (pn ++ [fst kv])%list (pv ++ [snd kv])%list);
      [ | reflexivity | reflexivity | apply with_prop_tables; exact Ht ].
    unfold with_prop. cbn [line prop_count tag_name error_msg error_line map length].
    rewrite <- !app_assoc. cbn [app]. f_equal. lia.
Qed.

Lemma scan_props (props : list (string * string)) :
  forall (rest : string) (pn pv : list string) (l : locals) (w : W),
    st l = ST_PROPNAME -> len l = 0 -> tables pn pv l ->
    prop_count l + Z.of_nat (length props) <= PROP_MAX ->
    forallb prop_ok props = true ->
    scan PROP_MAX W callback (write_props props ++ rest) l w
    = scan PROP_MAX W callback rest (with_props props l) w.
Proof.
  induction props as [|kv props IH]; intros rest pn pv l w Hst Hlen Ht Hmax Hok.
  - reflexivity.
  - cbn [forallb] in Hok. apply andb_true_iff in Hok as (Hkv & Hok).
    cbn [length] in Hmax.
    cbn [write_props with_props]. rewrite string_app_assoc, write_prop_app.
    rewrite scan_cons by reflexivity.
    unfold step. rewrite Hst. unfold case_PROPNAME.
    assert (E1 : (prop_count l =? PROP_MAX) = false) by (apply Z.eqb_neq; lia).
    rewrite E1, Hlen. cbn [Z.eqb andb]. change (Ascii.eqb SPACE SPACE) with true.
    cbv iota.
    rewrite (scan_prop_body kv _ pn pv l w Hst Hlen Ht) by (auto; lia).
    apply (IH rest (pn ++ [fst kv])%list (pv ++ [snd kv])%list);
      [ reflexivity | reflexivity | apply with_prop_tables; exact Ht
        | cbn [with_prop prop_count]; lia | exact Hok ].
Qed.

(** A tag with its properties, up to its closing bracket. *)
Lemma scan_tag_to_bracket (name rest : string) (props : list (string * string))
        (pn pv : list string) (l : locals) (w : W) :
  st l = ST_INIT -> tables pn pv l ->
  name_ok name = true -> props <> [] -> forallb prop_ok props = true ->
  prop_count l + Z.of_nat (length props) <= PROP_MAX ->
  scan PROP_MAX W callback (write_tag name props ++ rest) l w
  = scan PROP_MAX W callback ("]" ++ rest)
         (with_props props (set_len 0 (set_st ST_PROPNAME (set_tag_name name l)))) w.
Proof.
  intros Hst Ht Hname Hne Hok Hmax.
  unfold name_ok in Hname. apply andb_true_iff in Hname as (Hname & Hroom).
  apply andb_true_iff in Hname as (Hnz & Hchars). apply Z.ltb_lt in Hroom.
  destruct props as [|kv props]; [congruence|].
  cbn [forallb] in Hok. apply andb_true_iff in Hok as (Hkv & Hok).
  cbn [length] in Hmax.
  unfold write_tag. cbn [write_props].
  replace (("[" ++ name ++ (write_prop kv ++ write_props props) ++ "]") ++ rest)
    with ("[" ++ name ++ String SPACE
              (fst kv ++ "=" ++ Q ++ escape (snd kv) ++ Q
                      ++ write_props props ++ "]" ++ rest)).
  2:{ rewrite !string_app_assoc, write_prop_app. reflexivity. }
  destruct (scan_tag_name PROP_MAX W callback name
              (String SPACE (fst kv ++ "=" ++ Q ++ escape (snd kv) ++ Q
                                    ++ write_props props ++ "]" ++ rest))
              l w Hst Hchars)
    as (l1 & E & Hst1 & Hlen1 & Htake1 & Hnamed & Hline & Hl1); [lia|].
  rewrite E. rewrite Hl1 by (destruct name; [discriminate Hnz | discriminate]).
  clear E Hst1 Hlen1 Htake1 Hnamed Hline Hl1 l1.
  rewrite scan_cons by reflexivity.
  unfold step. cbn [st set_st]. unfold case_TAGNAME.
  assert (E0 : (len (set_st ST_TAGNAME (named name l)) =? 0) = false).
  { apply Z.eqb_neq. cbn. destruct name; [discriminate Hnz | cbn [String.length]; lia]. }
  rewrite E0. cbn [andb]. change (Ascii.eqb SPACE LF) with false. cbv iota.
  cbn [bind]. change (is_blank_or_newline SPACE) with true. cbv iota.
  unfold terminate.
  assert (Ein : in_bounds (len (set_st ST_TAGNAME (named name l))) TAG_NAME_MAX = true)
    by (apply in_bounds_iff; cbn; lia).
  rewrite Ein. cbn [bind].
  assert (Etake : take (len (set_st ST_TAGNAME (named name l)))
                       (tag_name (set_st ST_TAGNAME (named name l))) = name)
    by (cbn; apply take_whole).
  rewrite Etake.
  set (lb := set_len 0 (set_st ST_PROPNAME (set_tag_name name l))).
  change (set_len 0 (set_st ST_PROPNAME
                       (set_tag_name name (set_st ST_TAGNAME (named name l)))))
    with lb.
  assert (Htb : tables pn pv lb).
  { destruct Ht as (Hpn & Hpv & Hlens & Hpc). unfold tables. subst lb. cbn. auto. }
  assert (Hpcb : prop_count lb = prop_count l) by reflexivity.
  assert (Hpos : 0 <= Z.of_nat (length props)) by lia.
  rewrite (scan_prop_body kv _ pn pv lb w) by (auto; lia).
  rewrite (scan_props props ("]" ++ rest) (pn ++ [fst kv])%list (pv ++ [snd kv])%list);
    [ | reflexivity | reflexivity | apply with_prop_tables; exact Htb
      | cbn [with_prop prop_count]; lia | exact Hok ].
  reflexivity.
Qed.

(** The closing bracket of a tag with properties. *)
Lemma scan_tag_props (name rest : string) (props : list (string * string))
        (pn pv : list string) (l : locals) (w : W) :
  st l = ST_INIT -> tables pn pv l ->
  name_ok name = true -> props <> [] -> forallb prop_ok props = true ->
  prop_count l + Z.of_nat (length props) < PROP_MAX ->
  scan PROP_MAX W callback (write_tag name props ++ rest) l w
  = (r <- callback name (Z.of_nat (length pn + length props))
                   (Some (pn ++ map fst props)%list)
                   (Some (pv ++ map snd props)%list) (line l) w;;
     let l' := with_props props (set_len 0 (set_st ST_PROPNAME (set_tag_name name l))) in
     if fst r
     then scan PROP_MAX W callback rest (set_st ST_INIT l') (snd r)
     else Ok (Returned false (set_error "Internal error." l') (snd r))).
Proof.
  intros Hst Ht Hname Hne Hok Hmax.
  rewrite (scan_tag_to_bracket name rest props pn pv l w Hst Ht Hname Hne Hok)
    by lia.
  set (lb := set_len 0 (set_st ST_PROPNAME (set_tag_name name l))).
  assert (Htb : tables pn pv lb).
  { destruct Ht as (Hpn & Hpv & Hlens & Hpc). unfold tables. subst lb. cbn. auto. }
  assert (Hpcb : prop_count lb = prop_count l) by reflexivity.
  cbv zeta.
  rewrite (with_props_fields props pn pv lb) by (auto; reflexivity).
  cbn [append]. rewrite scan_cons by reflexivity.
  unfold step. cbn [st]. unfold case_PROPNAME. cbn [prop_count len].
  destruct Ht as (Hpn & Hpv & Hlens & Hpc).
  assert (E1 : (prop_count lb + Z.of_nat (length props) =? PROP_MAX) = false)
    by (apply Z.eqb_neq; lia).
  rewrite E1. cbn [Z.eqb andb]. change (Ascii.eqb "]" SPACE) with false.
  change (Ascii.eqb "]" RBRACKET) with true. cbv iota.
  cbn [tag_name prop_name prop_val line].
  replace (prop_count lb + Z.of_nat (length props))
    with (Z.of_nat (length pn + length props)) by (rewrite Hpcb, Hpc; lia).
  change (tag_name lb) with name. change (line lb) with (line l).
  destruct (callback name (Z.of_nat (length pn + length props))
                     (Some (pn ++ map fst props)%list)
                     (Some (pv ++ map snd props)%list) (line l) w)
    as [[ok w1]|]; [|reflexivity].
  cbn [bind fst snd]. destruct ok; reflexivity.
Qed.

(** The closing bracket of a tag whose last property fills the tables. *)
Lemma scan_tag_props_full (name rest : string) (props : list (string * string))
        (pn pv : list string) (l : locals) (w : W) :
  st l = ST_INIT -> tables pn pv l ->
  name_ok name = true -> props <> [] -> forallb prop_ok props = true ->
  prop_count l + Z.of_nat (length props) = PROP_MAX ->
  scan PROP_MAX W callback (write_tag name props ++ rest) l w
  = Ok (Returned false
          (set_error "Too many properties."
             (with_props props (set_len 0 (set_st ST_PROPNAME (set_tag_name name l)))))
          w).
Proof.
  intros Hst Ht Hname Hne Hok Hmax.
  rewrite (scan_tag_to_bracket name rest props pn pv l w Hst Ht Hname Hne Hok)
    by lia.
  set (lb := set_len 0 (set_st ST_PROPNAME (set_tag_name name l))).
  assert (Htb : tables pn pv lb).
  { destruct Ht as (Hpn & Hpv & Hlens & Hpc). unfold tables. subst lb. cbn. auto. }
  assert (Hpcb : prop_count lb = prop_count l) by reflexivity.
  rewrite (with_props_fields props pn pv lb) by (auto; reflexivity).
  cbn [append]. rewrite scan_cons by reflexivity.
  unfold step. cbn [st]. unfold case_PROPNAME. cbn [prop_count].
  assert (E1 : (prop_count lb + Z.of_nat (length props) =? PROP_MAX) = true)
    by (apply Z.eqb_eq; lia).
  rewrite E1. reflexivity.
Qed.

(** X8.  A tag written with its properties: an opening bracket, the
    name, then for each property a space, the name of the property, the
    equals sign and the value between quotes with its quotes and
    backslashes escaped, then the closing bracket.  The callback is
    called once, with the name of the tag and the current line.  The two
    tables it receives hold the names and the decoded values of these
    properties after those of the properties read earlier in the same
    document, and the count it receives is the length of the tables:
    the property counter is not set back to 0 between two tags.  When
    the callback refuses, the tokenizer returns false with the message
    of the internal error. *)
Theorem tag_with_properties (name rest : string) (props : list (string * string))
        (pn pv : list string) (l : locals) (w : W) :
  st l = ST_INIT -> tables pn pv l ->
  name_ok name = true -> props <> [] -> forallb prop_ok props = true ->
  prop_count l + Z.of_nat (length props) < PROP_MAX ->
  scan PROP_MAX W callback (write_tag name props ++ rest) l w
  = (r <- callback name (Z.of_nat (length pn + length props))
                   (Some (pn ++ map fst props)%list)
                   (Some (pv ++ map snd props)%list) (line l) w;;
     let l' := with_props props (set_len 0 (set_st ST_PROPNAME (set_tag_name name l))) in
     if fst r
     then scan PROP_MAX W callback rest (set_st ST_INIT l') (snd r)
     else Ok (Returned false (set_error "Internal error." l') (snd r))).
Proof. apply scan_tag_props. Qed.

End Properties.

(** ** Written documents *)

Lemma rows_all_from (a pre : list string) :
  map (fun k => nth k (pre ++ a)%list EmptyString) (seq (length pre) (length a)) = a.
Proof.
  revert pre. induction a as [|x a IH]; intros pre; [reflexivity|].
  cbn [length seq map]. rewrite app_nth2, Nat.sub_diag by lia. cbn [nth]. f_equal.
  specialize (IH (pre ++ [x])%list).
  rewrite <- app_assoc, length_app in IH. cbn [app length] in IH.
  rewrite Nat.add_1_r in IH. exact IH.
Qed.

(** The rows that a table of [n] entries gives access to are its
    entries. *)
Lemma rows_all (a : list string) :
  rows (Some a) 0 (Z.to_nat (Z.of_nat (length a))) = a.
Proof.
  unfold rows. rewrite Nat2Z.id.
  transitivity (map (fun k => nth k ([] ++ a)%list EmptyString)
                    (seq (length (@nil string)) (length a)));
    [|apply rows_all_from].
  apply map_ext. intros k. unfold aget. now rewrite Z.add_0_l, Nat2Z.id.
Qed.

Section WrittenDocuments.

Variable PROP_MAX : Z.
Variable W : Type.
Variable callback :
  string -> Z -> option (list string) -> option (list string) -> Z -> W ->
  result (bool * W).

(** A callback that accepts a tag and adds it to what it holds, as long
    as it holds fewer than [bound] tags. *)
Variable holding : W -> list event -> Prop.
Variable bound : Z.
Hypothesis accepts :
  forall name props pn pv ln w evs,
    holding w evs -> Z.of_nat (length evs) < bound ->
    0 <= props <= PROP_MAX ->
    (props = 0 \/ exists a b, pn = Some a /\ pv = Some b) ->
    exists w',
      callback name props pn pv ln w = Ok (true, w') /\
      holding w' (evs ++ [mkEvent name props (rows pn 0 (Z.to_nat props))
                                  (rows pv 0 (Z.to_nat props)) ln])%list.

Lemma scan_written_doc (tags : list written_tag) :
  forall (l : locals) (w : W) (evs : list event) (pn pv : list string),
    st l = ST_INIT -> tables pn pv l -> holding w evs ->
    forallb tag_ok tags = true ->
    prop_count l + Z.of_nat (total_props tags) < PROP_MAX ->
    line l + Z.of_nat (length tags) <= INT_MAX ->
    Z.of_nat (length evs) + Z.of_nat (length tags) <= bound ->
    exists l' w',
      (forall rest,
          scan PROP_MAX W callback (write_doc tags ++ rest) l w
          = scan PROP_MAX W callback rest l' w') /\
      st l' = ST_INIT /\ error_msg l' = error_msg l /\ error_line l' = error_line l /\
      line l' = line l + Z.of_nat (length tags) /\
      tables (pn ++ all_keys tags) (pv ++ all_values tags) l' /\
      holding w' (evs ++ events_of tags pn pv (line l))%list.
Proof.
  induction tags as [|[name props] tags IH];
    intros l w evs pn pv Hst Ht Hw Hok Hmax Hline Hbound.
  - exists l, w. cbn [write_doc events_of all_keys all_values flat_map length Z.of_nat].
    rewrite !app_nil_r, Z.add_0_r.
    split; [intros rest; reflexivity|]. repeat split; auto; apply Ht.
  - cbn [forallb] in Hok. apply andb_true_iff in Hok as (Htag & Hok).
    unfold tag_ok in Htag. cbn [fst snd] in Htag.
    apply andb_true_iff in Htag as (Hname & Hprops).
    cbn [total_props length snd] in Hmax, Hline, Hbound.
    cbn [write_doc events_of fst snd].
    assert (Hpc0 : 0 <= prop_count l) by (destruct Ht as (_ & _ & _ & ->); lia).
    assert (Hdoc : forall rest,
               ((write_tag name props ++ NL ++ write_doc tags) ++ rest)
               = (write_tag name props ++ String LF (write_doc tags ++ rest)))
      by (intros rest; now rewrite !string_app_assoc).
    unfold all_keys, all_values. cbn [flat_map fst snd].
    fold (all_keys tags) (all_values tags).
    destruct props as [|kv props].
    + (* no property *)
      unfold name_ok in Hname. apply andb_true_iff in Hname as (Hname & Hroom).
      apply andb_true_iff in Hname as (Hnz & Hchars). apply Z.ltb_lt in Hroom.
      destruct (accepts name 0 None None (line l) w evs Hw) as (w1 & Hcb & Hw1);
        [lia | lia | left; reflexivity |].
      set (l1 := set_line (line l + 1) (set_st ST_INIT (named name l))).
      destruct (IH l1 w1 (evs ++ [mkEvent name 0 [] [] (line l)])%list pn pv)
        as (l' & w' & E & Hst' & Hm & Hl & Hln & Htab & Hw');
        [ reflexivity
        | destruct Ht as (? & ? & ? & ?); unfold tables; subst l1; cbn; auto
        | exact Hw1 | exact Hok
        | subst l1; cbn [prop_count set_line set_st named set_len set_tag_name]; lia
        | subst l1; cbn [line set_line]; lia
        | rewrite length_app; cbn [length]; lia | ].
      exists l', w'. split.
      * intros rest. rewrite Hdoc. rewrite <- (E rest).
        unfold write_tag. cbn [write_props].
        replace ("[" ++ name ++ EmptyString ++ "]")
          with ("[" ++ name ++ "]") by reflexivity.
        rewrite !string_app_assoc.
        rewrite (scan_plain_tag PROP_MAX W callback name _ l w Hst Hchars Hroom).
        rewrite Hcb. cbn [bind fst snd append].
        rewrite scan_cons by reflexivity.
        unfold step. cbn [st set_st]. unfold case_INIT.
        change (Ascii.eqb LF LBRACKET) with false. change (Ascii.eqb LF LF) with true.
        cbv iota. unfold next_line. cbn [line set_st named set_len set_tag_name].
        rewrite int_incr_ok by lia. reflexivity.
      * split; [exact Hst'|]. split; [exact Hm|]. split; [exact Hl|].
        split; [rewrite Hln; subst l1; cbn [line set_line length]; lia|].
        split; [exact Htab|].
        rewrite <- app_assoc in Hw'. exact Hw'.
    + (* properties *)
      assert (Hcount : prop_count l + Z.of_nat (length (kv :: props)) < PROP_MAX) by lia.
      set (pn' := (pn ++ map fst (kv :: props))%list).
      set (pv' := (pv ++ map snd (kv :: props))%list).
      assert (Hlen' : length pn' = (length pn + length (kv :: props))%nat)
        by (subst pn'; now rewrite length_app, length_map).
      assert (Hlenv : length pv' = length pn').
      { subst pn' pv'. destruct Ht as (_ & _ & Hl & _).
        now rewrite !length_app, !length_map, Hl. }
      destruct (accepts name (Z.of_nat (length pn')) (Some pn') (Some pv') (line l)
                        w evs Hw) as (w1 & Hcb & Hw1);
        [ lia
        | destruct Ht as (_ & _ & _ & Hpc); rewrite Hlen'; lia
        | right; eauto |].
      rewrite rows_all in Hw1. rewrite <- Hlenv, rows_all, Hlenv in Hw1.
      set (lb := set_len 0 (set_st ST_PROPNAME (set_tag_name name l))).
      assert (Htb : tables pn pv lb).
      { destruct Ht as (? & ? & ? & ?). unfold tables. subst lb. cbn. auto. }
      set (l1 := set_line (line l + 1)
                   (set_st ST_INIT
                      (mkLocals ST_PROPNAME (line lb) 0
                         (prop_count lb + Z.of_nat (length (kv :: props)))
                         (tag_name lb) pn' pv' (error_msg lb) (error_line lb)))).
      assert (Ht1 : tables pn' pv' l1).
      { destruct Ht as (_ & _ & _ & Hpc). unfold tables. subst l1 lb.
        cbn [prop_name prop_val prop_count set_line set_st set_len set_tag_name].
        repeat split; [exact Hlenv | rewrite Hpc, Hlen'; lia]. }
      destruct (IH l1 w1 (evs ++ [mkEvent name (Z.of_nat (length pn')) pn' pv' (line l)])%list
                   pn' pv')
        as (l' & w' & E & Hst' & Hm & Hl & Hln & Htab & Hw');
        [ reflexivity
        | exact Ht1
        | exact Hw1 | exact Hok
        | subst l1 lb; cbn [prop_count set_line set_st set_len set_tag_name]; lia
        | subst l1; cbn [line set_line set_st]; lia
        | rewrite length_app; cbn [length]; lia | ].
      exists l', w'. split.
      * intros rest. rewrite Hdoc. rewrite <- (E rest).
        rewrite (scan_tag_props PROP_MAX W callback name _ (kv :: props) pn pv l w
                                Hst Ht Hname ltac:(discriminate) Hprops Hcount).
        fold pn' pv'. rewrite <- Hlen', Hcb. cbn [bind fst snd]. cbv zeta.
        fold lb.
        rewrite (with_props_fields (kv :: props) pn pv lb) by (auto; reflexivity).
        fold pn' pv'.
        rewrite scan_cons by reflexivity.
        unfold step. cbn [st set_st]. unfold case_INIT.
        change (Ascii.eqb LF LBRACKET) with false. change (Ascii.eqb LF LF) with true.
        cbv iota. unfold next_line. cbn [line set_st].
        change (line lb) with (line l).
        rewrite int_incr_ok by lia. reflexivity.
      * split; [exact Hst'|]. split; [exact Hm|]. split; [exact Hl|].
        split; [rewrite Hln; subst l1; cbn [line set_line set_st length]; lia|].
        split; [subst pn' pv'; rewrite <- !app_assoc in Htab; exact Htab|].
        rewrite <- app_assoc in Hw'. exact Hw'.
Qed.

End WrittenDocuments.

Section ReadingBack.

Variable PROP_MAX : Z.

(** X9.  A document written with one tag on each line, by the rules of
    [write_doc], is accepted, and the callback is given its tags in the
    order of the document, each with its name as written, its line, and
    the decoded values of its properties.  Because the property counter
    runs over the whole document, the tables given for a tag with
    properties start with the properties of the tags before it, and the
    properties of the whole document must number fewer than
    [PROP_MAX]. *)
Theorem written_document_is_read (tags : list written_tag) :
  forallb tag_ok tags = true ->
  Z.of_nat (total_props tags) < PROP_MAX ->
  1 + Z.of_nat (length tags) <= INT_MAX ->
  parse_tag_document PROP_MAX (list event) record_event (write_doc tags) []
  = Ok (true, None, None, events_of tags [] [] 1).
Proof.
  intros Hok Hmax Hline.
  destruct (scan_written_doc PROP_MAX (list event) record_event
              (fun w evs => w = evs) (Z.of_nat (length tags))) with
    (tags := tags) (l := initial_locals) (w := @nil event) (evs := @nil event)
    (pn := @nil string) (pv := @nil string)
    as (l' & w' & E & Hst & Hm & Hl & _ & _ & Hw);
    [ | reflexivity | repeat split | reflexivity | exact Hok | exact Hmax
      | exact Hline | cbn [length]; lia | ].
  - intros name props pn pv ln w evs -> _ _ _. eexists. split; reflexivity.
  - unfold parse_tag_document.
    rewrite <- (string_app_nil_r (write_doc tags)), (E EmptyString).
    cbn [scan bind]. rewrite Hst, Hm, Hl, Hw. reflexivity.
Qed.

Lemma write_doc_app (a b : list written_tag) :
  write_doc (a ++ b) = (write_doc a ++ write_doc b)%string.
Proof.
  induction a as [|t a IH]; cbn [app write_doc]; [reflexivity|].
  now rewrite IH, !string_app_assoc.
Qed.

Lemma all_keys_length (tags : list written_tag) :
  length (all_keys tags) = total_props tags.
Proof.
  induction tags as [|t tags IH]; [reflexivity|].
  unfold all_keys in *. cbn [flat_map total_props].
  now rewrite length_app, length_map, IH.
Qed.

(** X26.  The limit on the number of properties applies to the document
    as a whole.  In a document written by the rules of [write_doc], the
    tag whose last property is the [PROP_MAX]-th property of the
    document is refused at its closing bracket with the message of too
    many properties and its line; the tags before it have been given
    to the callback, the tag itself and the tags after it have not. *)
Theorem property_limit_is_per_document (pre post : list written_tag)
        (name : string) (props : list (string * string)) :
  forallb tag_ok pre = true ->
  name_ok name = true -> props <> [] -> forallb prop_ok props = true ->
  Z.of_nat (total_props pre + length props) = PROP_MAX ->
  1 + Z.of_nat (length pre) <= INT_MAX ->
  parse_tag_document PROP_MAX (list event) record_event
                     (write_doc (pre ++ (name, props) :: post)) []
  = Ok (false, Some "Too many properties.", Some (1 + Z.of_nat (length pre)),
        events_of pre [] [] 1).
Proof.
  intros Hpre Hname Hne Hprops Hfull Hline.
  assert (Hn : (1 <= length props)%nat) by (destruct props; [congruence | cbn; lia]).
  destruct (scan_written_doc PROP_MAX (list event) record_event
              (fun w evs => w = evs) (Z.of_nat (length pre))) with
    (tags := pre) (l := initial_locals) (w := @nil event) (evs := @nil event)
    (pn := @nil string) (pv := @nil string)
    as (l' & w' & E & Hst & Hm & Hl & Hln & Htab & Hw);
    [ | reflexivity | repeat split | reflexivity | exact Hpre
      | cbn [prop_count initial_locals]; lia
      | exact Hline | cbn [length]; lia | ].
  { intros nm ps pn pv ln w evs -> _ _ _. eexists. split; reflexivity. }
  cbn [app] in Htab, Hw. cbn [line initial_locals] in Hln, Hw.
  unfold parse_tag_document.
  rewrite write_doc_app, E. cbn [write_doc fst snd].
  assert (Hpc : prop_count l' = Z.of_nat (total_props pre)).
  { destruct Htab as (_ & _ & _ & Hpc). now rewrite Hpc, all_keys_length. }
  rewrite (scan_tag_props_full PROP_MAX (list event) record_event name _ props
             (all_keys pre) (all_values pre) l' w' Hst Htab Hname Hne Hprops)
    by (rewrite Hpc; lia).
  cbn [bind set_error error_msg error_line].
  rewrite (with_props_fields props (all_keys pre) (all_values pre)
             (set_len 0 (set_st ST_PROPNAME (set_tag_name name l'))))
    by (try reflexivity;
        destruct Htab as (? & ? & ? & ?); unfold tables; cbn; auto).
  cbn [line set_len set_st set_tag_name]. rewrite Hln, Hw. reflexivity.
Qed.

Variable load_file : string -> option string.

Lemma copy_props_defined (n : nat) :
  forall (i slot : Z) (a b : list string) (g : tagsys),
    heap g = [] -> 0 <= i -> i + Z.of_nat n <= PROP_MAX ->
    exists g', copy_props PROP_MAX n i slot (Some a) (Some b) g = Ok (true, g').
Proof.
  induction n as [|n IH]; intros i slot a b g Hh Hi Hmax.
  - eexists. reflexivity.
  - cbn [copy_props].
    assert (E : in_bounds i PROP_MAX = true) by (apply in_bounds_iff; lia).
    rewrite E. cbn [deref bind].
    rewrite strdup_never_fails by exact Hh.
    rewrite strdup_never_fails by exact Hh.
    apply IH; [exact Hh | lia | lia].
Qed.

(** With an allocator that never fails, the record builder accepts every
    tag whose properties fit the tables, as long as the table of records
    is not full. *)
Lemma parse_tag_callback_accepts name props pn pv ln g evs :
  holds g evs -> Z.of_nat (length evs) < COMMAND_MAX ->
  0 <= props <= PROP_MAX ->
  (props = 0 \/ exists a b, pn = Some a /\ pv = Some b) ->
  exists g',
    parse_tag_callback PROP_MAX name props pn pv ln g = Ok (true, g') /\
    holds g' (evs ++ [mkEvent name props (rows pn 0 (Z.to_nat props))
                              (rows pv 0 (Z.to_nat props)) ln])%list.
Proof.
  intros Hg Hroom Hprops Htabs.
  assert (E : exists g', parse_tag_callback PROP_MAX name props pn pv ln g = Ok (true, g')).
  { destruct Hg as (Hh & Htag & Hsize & Hcap).
    unfold parse_tag_callback.
    assert (E1 : (COMMAND_MAX <=? tag_size g) = false) by (apply Z.leb_gt; lia).
    assert (E2 : in_bounds (tag_size g) COMMAND_MAX = true) by (apply in_bounds_iff; lia).
    rewrite E1, E2. rewrite strdup_never_fails by exact Hh.
    match goal with
    | |- context [copy_props _ _ _ _ _ _ ?gx] =>
        assert (Hh0 : heap gx = []) by exact Hh; set (g0 := gx) in *
    end.
    destruct Htabs as [-> | (a & b & -> & ->)].
    - cbn [Z.to_nat copy_props bind]. eexists. reflexivity.
    - destruct (copy_props_defined (Z.to_nat props) 0 (tag_size g) a b g0 Hh0)
        as (g1 & ->); [lia | lia |].
      cbn [bind]. eexists. reflexivity. }
  destruct E as (g' & E). exists g'. split; [exact E|].
  eapply parse_tag_callback_records; eassumption.
Qed.

(** X10.  Loading, into a process whose store is empty and whose
    allocator does not fail, a file that holds a document written by
    the rules of [write_doc] with at most 65536 tags, under a name that
    the caller keeps in storage of its own: [load_tag_file] returns
    true, the store holds one record for each tag, in the order of the
    document, and the cursor is at 0. *)
Theorem written_document_is_loaded (file : string) (tags : list written_tag)
        (g : tagsys) :
  holds g [] ->
  load_file file = Some (write_doc tags) ->
  forallb tag_ok tags = true ->
  Z.of_nat (total_props tags) < PROP_MAX ->
  Z.of_nat (length tags) <= COMMAND_MAX ->
  exists g',
    load_tag_file PROP_MAX load_file (Outside file) g = Ok (true, g') /\
    holds g' (events_of tags [] [] 1) /\
    cur_index g' = 0.
Proof.
  intros Hg Hfile Hok Hmax Hcap.
  set (g0 := set_cur_file (take 1023 file) (set_cur_file EmptyString (set_cur_index 0 g))).
  assert (Hg0 : holds g0 []) by (destruct Hg as (? & ? & ? & ?); repeat split; auto).
  destruct (scan_written_doc PROP_MAX tagsys (parse_tag_callback PROP_MAX)
              holds COMMAND_MAX) with
    (tags := tags) (l := initial_locals) (w := g0) (evs := @nil event)
    (pn := @nil string) (pv := @nil string)
    as (l' & g' & E & Hst & Hm & Hl & _ & _ & Hw);
    [ | reflexivity | repeat split | exact Hg0 | exact Hok | exact Hmax
      | unfold INT_MAX, COMMAND_MAX in *; cbn [line initial_locals]; lia
      | cbn [length]; lia | ].
  - intros name props pn pv ln w evs. apply parse_tag_callback_accepts.
  - exists g'. cbn [app] in Hw.
    assert (Escan : scan PROP_MAX tagsys (parse_tag_callback PROP_MAX)
                         (write_doc tags) initial_locals g0 = Ok (AtEnd l' g')).
    { rewrite <- (string_app_nil_r (write_doc tags)), (E EmptyString). reflexivity. }
    assert (Hext : extends g0 g') by (apply (scan_extends _ _ _ _ _ Escan)).
    destruct Hext as (Hci & _).
    split; [|split; [exact Hw|rewrite Hci; reflexivity]].
    rewrite load_tag_file_outside. rewrite Hfile. unfold cleanup_tag.
    destruct Hg as (_ & _ & Hsize & _). cbn [tag_size set_cur_file set_cur_index].
    rewrite Hsize. cbn [length Z.of_nat Z.to_nat for_loop bind].
    fold g0. unfold parse_tag_document. rewrite Escan. cbn [bind]. rewrite Hst.
    reflexivity.
Qed.

End ReadingBack.

(** ** Capacities and skipped characters *)

Section Capacities.

Variable PROP_MAX : Z.
Variable W : Type.
Variable callback :
  string -> Z -> option (list string) -> option (list string) -> Z -> W ->
  result (bool * W).

(** X11.  A row of the table of property names has 128 cells.  When a
    name of exactly 128 characters is followed by the equals sign, its
    terminator is stored in cell 128, past the end of the row; any other
    character that follows it, whatever it is, is refused with the
    message of the property name too long. *)
Theorem prop_name_capacity (key rest : string) (pn pv : list string)
        (l : locals) (w : W) :
  st l = ST_PROPNAME -> len l = 0 -> tables pn pv l -> prop_count l < PROP_MAX ->
  all_chars is_prop_name_char key = true ->
  Z.of_nat (String.length key) = PROP_NAME_MAX ->
  scan PROP_MAX W callback (key ++ String EQUALS rest) l w = Undef /\
  (forall c, c <> EQUALS -> c <> NUL ->
     scan PROP_MAX W callback (key ++ String c rest) l w
     = Ok (Returned false
             (set_error "Property name too long." (key_so_far pn key l)) w)).
Proof.
  intros Hst Hlen (Hpn & Hpv & Hlens & Hpc) Hmax Hchars Hfull.
  assert (Hne : key <> EmptyString)
    by (intros ->; unfold PROP_NAME_MAX in Hfull; discriminate Hfull).
  assert (E : forall tail,
             scan PROP_MAX W callback (key ++ tail) l w
             = scan PROP_MAX W callback tail (key_so_far pn key l) w).
  { intros tail.
    rewrite (scan_key_chars PROP_MAX W callback key tail pn EmptyString);
      [ reflexivity | exact Hne | exact Hst | exact Hpc | exact Hmax | exact Hlen
        | left; auto | exact Hchars | cbn [String.length]; lia ]. }
  assert (E1 : (prop_count l =? PROP_MAX) = false) by (apply Z.eqb_neq; lia).
  assert (E0 : (Z.of_nat (String.length key) =? 0) = false)
    by (apply Z.eqb_neq; unfold PROP_NAME_MAX in Hfull; lia).
  split.
  - rewrite E, scan_cons by reflexivity.
    unfold step, key_so_far. cbn [st set_len set_prop_name]. rewrite Hst.
    unfold case_PROPNAME.
    cbn [prop_count len line prop_name set_len set_prop_name].
    rewrite E1, E0. cbn [andb bind].
    change (Ascii.eqb EQUALS EQUALS) with true. rewrite andb_true_r.
    cbn [prop_count len line prop_name set_len set_prop_name].
    assert (E2 : (0 <? Z.of_nat (String.length key)) = true)
      by (apply Z.ltb_lt; unfold PROP_NAME_MAX in Hfull; lia).
    rewrite E2.
    assert (E3 : in_bounds (prop_count l) PROP_MAX = true) by (apply in_bounds_iff; lia).
    rewrite E3. unfold terminate.
    assert (E4 : in_bounds (Z.of_nat (String.length key)) PROP_NAME_MAX = false).
    { unfold in_bounds. rewrite Hfull, Z.ltb_irrefl. apply andb_false_r. }
    rewrite E4, E0. reflexivity.
  - intros c Hc Hnul. apply Ascii.eqb_neq in Hc, Hnul.
    rewrite E, scan_cons by exact Hnul.
    unfold step. cbn [st key_so_far set_len set_prop_name]. rewrite Hst.
    unfold case_PROPNAME. unfold key_so_far.
    cbn [prop_count len line prop_name set_len set_prop_name].
    rewrite E1, E0. cbn [andb bind].
    cbn [prop_count len line prop_name set_len set_prop_name].
    rewrite E0, Hc, andb_false_r. cbn [andb].
    assert (E2 : (PROP_NAME_MAX <=? Z.of_nat (String.length key)) = true)
      by (apply Z.leb_le; lia).
    rewrite E2. reflexivity.
Qed.

(** X12.  A row of the table of values has 4096 cells.  When a value of
    exactly 4096 characters is closed by its quote, the terminator is
    stored in cell 4096, past the end of the row, and so is the
    character of an escape that follows such a value; any other
    character that follows it is refused with the message of the
    property value too long. *)
Theorem prop_value_capacity (v rest : string) (l : locals) (w : W) :
  st l = ST_PROPVALUE_BODY -> len l = 0 -> 0 <= prop_count l < PROP_MAX ->
  all_chars (fun c => negb (Ascii.eqb c NUL)) v = true ->
  Z.of_nat (String.length v) = PROP_VALUE_MAX ->
  scan PROP_MAX W callback (escape v ++ String DQUOTE rest) l w = Undef /\
  scan PROP_MAX W callback (escape v ++ String BACKSLASH rest) l w = Undef /\
  (forall c, c <> DQUOTE -> c <> BACKSLASH -> c <> NUL ->
     scan PROP_MAX W callback (escape v ++ String c rest) l w
     = Ok (Returned false (set_error "Property value too long." (stored v l)) w)).
Proof.
  intros Hst Hlen Hpc Hchars Hfull.
  destruct (escape_is_value_text v Hchars) as (Htext & Hdec).
  assert (Hfilled : row_filled l) by (unfold row_filled; rewrite Hlen; cbn; lia).
  assert (E : forall tail,
             scan PROP_MAX W callback (escape v ++ tail) l w
             = scan PROP_MAX W callback tail (stored v l) w).
  { intros tail.
    rewrite (scan_value PROP_MAX W callback (escape v) tail l w Htext Hst)
      by (rewrite ?Hdec; first [exact Hfilled | lia]).
    now rewrite Hdec. }
  destruct (stored_fields v l) as (S1 & S2 & _ & Slen & _ & _); [lia|exact Hfilled|].
  assert (Hl : len (stored v l) = PROP_VALUE_MAX) by lia.
  assert (Hin : in_bounds (len (stored v l)) PROP_VALUE_MAX = false).
  { unfold in_bounds. rewrite Hl, Z.ltb_irrefl. apply andb_false_r. }
  assert (E3 : in_bounds (prop_count (stored v l)) PROP_MAX = true)
    by (apply in_bounds_iff; lia).
  split; [|split].
  - rewrite E, scan_cons by reflexivity.
    unfold step. rewrite S1, Hst. unfold case_PROPVALUE_BODY.
    change (Ascii.eqb DQUOTE BACKSLASH) with false.
    change (Ascii.eqb DQUOTE DQUOTE) with true. cbv iota.
    rewrite E3. unfold terminate. rewrite Hin. reflexivity.
  - rewrite E, scan_cons by reflexivity.
    rewrite (escape_not_checked PROP_MAX W callback _ (stored v l) w);
      [reflexivity | congruence | lia].
  - intros c Hq Hb Hnul.
    rewrite E, scan_cons by (apply Ascii.eqb_neq; exact Hnul).
    rewrite (plain_character_checked PROP_MAX W callback c _ (stored v l) w);
      [reflexivity | congruence | lia | exact Hb | exact Hq].
Qed.

(** X13.  Between the equals sign and the quote that opens the value,
    every character is skipped, whatever it is; only the newlines among
    them are counted. *)
Theorem text_before_value_is_skipped (junk rest : string) (l : locals) (w : W) :
  st l = ST_PROPVALUE_QUOTE ->
  all_chars (fun c => negb (Ascii.eqb c DQUOTE || Ascii.eqb c NUL)) junk = true ->
  line l + newlines junk <= INT_MAX ->
  scan PROP_MAX W callback (junk ++ String DQUOTE rest) l w
  = scan PROP_MAX W callback rest
         (set_len 0 (set_st ST_PROPVALUE_BODY (set_line (line l + newlines junk) l))) w.
Proof.
  revert l. induction junk as [|c junk IH]; intros l Hst Hjunk Hline.
  - cbn [append newlines]. rewrite scan_cons by reflexivity.
    unfold step. rewrite Hst. unfold case_PROPVALUE_QUOTE.
    change (Ascii.eqb DQUOTE LF) with false. cbn [bind].
    change (is_blank_or_newline DQUOTE) with false.
    change (Ascii.eqb DQUOTE DQUOTE) with true. cbv iota.
    now rewrite Z.add_0_r, set_line_same.
  - cbn [all_chars] in Hjunk. apply andb_true_iff in Hjunk as (Hc & Hjunk).
    apply negb_true_iff, orb_false_iff in Hc as (Hq & Hnul).
    cbn [newlines] in Hline |- *. pose proof (newlines_nonneg junk) as Hnn.
    cbn [append]. rewrite scan_cons by exact Hnul.
    unfold step. rewrite Hst. unfold case_PROPVALUE_QUOTE.
    destruct (Ascii.eqb c LF) eqn:Hlf.
    + unfold next_line. rewrite int_incr_ok by lia. cbn [bind].
      unfold is_blank_or_newline. rewrite Hlf, orb_true_r.
      rewrite IH; [|exact Hst|exact Hjunk|cbn [line set_line]; lia].
      replace (line l + (1 + newlines junk)) with (line l + 1 + newlines junk) by lia.
      reflexivity.
    + cbn [bind]. rewrite Hq.
      assert (Hsame : (if is_blank_or_newline c
                       then Ok (Continue l w false)
                       else Ok (Continue l w false)) = Ok (Continue l w false))
        by (destruct (is_blank_or_newline c); reflexivity).
      rewrite Hsame. rewrite IH; [|exact Hst|exact Hjunk|lia].
      reflexivity.
Qed.

Lemma all_chars_app (p : ascii -> bool) (a b : string) :
  all_chars p (a ++ b) = all_chars p a && all_chars p b.
Proof.
  induction a as [|c a IH]; cbn [append all_chars]; [reflexivity|].
  now rewrite IH, andb_assoc.
Qed.

(** The sign that ends the name of a property and the quote that opens
    its value. *)
Lemma scan_key_end (rest : string) (pn : list string) (p : string)
      (l : locals) (w : W) :
  st l = ST_PROPNAME ->
  prop_count l = Z.of_nat (length pn) -> prop_count l < PROP_MAX ->
  prop_name l = (pn ++ [p])%list -> len l = Z.of_nat (String.length p) ->
  0 < Z.of_nat (String.length p) < PROP_NAME_MAX ->
  scan PROP_MAX W callback ("=" ++ Q ++ rest) l w
  = scan PROP_MAX W callback rest
         (set_len 0 (set_st ST_PROPVALUE_BODY (set_prop_name (pn ++ [p]) l))) w.
Proof.
  intros Hst Hpc Hmax Hrow Hlen Hp.
  unfold Q. cbn [append]. rewrite scan_cons by reflexivity.
  unfold step. rewrite Hst. unfold case_PROPNAME.
  assert (E1 : (prop_count l =? PROP_MAX) = false) by (apply Z.eqb_neq; lia).
  assert (E0 : (len l =? 0) = false) by (apply Z.eqb_neq; lia).
  assert (E2 : (0 <? len l) = true) by (apply Z.ltb_lt; lia).
  assert (E3 : in_bounds (prop_count l) PROP_MAX = true) by (apply in_bounds_iff; lia).
  assert (E4 : in_bounds (len l) PROP_NAME_MAX = true) by (apply in_bounds_iff; lia).
  rewrite E1, E0. cbn [andb bind]. rewrite E0, E2. cbn [andb].
  change (Ascii.eqb "=" EQUALS) with true. cbv iota.
  rewrite E3. unfold terminate. rewrite E4, Hrow, Hpc, aget_last, Hlen, take_whole.
  cbn [bind]. rewrite aset_last.
  rewrite scan_cons by reflexivity.
  unfold step. cbn [st set_len set_st set_prop_name]. unfold case_PROPVALUE_QUOTE.
  reflexivity.
Qed.

(** In state [ST_PROPNAME] a character that has no meaning where it
    stands is passed over: the message of the invalid character is
    written, and the loop goes on. *)
Lemma step_skipped_char (c next : ascii) (l : locals) (w : W) :
  st l = ST_PROPNAME -> prop_count l <> PROP_MAX -> 0 <= len l < PROP_NAME_MAX ->
  is_prop_name_char c = false ->
  (len l = 0 -> c <> SPACE /\ c <> RBRACKET /\ is_blank_or_newline c = false) ->
  (0 < len l -> c <> EQUALS) ->
  step PROP_MAX W callback c next l w
  = Ok (Continue (set_error "Invalid character." l) w false).
Proof.
  intros Hst Hpc Hlen Hc H0 H1.
  unfold step. rewrite Hst. unfold case_PROPNAME.
  apply Z.eqb_neq in Hpc. rewrite Hpc.
  assert (E2 : (PROP_NAME_MAX <=? len l) = false) by (apply Z.leb_gt; lia).
  destruct (len l =? 0) eqn:E0.
  - apply Z.eqb_eq in E0. destruct (H0 E0) as (Hsp & Hrb & Hbl).
    apply Ascii.eqb_neq in Hsp, Hrb. rewrite Hsp, Hrb. cbn [andb].
    assert (Hlf : Ascii.eqb c LF = false).
    { unfold is_blank_or_newline in Hbl. now apply orb_false_iff in Hbl. }
    rewrite Hlf. cbn [bind]. rewrite Hbl. rewrite E0 in E2 |- *.
    cbn [Z.ltb Z.compare andb]. rewrite E2, Hc. reflexivity.
  - apply Z.eqb_neq in E0. cbn [andb bind].
    assert (E3 : (len l =? 0) = false) by (apply Z.eqb_neq; lia).
    rewrite E3. cbn [andb].
    assert (Heq : Ascii.eqb c EQUALS = false) by (apply Ascii.eqb_neq, H1; lia).
    rewrite Heq, andb_false_r, E2, Hc. reflexivity.
Qed.

(** X14.  A character that has no meaning in the name of a property is
    not an error that ends the parse: it is dropped from the name, the
    message of the invalid character and the line are written to the
    output parameters, and the loop goes on.  Inside a name that has
    begun, this is every character other than a letter, a digit, a
    hyphen, an underscore and the equals sign, blanks, newlines and the
    closing bracket included; before the name it is every such
    character other than a blank, a newline and the closing bracket.
    The property is then named by the characters around it. *)
Theorem character_skipped_in_property_name (k1 k2 rest : string) (c : ascii)
        (pn pv : list string) (l : locals) (w : W) :
  st l = ST_PROPNAME -> len l = 0 -> tables pn pv l -> prop_count l < PROP_MAX ->
  key_ok (k1 ++ k2) = true ->
  is_prop_name_char c = false -> c <> NUL ->
  (k1 = EmptyString ->
   c <> SPACE /\ c <> RBRACKET /\ is_blank_or_newline c = false) ->
  (k1 <> EmptyString -> c <> EQUALS) ->
  scan PROP_MAX W callback (k1 ++ String c (k2 ++ "=" ++ Q ++ rest)) l w
  = scan PROP_MAX W callback rest
         (set_error "Invalid character."
            (set_len 0 (set_st ST_PROPVALUE_BODY
                               (set_prop_name (pn ++ [k1 ++ k2]) l)))) w.
Proof.
  intros Hst Hlen Ht Hmax Hkey Hc Hnul Hfirst Hinside.
  pose proof Hkey as Hkey0.
  unfold key_ok in Hkey. apply andb_true_iff in Hkey as (Hkey & Hroom).
  apply andb_true_iff in Hkey as (Hne & Hchars). apply Z.ltb_lt in Hroom.
  rewrite all_chars_app in Hchars. apply andb_true_iff in Hchars as (Hc1 & Hc2).
  rewrite string_length_app in Hroom.
  apply Ascii.eqb_neq in Hnul.
  destruct k1 as [|a k1'].
  - cbn [append] in *. rewrite scan_cons by exact Hnul.
    rewrite step_skipped_char;
      [ | exact Hst | lia | rewrite Hlen; unfold PROP_NAME_MAX; lia | exact Hc
        | intros _; apply Hfirst; reflexivity | lia ].
    rewrite (scan_key PROP_MAX W callback k2 rest pn pv);
      [ reflexivity | exact Hst | exact Hlen | exact Ht | exact Hmax | exact Hkey0 ].
  - remember (String a k1') as k1 eqn:Ek1.
    assert (Hk1 : k1 <> EmptyString) by (subst; discriminate).
    assert (Hl1 : 0 < Z.of_nat (String.length k1))
      by (subst; cbn [String.length]; lia).
    destruct Ht as (Hpn & Hpv & Hlens & Hpc).
    rewrite (scan_key_chars PROP_MAX W callback k1 _ pn EmptyString);
      [ | exact Hk1 | exact Hst | exact Hpc | exact Hmax | exact Hlen
        | left; auto | exact Hc1 | cbn [String.length]; lia ].
    cbn [append]. rewrite scan_cons by exact Hnul.
    rewrite step_skipped_char;
      [ | exact Hst | cbn; lia | cbn; lia | exact Hc
        | cbn; lia | intros _; apply Hinside; exact Hk1 ].
    set (l1 := set_error "Invalid character." (key_so_far pn k1 l)).
    destruct k2 as [|b k2'].
    + rewrite string_app_nil_r.
      change (EmptyString ++ String "=" (Q ++ rest)) with ("=" ++ Q ++ rest).
      rewrite (scan_key_end rest pn k1 l1 w);
        [ reflexivity | exact Hst | exact Hpc | exact Hmax | reflexivity
          | reflexivity | cbn [String.length] in Hroom; lia ].
    + remember (String b k2') as k2 eqn:Ek2.
      rewrite (scan_key_chars PROP_MAX W callback k2 _ pn k1 l1 w);
        [ | subst; discriminate | exact Hst | exact Hpc | exact Hmax | reflexivity
          | right; reflexivity | exact Hc2 | lia ].
      change (String "=" (Q ++ rest)) with ("=" ++ Q ++ rest).
      rewrite (scan_key_end rest pn (k1 ++ k2));
        [ reflexivity | exact Hst | exact Hpc | exact Hmax | reflexivity
          | reflexivity | rewrite string_length_app; lia ].
Qed.

End Capacities.

(** ** The store *)

Section Store.

Variable PROP_MAX : Z.
Variable load_file : string -> option string.

(** The two ways the record builder ends: the table is full and nothing
    but the log has changed, or one record was counted and nothing but
    that record, the log and the allocator has changed. *)
Lemma parse_tag_callback_shape name props pn pv ln g ok g' :
  parse_tag_callback PROP_MAX name props pn pv ln g = Ok (ok, g') ->
  (COMMAND_MAX <= tag_size g /\ ok = false /\ g' = log_error TooManyTags g) \/
  (0 <= tag_size g < COMMAND_MAX /\
   same_but (tag_size g) (set_tag_size (tag_size g + 1) g) g').
Proof.
  intros H. unfold parse_tag_callback in H.
  destruct (COMMAND_MAX <=? tag_size g) eqn:Hfull.
  { left. apply Z.leb_le in Hfull. inversion H; subst. auto. }
  right. apply Z.leb_gt in Hfull.
  destruct (in_bounds (tag_size g) COMMAND_MAX) eqn:Hb; [|discriminate].
  assert (Hpos : 0 <= tag_size g) by (apply in_bounds_iff in Hb; lia).
  split; [lia|].
  set (slot := tag_size g) in *.
  set (g1 := update_tag slot (Tag.set_prop_count props) (set_tag_size (slot + 1) g)) in *.
  assert (S1 : same_but slot (set_tag_size (slot + 1) g) g1)
    by (apply same_but_update_tag; exact Hpos).
  pose proof (same_but_strdup slot name g1) as S2.
  destruct (strdup name g1) as [p g2]; cbn [snd] in S2.
  pose proof (same_but_update_tag slot (Tag.set_tag_name p) g2 Hpos) as S3.
  set (g3 := update_tag slot (Tag.set_tag_name p) g2) in *.
  assert (S : same_but slot (set_tag_size (slot + 1) g) g3)
    by (eapply same_but_trans; [exact S1|eapply same_but_trans; eauto]).
  assert (Hfin : forall g4, same_but slot g3 g4 ->
                            same_but slot (set_tag_size (slot + 1) g) g4)
    by (intros g4 S4; eapply same_but_trans; eauto).
  destruct p; [inversion H; subst; apply Hfin; apply same_but_log_error | |].
  all: apply bind_ok in H as ([ok0 g4] & E4 & E);
    (apply copy_props_same_but in E4; [|exact Hpos]);
    destruct ok0; inversion E; subst; apply Hfin; auto;
    eapply same_but_trans; [exact E4 | apply same_but_update_tag; exact Hpos].
Qed.

Lemma parse_tag_callback_fits name props pn pv ln g ok g' :
  parse_tag_callback PROP_MAX name props pn pv ln g = Ok (ok, g') ->
  well_formed g -> well_formed g'.
Proof.
  intros H (Hc & Hs). unfold well_formed.
  destruct (parse_tag_callback_shape _ _ _ _ _ _ _ _ H)
    as [(Hfull & _ & ->)|(Hroom & K1 & _ & K3 & _)].
  - cbn. lia.
  - cbn in K1, K3. lia.
Qed.

Lemma load_tag_file_fits (file : string) (g g' : tagsys) (ok : bool) :
  load_tag_file PROP_MAX load_file file g = Ok (ok, g') ->
  well_formed g -> well_formed g'.
Proof.
  intros H Hg. rewrite load_tag_file_outside in H.
  destruct (load_file file) as [buf|]; [|inversion H; subst; exact Hg].
  apply bind_ok in H as (g0 & Hc & H).
  apply cleanup_tag_fields in Hc as (C1 & C2 & C3).
  assert (Hg0 : well_formed (set_cur_file (take 1023 file) g0)).
  { destruct Hg as (_ & Hs). unfold well_formed. cbn. lia. }
  apply bind_ok in H as ([[[b msg] ln] g1] & Hp & H).
  assert (Hg1 : well_formed g1).
  { unfold parse_tag_document in Hp. apply bind_ok in Hp as (e & He & Hp).
    assert (He' : well_formed (set_cur_file (take 1023 file) g0) -> well_formed (exit_world e)).
    { refine (scan_rel PROP_MAX tagsys (parse_tag_callback PROP_MAX)
                       (fun a b => well_formed a -> well_formed b) _ _ _
                       buf initial_locals _ e He).
      - auto.
      - auto.
      - intros name props pn pv l w ok0 w'. apply parse_tag_callback_fits. }
    specialize (He' Hg0).
    destruct e as [l w|b0 l w]; cbn [exit_world] in He'.
    - destruct (state_eqb (st l) ST_INIT); inversion Hp; subst; exact He'.
    - inversion Hp; subst; exact He'. }
  destruct b; cbn in H; inversion H; subst; exact Hg1.
Qed.

Lemma do_call_fits (c : call) (g g' : tagsys) :
  do_call PROP_MAX load_file c g = Ok g' -> well_formed g -> well_formed g'.
Proof.
  destruct c as [| |file|]; cbn [do_call]; intros H Hg.
  - apply cleanup_tag_fields in H as (C1 & C2 & C3).
    destruct Hg as (_ & Hs). unfold well_formed. lia.
  - apply cleanup_tag_fields in H as (C1 & C2 & C3).
    destruct Hg as (_ & Hs). unfold well_formed. lia.
  - apply bind_ok in H as ([ok g1] & Hl & H). inversion H; subst.
    eapply load_tag_file_fits; eauto.
  - unfold move_to_next_tag in H. apply bind_ok in H as (i & Hi & H).
    apply int_incr_inv in Hi. inversion H; subst.
    destruct Hg as (Hc & Hs). unfold well_formed. cbn. lia.
Qed.

Lemma well_formed_reads (g : tagsys) :
  well_formed g ->
  (exists r, get_current_tag g = Ok r) /\ (exists n, get_tag_line g = Ok n).
Proof.
  intros (Hc & Hs). unfold get_current_tag, get_tag_line.
  destruct (tag_size g <=? cur_index g) eqn:E; [split; eexists; reflexivity|].
  apply Z.leb_gt in E.
  assert (Hin : in_bounds (cur_index g) COMMAND_MAX = true)
    by (apply in_bounds_iff; lia).
  rewrite Hin. split; eexists; reflexivity.
Qed.

(** X15.  In every state that a process reaches from its start by calls
    of [init_tag], [cleanup_tag], [load_tag_file] and
    [move_to_next_tag], the cursor is not negative and the number of
    records is between 0 and 65536; [get_current_tag] and
    [get_tag_line] are then defined: they never read outside the
    table, wherever the cursor stands. *)
Theorem getters_stay_in_the_table (cs : list call) (h : list bool) (g : tagsys) :
  do_calls PROP_MAX load_file cs (boot h) = Ok g ->
  well_formed g /\
  (exists r, get_current_tag g = Ok r) /\ (exists n, get_tag_line g = Ok n).
Proof.
  intros H.
  assert (Hg : well_formed g).
  { assert (Hb : well_formed (boot h))
      by (unfold well_formed, COMMAND_MAX; cbn; lia).
    revert H Hb. generalize (boot h). induction cs as [|c cs IH]; intros g0 H Hb.
    - inversion H; subst; exact Hb.
    - cbn [do_calls] in H. apply bind_ok in H as (g1 & Hc & H).
      apply (IH g1 H). eapply do_call_fits; eauto. }
  split; [exact Hg | apply well_formed_reads; exact Hg].
Qed.

(** *** What the record builder stores *)

Lemma strdup_cases (s : string) (g : tagsys) :
  (fst (strdup s g) = Live s \/ fst (strdup s g) = Null) /\
  tag (snd (strdup s g)) = tag g /\ log (snd (strdup s g)) = log g /\
  tag_size (snd (strdup s g)) = tag_size g.
Proof.
  unfold strdup. destruct (heap g) as [|[] h]; cbn; auto.
Qed.

Lemma tag_at_same_tag (i : Z) (g g' : tagsys) :
  tag g' = tag g -> tag_at i g' = tag_at i g.
Proof. unfold tag_at. now intros ->. Qed.

(** The loop that copies the properties: it changes neither the log nor
    the other fields of the record when it succeeds, it leaves the
    pointers below [i] as they were, and it stores a copy of each name
    and of each value from [i] on. *)
Lemma copy_props_stores (n : nat) :
  forall (i slot : Z) (pn pv : option (list string)) (g g' : tagsys),
    0 <= i -> 0 <= slot ->
    copy_props PROP_MAX n i slot pn pv g = Ok (true, g') ->
    log g' = log g /\
    Tag.tag_name (tag_at slot g') = Tag.tag_name (tag_at slot g) /\
    Tag.prop_count (tag_at slot g') = Tag.prop_count (tag_at slot g) /\
    Tag.line (tag_at slot g') = Tag.line (tag_at slot g) /\
    (forall j, 0 <= j < i ->
       aget Null j (Tag.prop_name (tag_at slot g'))
       = aget Null j (Tag.prop_name (tag_at slot g)) /\
       aget Null j (Tag.prop_value (tag_at slot g'))
       = aget Null j (Tag.prop_value (tag_at slot g))) /\
    (forall j, i <= j < i + Z.of_nat n ->
       exists k v,
         deref pn j = Ok k /\ deref pv j = Ok v /\
         aget Null j (Tag.prop_name (tag_at slot g')) = Live k /\
         aget Null j (Tag.prop_value (tag_at slot g')) = Live v).
Proof.
  induction n as [|n IH]; intros i slot pn pv g g' Hi Hs H; cbn [copy_props] in H.
  - inversion H; subst. repeat split; try reflexivity. intros j Hj. lia.
  - destruct (in_bounds i PROP_MAX); [|discriminate].
    apply bind_ok in H as (name & Hname & H).
    destruct (strdup_cases name g) as (Hp & T1 & L1 & _).
    destruct (strdup name g) as [p g1]; cbn [fst snd] in Hp, T1, L1.
    set (g2 := update_tag slot
                 (fun r => Tag.set_prop_name (aset Null i p (Tag.prop_name r)) r) g1) in *.
    destruct Hp as [-> | ->]; [|discriminate H].
    apply bind_ok in H as (value & Hvalue & H).
    destruct (strdup_cases value g2) as (Hq & T2 & L2 & _).
    destruct (strdup value g2) as [q g3]; cbn [fst snd] in Hq, T2, L2.
    set (g4 := update_tag slot
                 (fun r => Tag.set_prop_value (aset Null i q (Tag.prop_value r)) r) g3) in *.
    destruct Hq as [-> | ->]; [|discriminate H].
    apply IH in H; [|lia|exact Hs].
    destruct H as (HL & HN & HC & HLn & Hlow & Hhigh).
    assert (R4 : tag_at slot g4
                 = Tag.set_prop_value
                     (aset Null i (Live value) (Tag.prop_value (tag_at slot g2)))
                     (tag_at slot g2)).
    { subst g4. rewrite tag_at_update_tag_same.
      now rewrite (tag_at_same_tag slot g2 g3 T2). }
    assert (R2 : tag_at slot g2
                 = Tag.set_prop_name
                     (aset Null i (Live name) (Tag.prop_name (tag_at slot g)))
                     (tag_at slot g)).
    { subst g2. rewrite tag_at_update_tag_same.
      now rewrite (tag_at_same_tag slot g g1 T1). }
    rewrite R4, R2 in HN, HC, HLn, Hlow. cbn in HN, HC, HLn.
    split; [rewrite HL; subst g4; cbn; rewrite L2; subst g2; cbn; exact L1|].
    split; [exact HN|]. split; [exact HC|]. split; [exact HLn|].
    split.
    + intros j Hj. destruct (Hlow j) as (A & B); [lia|].
      cbn [Tag.prop_name Tag.prop_value Tag.set_prop_value Tag.set_prop_name] in A, B.
      rewrite A, B.
      rewrite !aget_aset_other by lia. auto.
    + intros j Hj. destruct (Z.eq_dec j i) as [->|Hne].
      * exists name, value. destruct (Hlow i) as (A & B); [lia|].
        cbn [Tag.prop_name Tag.prop_value Tag.set_prop_value Tag.set_prop_name] in A, B.
        rewrite A, B, !aget_aset_same. auto.
      * apply Hhigh. lia.
Qed.

(** X16.  When the record builder accepts a tag, the record in the cell
    that was the first free one holds what was given: the name, the
    number of properties, the line and, for each index below that
    number, a copy of the name and a copy of the value of the property.
    One record more is counted, nothing is logged, and no other record
    has changed. *)
Theorem accepted_tag_is_stored name props pn pv ln (g g' : tagsys) :
  parse_tag_callback PROP_MAX name props pn pv ln g = Ok (true, g') ->
  tag_size g' = tag_size g + 1 /\ log g' = log g /\ extends g g' /\
  Tag.tag_name (tag_at (tag_size g) g') = Live name /\
  Tag.prop_count (tag_at (tag_size g) g') = props /\
  Tag.line (tag_at (tag_size g) g') = ln /\
  (forall j, 0 <= j < props ->
     exists k v,
       deref pn j = Ok k /\ deref pv j = Ok v /\
       aget Null j (Tag.prop_name (tag_at (tag_size g) g')) = Live k /\
       aget Null j (Tag.prop_value (tag_at (tag_size g) g')) = Live v).
Proof.
  intros H. pose proof (parse_tag_callback_extends _ _ _ _ _ _ _ _ _ H) as Hext.
  unfold parse_tag_callback in H.
  destruct (COMMAND_MAX <=? tag_size g); [discriminate H|].
  destruct (in_bounds (tag_size g) COMMAND_MAX) eqn:Hb; [|discriminate].
  assert (Hpos : 0 <= tag_size g) by (apply in_bounds_iff in Hb; lia).
  set (slot := tag_size g) in *.
  set (g1 := update_tag slot (Tag.set_prop_count props) (set_tag_size (slot + 1) g)) in *.
  destruct (strdup_cases name g1) as (Hp & T2 & L2 & Z2).
  destruct (strdup name g1) as [p g2]; cbn [fst snd] in Hp, T2, L2, Z2.
  set (g3 := update_tag slot (Tag.set_tag_name p) g2) in *.
  destruct Hp as [-> | ->]; [|discriminate H].
  apply bind_ok in H as ([ok0 g4] & E4 & E).
  destruct ok0; [|discriminate E]. inversion E; subst g'. clear E.
  pose proof (copy_props_same_but _ _ _ _ _ _ _ _ _ Hpos E4) as (_ & _ & Z4 & _).
  apply copy_props_stores in E4; [|lia|exact Hpos].
  destruct E4 as (HL & HN & HC & HLn & _ & Hhigh).
  assert (R3 : tag_at slot g3
               = Tag.set_tag_name (Live name)
                   (Tag.set_prop_count props (tag_at slot g))).
  { subst g3. rewrite tag_at_update_tag_same.
    rewrite (tag_at_same_tag slot g1 g2 T2). subst g1.
    now rewrite tag_at_update_tag_same. }
  rewrite tag_at_update_tag_same.
  rewrite R3 in HN, HC. cbn in HN, HC.
  split; [cbn; rewrite Z4; subst g3; cbn; rewrite Z2; subst g1; cbn; reflexivity|].
  split; [cbn; rewrite HL; subst g3; cbn; rewrite L2; subst g1; cbn; reflexivity|].
  split; [exact Hext|].
  split; [exact HN|]. split; [exact HC|]. split; [reflexivity|].
  intros j Hj. destruct (Hhigh j) as (k & v & D1 & D2 & A & B);
    [rewrite Z2Nat.id by lia; lia|].
  exists k, v. cbn. auto.
Qed.

Lemma copy_props_refusal (n : nat) :
  forall (i slot : Z) (pn pv : option (list string)) (g g' : tagsys),
    copy_props PROP_MAX n i slot pn pv g = Ok (false, g') ->
    log g' = (log g ++ [OutOfMemory])%list.
Proof.
  induction n as [|n IH]; intros i slot pn pv g g' H; cbn [copy_props] in H;
    [discriminate H|].
  destruct (in_bounds i PROP_MAX); [|discriminate].
  apply bind_ok in H as (name & Hname & H).
  destruct (strdup_cases name g) as (Hp & T1 & L1 & _).
  destruct (strdup name g) as [p g1]; cbn [fst snd] in Hp, T1, L1.
  destruct Hp as [-> | ->];
    [|inversion H; subst; cbn [log log_error update_tag set_tag]; now rewrite L1].
  apply bind_ok in H as (value & Hvalue & H).
  match type of H with
  | context [strdup value ?gx] =>
      destruct (strdup_cases value gx) as (Hq & T2 & L2 & _);
      destruct (strdup value gx) as [q g3]; cbn [fst snd] in Hq, T2, L2
  end.
  destruct Hq as [-> | ->].
  - apply IH in H. rewrite H. cbn [log log_error update_tag set_tag].
    rewrite L2. cbn [log log_error update_tag set_tag]. now rewrite L1.
  - inversion H; subst. cbn [log log_error update_tag set_tag].
    rewrite L2. cbn [log log_error update_tag set_tag]. now rewrite L1.
Qed.

(** X17.  Every refusal of the record builder is logged, once.  Either
    the table is full, and then nothing but the log has changed; or an
    allocation has failed, and then the record that was being built is
    counted all the same: the store is one record longer. *)
Theorem refused_tag_is_logged name props pn pv ln (g g' : tagsys) :
  parse_tag_callback PROP_MAX name props pn pv ln g = Ok (false, g') ->
  (COMMAND_MAX <= tag_size g /\ g' = log_error TooManyTags g) \/
  (tag_size g < COMMAND_MAX /\ tag_size g' = tag_size g + 1 /\
   log g' = (log g ++ [OutOfMemory])%list).
Proof.
  intros H.
  destruct (parse_tag_callback_shape _ _ _ _ _ _ _ _ H)
    as [(Hfull & _ & ->)|(Hroom & _ & _ & K3 & _)]; [left; auto|].
  right. split; [lia|]. split; [exact K3|].
  unfold parse_tag_callback in H.
  destruct (COMMAND_MAX <=? tag_size g) eqn:E; [apply Z.leb_le in E; lia|].
  destruct (in_bounds (tag_size g) COMMAND_MAX); [|discriminate].
  set (slot := tag_size g) in *.
  set (g1 := update_tag slot (Tag.set_prop_count props) (set_tag_size (slot + 1) g)) in *.
  destruct (strdup_cases name g1) as (Hp & T2 & L2 & _).
  destruct (strdup name g1) as [p g2]; cbn [fst snd] in Hp, T2, L2.
  destruct Hp as [-> | ->].
  - apply bind_ok in H as ([ok0 g4] & E4 & E0).
    destruct ok0; [discriminate E0|]. inversion E0; subst g'.
    apply copy_props_refusal in E4. rewrite E4.
    cbn [log log_error update_tag set_tag]. now rewrite L2.
  - inversion H; subst g'. cbn [log log_error update_tag set_tag]. now rewrite L2.
Qed.

End Store.

(** ** Cleanup *)

Section Cleanup.

Variable PROP_MAX : Z.
Variable load_file : string -> option string.

Lemma off_diagonal_refl (i : Z) (r : Tag.t) : off_diagonal i r r.
Proof. unfold off_diagonal. auto. Qed.

Lemma off_diagonal_trans (i : Z) (a b c : Tag.t) :
  off_diagonal i a b -> off_diagonal i b c -> off_diagonal i a c.
Proof.
  intros (A1 & A2 & A3) (B1 & B2 & B3). unfold off_diagonal.
  split; [congruence|]. split; [congruence|].
  intros k Hk Hne. destruct (A3 k Hk Hne) as (X & Y).
  destruct (B3 k Hk Hne) as (X' & Y'). split; congruence.
Qed.

Lemma free_and_clear_others (i : Z) (a a' : list cptr) :
  free_and_clear PROP_MAX i a = Ok a' ->
  forall k, 0 <= k -> k <> i -> aget Null k a' = aget Null k a.
Proof.
  unfold free_and_clear. intros H k Hk Hne.
  destruct (in_bounds i PROP_MAX) eqn:Hb; [|discriminate].
  apply in_bounds_iff in Hb.
  destruct (aget Null i a); [inversion H; subst; reflexivity | |].
  all: apply bind_ok in H as (p & _ & H); inversion H; subst;
    apply aget_aset_other; lia.
Qed.

Lemma cleanup_props_off_diagonal (i j : Z) (r r' : Tag.t) :
  cleanup_props PROP_MAX i j r = Ok r' -> off_diagonal i r r' /\
  Tag.tag_name r' = Tag.tag_name r.
Proof.
  unfold cleanup_props. intros H.
  apply bind_ok in H as (names & Hn & H). apply bind_ok in H as (values & Hv & H).
  inversion H; subst. cbn [Tag.prop_value Tag.set_prop_name] in Hv.
  unfold off_diagonal. cbn. repeat split; auto.
  - eapply free_and_clear_others; eauto.
  - eapply free_and_clear_others; eauto.
Qed.

Lemma cleanup_record_off_diagonal (i : Z) (g g' : tagsys) :
  cleanup_record PROP_MAX i g = Ok g' ->
  0 <= i /\ same_but i g g' /\ off_diagonal i (tag_at i g) (tag_at i g') /\
  free (Tag.tag_name (tag_at i g)) = Ok (Tag.tag_name (tag_at i g')).
Proof.
  unfold cleanup_record. intros H.
  destruct (in_bounds i COMMAND_MAX) eqn:Hb; [|discriminate].
  apply in_bounds_iff in Hb.
  apply bind_ok in H as (p & Hp & H). apply bind_ok in H as (r & Hr & H).
  inversion H; subst. clear H.
  split; [lia|]. split; [apply same_but_update_tag; lia|].
  rewrite tag_at_update_tag_same.
  eapply (for_loop_invariant
            (fun a => off_diagonal i (tag_at i g) a /\ Tag.tag_name a = p)) in Hr.
  - destruct Hr as (Hr & Hname). split; [exact Hr|]. now rewrite Hname.
  - intros j a a' (Ha & Hname) Hb'. apply cleanup_props_off_diagonal in Hb' as (Hb' & Hn').
    split; [eapply off_diagonal_trans; eauto | congruence].
  - split; [|reflexivity]. unfold off_diagonal. cbn. auto.
Qed.

Lemma free_and_clear_diagonal (i : Z) (a a' : list cptr) :
  free_and_clear PROP_MAX i a = Ok a' ->
  0 <= i < PROP_MAX /\ freed_and_null (aget Null i a) (aget Null i a').
Proof.
  unfold free_and_clear, freed_and_null. intros H.
  destruct (in_bounds i PROP_MAX) eqn:Hb; [|discriminate].
  apply in_bounds_iff in Hb. split; [exact Hb|].
  destruct (aget Null i a) as [|s|] eqn:E; cbn [free bind] in H.
  - inversion H; subst a'. split; [discriminate | exact E].
  - inversion H; subst a'. split; [discriminate | apply aget_aset_same].
  - discriminate H.
Qed.

Lemma cleanup_props_diagonal (i j : Z) (r r' : Tag.t) :
  cleanup_props PROP_MAX i j r = Ok r' ->
  0 <= i < PROP_MAX /\
  freed_and_null (aget Null i (Tag.prop_name r)) (aget Null i (Tag.prop_name r')) /\
  freed_and_null (aget Null i (Tag.prop_value r)) (aget Null i (Tag.prop_value r')).
Proof.
  unfold cleanup_props. intros H.
  apply bind_ok in H as (names & Hn & H). apply bind_ok in H as (values & Hv & H).
  inversion H; subst r'. clear H.
  apply free_and_clear_diagonal in Hn as (Hi & Hn).
  apply free_and_clear_diagonal in Hv as (_ & Hv).
  destruct r; cbn in *. auto.
Qed.

(** The inner loop, when it runs at least once: the first turn frees the
    two strings and the other turns find [NULL]. *)
Lemma cleanup_props_loop_diagonal (n : nat) (i j : Z) (r r' : Tag.t) :
  n <> O ->
  for_loop n j (cleanup_props PROP_MAX i) r = Ok r' ->
  0 <= i < PROP_MAX /\
  freed_and_null (aget Null i (Tag.prop_name r)) (aget Null i (Tag.prop_name r')) /\
  freed_and_null (aget Null i (Tag.prop_value r)) (aget Null i (Tag.prop_value r')).
Proof.
  intros Hn H. destruct n as [|n]; [congruence|]. cbn [for_loop] in H.
  apply bind_ok in H as (r1 & H1 & H).
  apply cleanup_props_diagonal in H1 as (Hi & (N1 & N2) & (V1 & V2)).
  rewrite cleanup_props_nothing in H by auto.
  inversion H; subst r'. unfold freed_and_null. auto.
Qed.

Lemma cleanup_record_cleaned (i : Z) (g g' : tagsys) :
  cleanup_record PROP_MAX i g = Ok g' ->
  cleaned PROP_MAX i (tag_at i g) (tag_at i g').
Proof.
  intros H.
  pose proof (cleanup_record_off_diagonal i g g' H) as (_ & _ & Hoff & Hfree).
  unfold cleaned. split; [exact Hfree|]. split; [exact Hoff|].
  unfold cleanup_record in H.
  destruct (in_bounds i COMMAND_MAX); [|discriminate].
  apply bind_ok in H as (p & _ & H). apply bind_ok in H as (r & Hr & H).
  inversion H; subst g'. clear H. rewrite tag_at_update_tag_same.
  split.
  - intros Hpos. apply cleanup_props_loop_diagonal in Hr; [|lia].
    destruct Hr as (Hi & K1 & K2). destruct (tag_at i g); cbn in *.
    split; [lia|]. auto.
  - intros Hnone. assert (E : Z.to_nat PROP_MAX = O) by lia.
    rewrite E in Hr. cbn [for_loop] in Hr. inversion Hr; subst r.
    destruct (tag_at i g); cbn. auto.
Qed.

(** The outer loop, turn by turn: the records of the indices it visits
    are cleaned, each once, and the others are not touched. *)
Lemma cleanup_loop_cleaned (n : nat) :
  forall (from : Z) (g g' : tagsys),
    0 <= from ->
    for_loop n from (cleanup_record PROP_MAX) g = Ok g' ->
    (forall i, from <= i < from + Z.of_nat n ->
               cleaned PROP_MAX i (tag_at i g) (tag_at i g')) /\
    (forall i, 0 <= i -> i < from \/ from + Z.of_nat n <= i ->
               tag_at i g' = tag_at i g).
Proof.
  induction n as [|n IH]; intros from g g' Hfrom H; cbn [for_loop] in H.
  - inversion H; subst g'. split; [intros i Hi; cbn in Hi; lia | reflexivity].
  - apply bind_ok in H as (g1 & H1 & H).
    pose proof (cleanup_record_cleaned from g g1 H1) as Hc.
    apply cleanup_record_off_diagonal in H1 as (_ & (_ & _ & _ & Hsame) & _ & _).
    apply IH in H as (Hin & Hout); [|lia].
    rewrite Nat2Z.inj_succ. split.
    + intros i Hi. destruct (Z.eq_dec i from) as [->|Hne].
      * rewrite Hout by lia. exact Hc.
      * rewrite <- (Hsame i) by lia. apply Hin. lia.
    + intros i Hi Hor. rewrite Hout by lia. apply Hsame; lia.
Qed.

(** X18.  [cleanup_tag] keeps every record in the table and frees, of
    the record of index [i], the name and the two property strings of
    index [i] only.  The number of records is as it was.  Of each
    record [i] below that number the name is freed, its pointer kept;
    the two strings at index [i] are freed and their pointers set to
    [NULL] (which requires [i < PROP_MAX]; nothing of the two tables
    changes when [PROP_MAX] is not positive); the number of
    properties, the line, and every property string whose index is not
    the index of its record are as they were.  The cells at and beyond
    the number of records are not touched. *)
Theorem cleanup_frees_the_diagonal_only (g g' : tagsys) :
  cleanup_tag PROP_MAX g = Ok g' ->
  tag_size g' = tag_size g /\
  (forall i, 0 <= i < tag_size g ->
             cleaned PROP_MAX i (tag_at i g) (tag_at i g')) /\
  (forall i, 0 <= i -> tag_size g <= i -> tag_at i g' = tag_at i g).
Proof.
  intros H. split; [apply cleanup_tag_fields in H; tauto|].
  unfold cleanup_tag in H.
  set (g0 := set_cur_file EmptyString (set_cur_index 0 g)) in *.
  change (tag_size g0) with (tag_size g) in H.
  apply cleanup_loop_cleaned in H as (Hin & Hout); [|lia].
  split.
  - intros i Hi. apply (Hin i). lia.
  - intros i Hi Hs. apply (Hout i Hi). lia.
Qed.

(** *** A second cleanup *)

Lemma cleanup_loop_keeps_below (n : nat) :
  forall (i : Z) (g g' : tagsys),
    0 <= i ->
    for_loop n i (cleanup_record PROP_MAX) g = Ok g' ->
    tag_size g' = tag_size g /\
    forall k, 0 <= k < i -> tag_at k g' = tag_at k g.
Proof.
  induction n as [|n IH]; intros i g g' Hi H; cbn [for_loop] in H.
  - inversion H; subst. auto.
  - apply bind_ok in H as (g1 & H1 & H).
    apply IH in H as (Hs & Hk); [|lia].
    apply cleanup_record_off_diagonal in H1 as (_ & (_ & _ & S3 & S4) & _ & _).
    split; [congruence|]. intros k Hk'. rewrite Hk by lia. apply S4; lia.
Qed.

Lemma cleanup_tag_frees_first_name (g g' : tagsys) :
  1 <= tag_size g ->
  cleanup_tag PROP_MAX g = Ok g' ->
  tag_size g' = tag_size g /\
  free (Tag.tag_name (tag_at 0 g)) = Ok (Tag.tag_name (tag_at 0 g')).
Proof.
  intros Hsize H. unfold cleanup_tag in H.
  set (g0 := set_cur_file EmptyString (set_cur_index 0 g)) in *.
  change (tag_size g0) with (tag_size g) in H.
  destruct (Z.to_nat (tag_size g)) as [|n] eqn:En; [lia|].
  cbn [for_loop] in H. apply bind_ok in H as (g1 & H1 & H).
  apply cleanup_loop_keeps_below in H as (Hs & Hk); [|lia].
  apply cleanup_record_off_diagonal in H1 as (_ & (_ & _ & S3 & _) & _ & Hfree).
  split; [rewrite Hs, S3; reflexivity|].
  rewrite Hk by lia. exact Hfree.
Qed.

Lemma cleanup_tag_double_free (g : tagsys) :
  1 <= tag_size g -> Tag.tag_name (tag_at 0 g) = Dangling ->
  cleanup_tag PROP_MAX g = Undef.
Proof.
  intros Hsize Hname. unfold cleanup_tag.
  set (g0 := set_cur_file EmptyString (set_cur_index 0 g)) in *.
  change (tag_size g0) with (tag_size g).
  destruct (Z.to_nat (tag_size g)) as [|n] eqn:En; [lia|].
  cbn [for_loop]. unfold cleanup_record at 1.
  change (in_bounds 0 COMMAND_MAX) with true. cbv iota.
  change (tag_at 0 g0) with (tag_at 0 g). rewrite Hname. reflexivity.
Qed.

(** X19.  [cleanup_tag] frees the name of each record but keeps the
    pointer and the record.  Once it has run on a store whose first
    record has a name, every later run frees that name a second time:
    a second [cleanup_tag], an [init_tag], and every [load_tag_file]
    whose file can be read have no defined behaviour, whatever was
    loaded in between. *)
Theorem second_cleanup_frees_twice (g g1 : tagsys) (s : string) :
  1 <= tag_size g -> Tag.tag_name (tag_at 0 g) = Live s ->
  cleanup_tag PROP_MAX g = Ok g1 ->
  cleanup_tag PROP_MAX g1 = Undef /\ init_tag PROP_MAX g1 = Undef /\
  forall file doc ok g2 file' doc',
    load_file file = Some doc ->
    load_tag_file PROP_MAX load_file file g = Ok (ok, g2) ->
    load_file file' = Some doc' ->
    load_tag_file PROP_MAX load_file file' g2 = Undef.
Proof.
  intros Hsize Hname Hc.
  destruct (cleanup_tag_frees_first_name g g1 Hsize Hc) as (Hs1 & Hfree).
  rewrite Hname in Hfree. cbn [free] in Hfree. inversion Hfree as [Hd].
  assert (Hundef : cleanup_tag PROP_MAX g1 = Undef)
    by (apply cleanup_tag_double_free; [lia | auto]).
  split; [exact Hundef|]. split; [exact Hundef|].
  intros file doc ok g2 file' doc' Hf Hl Hf'.
  destruct (load_tag_file_read_ok PROP_MAX load_file file doc g g2 ok Hf Hl)
    as (g0 & Hc0 & _ & Hsize2 & Hsame).
  rewrite Hc in Hc0. inversion Hc0; subst g0.
  rewrite load_tag_file_outside. rewrite Hf'.
  rewrite cleanup_tag_double_free; [reflexivity | lia |].
  rewrite Hsame by lia. auto.
Qed.

(** X20.  After a call of [load_tag_file] with a name [file] that the
    caller keeps in storage of its own (not the buffer that
    [get_tag_file_name] hands out, which [cleanup_tag] empties before
    the name is copied into it), the string read through the pointer
    that [get_tag_file_name] returns is that name, cut to 1023
    characters, when the file could be read, whether the document was
    accepted or not; it is the string of before when the file could not
    be read. *)
Theorem file_name_after_load (file : string) (g g' : tagsys) (ok : bool) :
  load_tag_file PROP_MAX load_file (Outside file) g = Ok (ok, g') ->
  name_at (get_tag_file_name g') g'
  = match load_file file with
    | Some _ => take 1023 file
    | None => name_at (get_tag_file_name g) g
    end.
Proof.
  intros H. rewrite load_tag_file_outside in H.
  destruct (load_file file) as [buf|]; [|inversion H; subst; reflexivity].
  apply bind_ok in H as (g0 & Hc & H).
  apply bind_ok in H as ([[[b msg] ln] g1] & Hp & H).
  apply parse_tag_document_extends in Hp as (_ & P2 & _).
  cbn in P2. unfold get_tag_file_name, name_at.
  destruct b; cbn in H; inversion H; subst; cbn; exact P2.
Qed.

End Cleanup.

(** ** Reloading *)

Lemma set_nth_length {A : Type} (d v : A) (n : nat) (l : list A) :
  (n < length l)%nat -> length (set_nth d n v l) = length l.
Proof.
  revert l. induction n as [|n IH]; intros [|x t] H; cbn in *; try lia.
  now rewrite IH by lia.
Qed.

Section Reload.

Variable PROP_MAX : Z.
Variable load_file : string -> option string.

(** A tag that the record builder accepts becomes one more record, after
    those that the store holds. *)
Lemma parse_tag_callback_appends name props pn pv ln g g' base evs :
  holds_after base g evs ->
  parse_tag_callback PROP_MAX name props pn pv ln g = Ok (true, g') ->
  holds_after base g'
    (evs ++ [mkEvent name props (rows pn 0 (Z.to_nat props))
                     (rows pv 0 (Z.to_nat props)) ln])%list.
Proof.
  intros (Hh & Ht & Hs & _) H. unfold parse_tag_callback in H. cbv zeta in H.
  destruct (COMMAND_MAX <=? tag_size g) eqn:Hfull; [discriminate|].
  apply Z.leb_gt in Hfull.
  destruct (in_bounds (tag_size g) COMMAND_MAX); [|discriminate].
  assert (Hslot : tag_size g = Z.of_nat (length (tag g)))
    by (rewrite Ht, length_app, length_map; exact Hs).
  rewrite (update_tag_new (tag_size g) (Tag.set_prop_count props)
                          (set_tag_size (tag_size g + 1) g) Hslot) in H.
  rewrite strdup_never_fails in H by exact Hh.
  rewrite update_tag_last
    with (base := tag g) (r := Tag.set_prop_count props Tag.zero) in H
    by (reflexivity || exact Hslot).
  apply bind_ok in H as ([ok g1] & Hc & H).
  destruct ok; [|discriminate].
  rewrite Hslot in Hc.
  apply copy_props_builds
    with (r := Tag.set_tag_name (Live name) (Tag.set_prop_count props Tag.zero)) in Hc;
    [ | exact Hh | reflexivity | reflexivity | reflexivity].
  inversion H; subst g' g1.
  erewrite update_tag_last with (base := tag g) by (reflexivity || exact Hslot).
  unfold holds_after. cbn. repeat split.
  - exact Hh.
  - rewrite Ht, map_app, <- app_assoc. reflexivity.
  - rewrite length_app. cbn. lia.
  - lia.
Qed.

Lemma scan_appends (top : string) (l l' : locals) (g g' : tagsys)
      (base : list Tag.t) (evs : list event) :
  holds_after base g evs ->
  scan PROP_MAX tagsys (parse_tag_callback PROP_MAX) top l g = Ok (AtEnd l' g') ->
  exists evs',
    scan PROP_MAX (list event) record_event top l evs = Ok (AtEnd l' evs') /\
    holds_after base g' evs'.
Proof.
  intros Hh H.
  eapply (scan_sim PROP_MAX tagsys (list event) (parse_tag_callback PROP_MAX)
                   record_event (holds_after base)); eauto.
  intros name props pn pv ln w1 w2 w1' HS Hcb.
  eexists. split; [reflexivity|].
  eapply parse_tag_callback_appends; eauto.
Qed.

Lemma compact_holds_after (g : tagsys) : compact g <-> holds_after (tag g) g [].
Proof.
  unfold compact, holds_after. cbn [map length]. rewrite app_nil_r, Nat.add_0_r.
  tauto.
Qed.

Lemma holds_after_compact (base : list Tag.t) (g : tagsys) (evs : list event) :
  holds_after base g evs -> compact g.
Proof.
  intros (Hh & Ht & Hs & Hc). unfold compact.
  rewrite Ht, length_app, length_map. auto.
Qed.

Lemma parse_tag_callback_compact name props pn pv ln g ok g' :
  parse_tag_callback PROP_MAX name props pn pv ln g = Ok (ok, g') ->
  compact g -> compact g'.
Proof.
  intros H Hg. destruct ok.
  - apply compact_holds_after in Hg.
    eapply holds_after_compact. eapply parse_tag_callback_appends; eauto.
  - destruct Hg as (Hh & Hs & Hc).
    unfold parse_tag_callback in H. cbv zeta in H.
    destruct (COMMAND_MAX <=? tag_size g).
    + inversion H; subst g'. unfold compact. cbn. auto.
    + destruct (in_bounds (tag_size g) COMMAND_MAX); [|discriminate].
      rewrite strdup_never_fails in H by exact Hh.
      apply bind_ok in H as ([ok g1] & Hcp & H).
      apply copy_props_accepts in Hcp; [|exact Hh]. subst ok. discriminate.
Qed.

(** [cleanup_tag] keeps the table as long as it was, and does not touch
    the allocator. *)
Lemma cleanup_loop_compact (n : nat) :
  forall (i : Z) (g g' : tagsys),
    0 <= i -> i + Z.of_nat n <= Z.of_nat (length (tag g)) ->
    for_loop n i (cleanup_record PROP_MAX) g = Ok g' ->
    length (tag g') = length (tag g) /\ heap g' = heap g.
Proof.
  induction n as [|n IH]; intros i g g' Hi Hn H; cbn [for_loop] in H.
  - inversion H; subst. auto.
  - apply bind_ok in H as (g1 & H1 & H).
    assert (E1 : length (tag g1) = length (tag g) /\ heap g1 = heap g).
    { unfold cleanup_record in H1.
      destruct (in_bounds i COMMAND_MAX); [|discriminate].
      apply bind_ok in H1 as (p & _ & H1). apply bind_ok in H1 as (r & _ & H1).
      inversion H1; subst g1. unfold update_tag, aset. cbn [tag heap set_tag].
      split; [|reflexivity]. apply set_nth_length. lia. }
    destruct E1 as (E1 & E2).
    apply IH in H; [|lia|rewrite E1; lia].
    destruct H as (K1 & K2). split; congruence.
Qed.

Lemma cleanup_tag_compact (g g' : tagsys) :
  cleanup_tag PROP_MAX g = Ok g' -> compact g -> compact g'.
Proof.
  intros H (Hh & Hs & Hc).
  pose proof (cleanup_tag_fields PROP_MAX g g' H) as (_ & _ & Hsize).
  unfold cleanup_tag in H.
  apply cleanup_loop_compact in H;
    [|lia|cbn [tag tag_size set_cur_file set_cur_index]; rewrite Z2Nat.id; lia].
  cbn [tag heap set_cur_file set_cur_index] in H. destruct H as (K1 & K2).
  unfold compact. rewrite K2, K1, Hsize. auto.
Qed.

Lemma load_tag_file_compact (file : string) (g g' : tagsys) (ok : bool) :
  load_tag_file PROP_MAX load_file file g = Ok (ok, g') ->
  compact g -> compact g'.
Proof.
  intros H Hg. rewrite load_tag_file_outside in H.
  destruct (load_file file) as [buf|]; [|inversion H; subst; exact Hg].
  apply bind_ok in H as (g0 & Hc & H).
  apply cleanup_tag_compact in Hc; [|exact Hg].
  assert (Hg0 : compact (set_cur_file (take 1023 file) g0)) by exact Hc.
  apply bind_ok in H as ([[[b msg] ln] g1] & Hp & H).
  assert (Hg1 : compact g1).
  { unfold parse_tag_document in Hp. apply bind_ok in Hp as (e & He & Hp).
    assert (He' : compact (set_cur_file (take 1023 file) g0) -> compact (exit_world e)).
    { refine (scan_rel PROP_MAX tagsys (parse_tag_callback PROP_MAX)
                       (fun a b => compact a -> compact b) _ _ _
                       buf initial_locals _ e He).
      - auto.
      - auto.
      - intros name props pn pv l w ok0 w'. apply parse_tag_callback_compact. }
    specialize (He' Hg0).
    destruct e as [l w|b0 l w]; cbn [exit_world] in He'.
    - destruct (state_eqb (st l) ST_INIT); inversion Hp; subst; exact He'.
    - inversion Hp; subst; exact He'. }
  destruct b; cbn in H; inversion H; subst; exact Hg1.
Qed.

Lemma do_calls_compact (cs : list call) :
  forall g g', do_calls PROP_MAX load_file cs g = Ok g' -> compact g -> compact g'.
Proof.
  induction cs as [|c cs IH]; intros g g' H Hg; cbn [do_calls] in H.
  - inversion H; subst; exact Hg.
  - apply bind_ok in H as (g1 & Hc & H). apply (IH g1 g' H).
    destruct c as [| |file|]; cbn [do_call] in Hc.
    + eapply cleanup_tag_compact; eauto.
    + eapply cleanup_tag_compact; eauto.
    + apply bind_ok in Hc as ([ok g2] & Hl & Hc). inversion Hc; subst.
      eapply load_tag_file_compact; eauto.
    + unfold move_to_next_tag in Hc. apply bind_ok in Hc as (i & _ & Hc).
      inversion Hc; subst. exact Hg.
Qed.

(** X27.  In every state that a process whose allocator never fails
    reaches from its start by calls of [init_tag], [cleanup_tag],
    [load_tag_file] and [move_to_next_tag], a load that succeeds does
    not replace the records of the store: the table holds the records
    that [cleanup_tag] left of the old ones, in their cells, followed by
    the records of the tags of the new document, and the number of
    records has grown by the number of these tags.  The cursor, at 0,
    is on the first of the old records when there is one. *)
Theorem reload_appends (cs : list call) (file doc : string) (g g' : tagsys) :
  do_calls PROP_MAX load_file cs (boot []) = Ok g ->
  load_file file = Some doc ->
  load_tag_file PROP_MAX load_file file g = Ok (true, g') ->
  exists g0 evs msg ln,
    cleanup_tag PROP_MAX g = Ok g0 /\
    parse_tag_document PROP_MAX (list event) record_event doc []
      = Ok (true, msg, ln, evs) /\
    tag g' = (tag g0 ++ map record_of evs)%list /\
    tag_size g' = tag_size g + Z.of_nat (length evs) /\
    cur_index g' = 0.
Proof.
  intros Hreach Hf H.
  assert (Hg : compact g).
  { apply (do_calls_compact cs _ _ Hreach).
    unfold compact, COMMAND_MAX. cbn. repeat split; lia. }
  destruct (load_tag_file_read_ok PROP_MAX load_file _ _ _ _ _ Hf H)
    as (g0 & Hclean & Hcur & _).
  pose proof (cleanup_tag_fields PROP_MAX g g0 Hclean) as (_ & _ & Hsize0).
  pose proof (cleanup_tag_compact g g0 Hclean Hg) as Hg0.
  rewrite load_tag_file_outside in H. rewrite Hf, Hclean in H. cbn [bind] in H.
  apply bind_ok in H as ([[[ok msg] ln] g1] & Hp & H).
  destruct ok; [|discriminate]. inversion H; subst g1.
  destruct (success_means_end_in_init _ _ _ _ _ _ _ _ Hp) as (l & Hscan & Hst).
  apply scan_appends with (base := tag g0) (evs := []) in Hscan.
  - destruct Hscan as (evs & Hrec & (Hh & Ht & Hs & Hc)).
    exists g0, evs, (error_msg l), (error_line l).
    split; [exact Hclean|]. split; [|split; [exact Ht|split; [|exact Hcur]]].
    + unfold parse_tag_document. rewrite Hrec. cbn [bind]. now rewrite Hst.
    + destruct Hg0 as (_ & Hs0 & _). rewrite Hs, <- Hsize0, Hs0. lia.
  - apply compact_holds_after in Hg0. exact Hg0.
Qed.




End Reload.

(** ** Reading the records in order *)

(** X21.  On a store of [N] records, at most 65536, with the cursor at
    0: after [k] calls of [move_to_next_tag], [get_current_tag] returns
    the record of index [k] and [get_tag_line] its line while [k < N];
    at [k = N] they return [NULL] and -1.  The records are read in the
    order of the table, each once. *)
Theorem cursor_reads_in_order (g : tagsys) (k : nat) :
  cur_index g = 0 -> tag_size g <= COMMAND_MAX ->
  Z.of_nat k <= tag_size g ->
  exists g',
    advance k g = Ok g' /\
    (Z.of_nat k < tag_size g ->
     get_current_tag g' = Ok (Some (tag_at (Z.of_nat k) g)) /\
     get_tag_line g' = Ok (Tag.line (tag_at (Z.of_nat k) g))) /\
    (Z.of_nat k = tag_size g ->
     get_current_tag g' = Ok None /\ get_tag_line g' = Ok (-1)).
Proof. apply cursor_walk. Qed.

(** ** Instances *)

Lemma failure_is_diagnosed_witness :
  parse_tag_document 1 unit accept_all tag_then_garbage tt
    = Ok (false, Some "Invalid character.", Some 1, tt) /\
  exists m n,
    Some "Invalid character." = Some m /\ Some 1 = Some n /\ In m messages /\
    1 <= n <= 1 + newlines tag_then_garbage.
Proof.
  split; [vm_compute; reflexivity|].
  apply (failure_is_diagnosed 1 unit accept_all tag_then_garbage tt tt).
  vm_compute; reflexivity.
Defined.

Lemma success_leaves_stale_message_at_most_witness :
  parse_tag_document 2 unit accept_all marked_name tt
    = Ok (true, Some "Invalid character.", Some 1, tt) /\
  (exists l, scan 2 unit accept_all marked_name initial_locals tt = Ok (AtEnd l tt) /\
             st l = ST_INIT) /\
  ((Some "Invalid character." = None /\ Some 1 = None) \/
   (Some "Invalid character." = Some "Invalid character." /\
    exists n, Some 1 = Some n /\ 1 <= n <= 1 + newlines marked_name)).
Proof.
  split; [vm_compute; reflexivity|].
  apply (success_leaves_stale_message_at_most 2 unit accept_all marked_name tt tt).
  vm_compute; reflexivity.
Defined.

Lemma blank_document_accepted_witness :
  all_chars is_blank_or_newline blank_lines = true /\
  1 + newlines blank_lines <= INT_MAX /\
  parse_tag_document 1 unit accept_all blank_lines tt = Ok (true, None, None, tt).
Proof.
  assert (H1 : all_chars is_blank_or_newline blank_lines = true) by reflexivity.
  assert (H2 : 1 + newlines blank_lines <= INT_MAX) by (vm_compute; discriminate).
  split; [exact H1|]. split; [exact H2|].
  exact (blank_document_accepted 1 unit accept_all blank_lines tt H1 H2).
Defined.

Lemma stray_character_rejected_witness :
  scan 1 unit accept_all (blank_lines ++ String "x" "y") initial_locals tt
    = Ok (Returned false
            (set_error "Invalid character."
               (set_line (line initial_locals + newlines blank_lines) initial_locals))
            tt) /\
  parse_tag_document 1 unit accept_all (blank_lines ++ String "x" "y") tt
    = Ok (false, Some "Invalid character.", Some (1 + newlines blank_lines), tt).
Proof.
  assert (H : st initial_locals = ST_INIT /\
              all_chars is_blank_or_newline blank_lines = true /\
              line initial_locals + newlines blank_lines <= INT_MAX /\
              is_blank_or_newline "x" = false /\
              "x"%char <> LBRACKET /\ "x"%char <> NUL).
  { repeat split; try reflexivity; discriminate. }
  destruct H as (H1 & H2 & H3 & H4 & H5 & H6).
  split.
  - exact (proj1 (stray_character_rejected 1 unit accept_all blank_lines "y" "x"
                    initial_locals tt H1 H2 H3 H4 H5 H6)).
  - exact (proj2 (stray_character_rejected 1 unit accept_all blank_lines "y" "x"
                    initial_locals tt H1 H2 H3 H4 H5 H6) eq_refl).
Defined.

Lemma tag_without_properties_witness :
  st initial_locals = ST_INIT /\
  all_chars is_tag_name_char "say" = true /\
  Z.of_nat (String.length "say") < TAG_NAME_MAX /\
  scan 1 unit accept_all ("[" ++ "say" ++ "]" ++ "x") initial_locals tt
  = (r <- accept_all "say" 0 None None (line initial_locals) tt;;
     if fst r
     then scan 1 unit accept_all "x" (set_st ST_INIT (named "say" initial_locals)) (snd r)
     else Ok (Returned false
                (set_error "Too many properties."
                           (set_st ST_TAGNAME (named "say" initial_locals))) (snd r))).
Proof.
  assert (H1 : st initial_locals = ST_INIT) by reflexivity.
  assert (H2 : all_chars is_tag_name_char "say" = true) by reflexivity.
  assert (H3 : Z.of_nat (String.length "say") < TAG_NAME_MAX) by reflexivity.
  split; [exact H1|]. split; [exact H2|]. split; [exact H3|].
  exact (tag_without_properties 1 unit accept_all "say" "x" initial_locals tt H1 H2 H3).
Defined.

Lemma tag_name_capacity_witness :
  Z.of_nat (String.length (replicate 128 "x")) = TAG_NAME_MAX /\
  scan 1 unit accept_all ("[" ++ replicate 128 "x" ++ String RBRACKET "") initial_locals tt
    = Undef /\
  scan 1 unit accept_all ("[" ++ replicate 128 "x" ++ String "y" "]") initial_locals tt
    = Ok (Returned false
            (set_error "Tag name too long."
                       (set_st ST_TAGNAME (named (replicate 128 "x") initial_locals))) tt).
Proof.
  assert (H1 : st initial_locals = ST_INIT) by reflexivity.
  assert (H2 : all_chars is_tag_name_char (replicate 128 "x") = true)
    by (vm_compute; reflexivity).
  assert (H3 : Z.of_nat (String.length (replicate 128 "x")) = TAG_NAME_MAX)
    by (vm_compute; reflexivity).
  split; [exact H3|]. split.
  - exact (proj1 (tag_name_capacity 1 unit accept_all (replicate 128 "x") ""
                    initial_locals tt H1 H2 H3) RBRACKET (or_intror eq_refl)).
  - exact (proj2 (tag_name_capacity 1 unit accept_all (replicate 128 "x") "]"
                    initial_locals tt H1 H2 H3) "y"%char eq_refl).
Defined.

Lemma tag_with_properties_witness :
  name_ok "say" = true /\
  forallb prop_ok [("text", "hi"); ("who", "you")] = true /\
  scan 4 unit accept_all (write_tag "say" [("text", "hi"); ("who", "you")] ++ "x")
       initial_locals tt
  = (r <- accept_all "say" (Z.of_nat (length (@nil string) + 2))
                     (Some ([] ++ ["text"; "who"])%list)
                     (Some ([] ++ ["hi"; "you"])%list) (line initial_locals) tt;;
     let l' := with_props [("text", "hi"); ("who", "you")]
                 (set_len 0 (set_st ST_PROPNAME (set_tag_name "say" initial_locals))) in
     if fst r
     then scan 4 unit accept_all "x" (set_st ST_INIT l') (snd r)
     else Ok (Returned false (set_error "Internal error." l') (snd r))).
Proof.
  assert (H1 : st initial_locals = ST_INIT) by reflexivity.
  assert (H2 : tables [] [] initial_locals) by (repeat split).
  assert (H3 : name_ok "say" = true) by reflexivity.
  assert (H4 : [("text", "hi"); ("who", "you")] <> @nil (string * string))
    by discriminate.
  assert (H5 : forallb prop_ok [("text", "hi"); ("who", "you")] = true)
    by (vm_compute; reflexivity).
  assert (H6 : prop_count initial_locals
               + Z.of_nat (length [("text", "hi"); ("who", "you")]) < 4)
    by reflexivity.
  split; [exact H3|]. split; [exact H5|].
  exact (tag_with_properties 4 unit accept_all "say" "x"
           [("text", "hi"); ("who", "you")] [] [] initial_locals tt
           H1 H2 H3 H4 H5 H6).
Defined.

Lemma written_document_is_read_witness :
  forallb tag_ok sample_tags = true /\
  Z.of_nat (total_props sample_tags) < 4 /\
  1 + Z.of_nat (length sample_tags) <= INT_MAX /\
  parse_tag_document 4 (list event) record_event (write_doc sample_tags) []
  = Ok (true, None, None, events_of sample_tags [] [] 1).
Proof.
  assert (H1 : forallb tag_ok sample_tags = true) by (vm_compute; reflexivity).
  assert (H2 : Z.of_nat (total_props sample_tags) < 4) by reflexivity.
  assert (H3 : 1 + Z.of_nat (length sample_tags) <= INT_MAX) by discriminate.
  split; [exact H1|]. split; [exact H2|]. split; [exact H3|].
  exact (written_document_is_read 4 sample_tags H1 H2 H3).
Defined.

Lemma written_document_is_loaded_witness :
  holds (boot []) [] /\
  only (write_doc sample_tags) "story" = Some (write_doc sample_tags) /\
  forallb tag_ok sample_tags = true /\
  Z.of_nat (total_props sample_tags) < 4 /\
  Z.of_nat (length sample_tags) <= COMMAND_MAX /\
  exists g',
    load_tag_file 4 (only (write_doc sample_tags)) (Outside "story") (boot [])
    = Ok (true, g') /\
    holds g' (events_of sample_tags [] [] 1) /\
    cur_index g' = 0.
Proof.
  assert (H1 : forallb tag_ok sample_tags = true) by (vm_compute; reflexivity).
  assert (H2 : Z.of_nat (total_props sample_tags) < 4) by reflexivity.
  assert (H3 : Z.of_nat (length sample_tags) <= COMMAND_MAX) by discriminate.
  split; [exact boot_holds|]. split; [reflexivity|].
  split; [exact H1|]. split; [exact H2|]. split; [exact H3|].
  exact (written_document_is_loaded 4 (only (write_doc sample_tags)) "story"
           sample_tags (boot []) boot_holds eq_refl H1 H2 H3).
Defined.

Lemma prop_name_capacity_witness :
  Z.of_nat (String.length (replicate 128 "k")) = PROP_NAME_MAX /\
  scan 1 unit accept_all (replicate 128 "k" ++ String EQUALS "x") before_props tt
    = Undef /\
  scan 1 unit accept_all (replicate 128 "k" ++ String "k" "x") before_props tt
    = Ok (Returned false
            (set_error "Property name too long."
                       (key_so_far [] (replicate 128 "k") before_props)) tt).
Proof.
  assert (H1 : st before_props = ST_PROPNAME) by reflexivity.
  assert (H2 : len before_props = 0) by reflexivity.
  assert (H3 : tables [] [] before_props) by (repeat split).
  assert (H4 : prop_count before_props < 1) by reflexivity.
  assert (H5 : all_chars is_prop_name_char (replicate 128 "k") = true)
    by (vm_compute; reflexivity).
  assert (H6 : Z.of_nat (String.length (replicate 128 "k")) = PROP_NAME_MAX)
    by (vm_compute; reflexivity).
  split; [exact H6|]. split.
  - exact (proj1 (prop_name_capacity 1 unit accept_all (replicate 128 "k") "x" [] []
                    before_props tt H1 H2 H3 H4 H5 H6)).
  - refine (proj2 (prop_name_capacity 1 unit accept_all (replicate 128 "k") "x" [] []
                     before_props tt H1 H2 H3 H4 H5 H6) "k"%char _ _); discriminate.
Defined.

Lemma prop_value_capacity_witness :
  Z.of_nat (String.length (replicate 4096 "x")) = PROP_VALUE_MAX /\
  scan 1 unit accept_all (escape (replicate 4096 "x") ++ String DQUOTE "]") in_value tt
    = Undef /\
  scan 1 unit accept_all (escape (replicate 4096 "x") ++ String BACKSLASH "]") in_value tt
    = Undef /\
  scan 1 unit accept_all (escape (replicate 4096 "x") ++ String "y" "]") in_value tt
    = Ok (Returned false
            (set_error "Property value too long." (stored (replicate 4096 "x") in_value))
            tt).
Proof.
  assert (H1 : st in_value = ST_PROPVALUE_BODY) by reflexivity.
  assert (H2 : len in_value = 0) by reflexivity.
  assert (H3 : 0 <= prop_count in_value < 1) by (split; [discriminate|reflexivity]).
  assert (H4 : all_chars (fun c => negb (Ascii.eqb c NUL)) (replicate 4096 "x") = true)
    by (vm_compute; reflexivity).
  assert (H5 : Z.of_nat (String.length (replicate 4096 "x")) = PROP_VALUE_MAX)
    by (vm_compute; reflexivity).
  pose proof (prop_value_capacity 1 unit accept_all (replicate 4096 "x") "]"
                in_value tt H1 H2 H3 H4 H5) as (K1 & K2 & K3).
  split; [exact H5|]. split; [exact K1|]. split; [exact K2|].
  apply K3; discriminate.
Defined.

Lemma text_before_value_is_skipped_witness :
  scan 1 unit accept_all (("x" ++ NL ++ "y") ++ String DQUOTE "1") before_quote tt
  = scan 1 unit accept_all "1"
         (set_len 0 (set_st ST_PROPVALUE_BODY
                            (set_line (line before_quote + newlines ("x" ++ NL ++ "y"))
                                      before_quote))) tt.
Proof.
  apply (text_before_value_is_skipped 1 unit accept_all ("x" ++ NL ++ "y") "1"
           before_quote tt); [reflexivity | reflexivity | discriminate].
Defined.

Lemma character_skipped_in_property_name_witness :
  key_ok ("a" ++ "b") = true /\ is_prop_name_char "!" = false /\
  scan 1 unit accept_all ("a" ++ String "!" ("b" ++ "=" ++ Q ++ "1")) before_props tt
  = scan 1 unit accept_all "1"
         (set_error "Invalid character."
            (set_len 0 (set_st ST_PROPVALUE_BODY
                               (set_prop_name ([] ++ ["a" ++ "b"]) before_props)))) tt.
Proof.
  split; [reflexivity|]. split; [reflexivity|].
  apply (character_skipped_in_property_name 1 unit accept_all "a" "b" "1" "!"
           [] [] before_props tt);
    try reflexivity; try discriminate; try (repeat split); intros _; discriminate.
Defined.

Lemma getters_stay_in_the_table_witness :
  do_calls 1 two_files [CallInit; CallLoad "A"; CallNext; CallNext; CallLoad "B"; CallNext]
           (boot [])
    = Ok (set_cur_index 1 after_A_B) /\
  well_formed (set_cur_index 1 after_A_B) /\
  (exists r, get_current_tag (set_cur_index 1 after_A_B) = Ok r) /\
  (exists n, get_tag_line (set_cur_index 1 after_A_B) = Ok n).
Proof.
  split; [vm_compute; reflexivity|].
  apply (getters_stay_in_the_table 1 two_files
           [CallInit; CallLoad "A"; CallNext; CallNext; CallLoad "B"; CallNext] []).
  vm_compute; reflexivity.
Defined.

Lemma accepted_tag_is_stored_witness :
  parse_tag_callback 2 "b" 1 (Some ["k"]) (Some ["v"]) 7 after_A
    = Ok (true, mkSys "A" 0 [record_A; Tag.mk (Live "b") 1 [Live "k"] [Live "v"] 7] 2 [] []) /\
  exists g',
    parse_tag_callback 2 "b" 1 (Some ["k"]) (Some ["v"]) 7 after_A = Ok (true, g') /\
    tag_size g' = tag_size after_A + 1 /\ log g' = log after_A /\ extends after_A g' /\
    Tag.tag_name (tag_at (tag_size after_A) g') = Live "b" /\
    Tag.prop_count (tag_at (tag_size after_A) g') = 1 /\
    Tag.line (tag_at (tag_size after_A) g') = 7 /\
    (forall j, 0 <= j < 1 ->
       exists k v,
         deref (Some ["k"]) j = Ok k /\ deref (Some ["v"]) j = Ok v /\
         aget Null j (Tag.prop_name (tag_at (tag_size after_A) g')) = Live k /\
         aget Null j (Tag.prop_value (tag_at (tag_size after_A) g')) = Live v).
Proof.
  assert (H : parse_tag_callback 2 "b" 1 (Some ["k"]) (Some ["v"]) 7 after_A
              = Ok (true, mkSys "A" 0 [record_A; Tag.mk (Live "b") 1 [Live "k"] [Live "v"] 7]
                                2 [] []))
    by (vm_compute; reflexivity).
  split; [exact H|]. eexists. split; [exact H|].
  exact (accepted_tag_is_stored 2 "b" 1 (Some ["k"]) (Some ["v"]) 7 after_A _ H).
Defined.

Lemma refused_tag_is_logged_witness :
  parse_tag_callback 2 "b" 1 (Some ["k"]) (Some ["v"]) 7 (boot [true; false])
    = Ok (false, mkSys EmptyString 0 [Tag.mk (Live "b") 1 [Null] [] 0] 1 [OutOfMemory] []) /\
  ((COMMAND_MAX <= tag_size (boot [true; false]) /\
    mkSys EmptyString 0 [Tag.mk (Live "b") 1 [Null] [] 0] 1 [OutOfMemory] []
    = log_error TooManyTags (boot [true; false])) \/
   (tag_size (boot [true; false]) < COMMAND_MAX /\
    tag_size (mkSys EmptyString 0 [Tag.mk (Live "b") 1 [Null] [] 0] 1 [OutOfMemory] [])
    = tag_size (boot [true; false]) + 1 /\
    log (mkSys EmptyString 0 [Tag.mk (Live "b") 1 [Null] [] 0] 1 [OutOfMemory] [])
    = (log (boot [true; false]) ++ [OutOfMemory])%list)).
Proof.
  assert (H : parse_tag_callback 2 "b" 1 (Some ["k"]) (Some ["v"]) 7 (boot [true; false])
              = Ok (false, mkSys EmptyString 0 [Tag.mk (Live "b") 1 [Null] [] 0] 1
                                 [OutOfMemory] []))
    by (vm_compute; reflexivity).
  split; [exact H|].
  exact (refused_tag_is_logged 2 "b" 1 (Some ["k"]) (Some ["v"]) 7 (boot [true; false]) _ H).
Defined.

Lemma cleanup_frees_the_diagonal_only_witness :
  cleanup_tag 2 two_props = Ok two_props_cleaned /\
  tag_size two_props_cleaned = tag_size two_props /\
  (forall i, 0 <= i < tag_size two_props ->
             cleaned 2 i (tag_at i two_props) (tag_at i two_props_cleaned)) /\
  (forall i, 0 <= i -> tag_size two_props <= i ->
             tag_at i two_props_cleaned = tag_at i two_props).
Proof.
  assert (H : cleanup_tag 2 two_props = Ok two_props_cleaned) by (vm_compute; reflexivity).
  split; [exact H|].
  exact (cleanup_frees_the_diagonal_only 2 two_props two_props_cleaned H).
Defined.

Lemma second_cleanup_frees_twice_witness :
  1 <= tag_size after_A /\ Tag.tag_name (tag_at 0 after_A) = Live "a" /\
  cleanup_tag 1 after_A = Ok cleaned_A /\
  cleanup_tag 1 cleaned_A = Undef /\ init_tag 1 cleaned_A = Undef /\
  load_tag_file 1 two_files "B" after_A = Ok (true, after_A_B) /\
  load_tag_file 1 two_files "A" after_A_B = Undef.
Proof.
  assert (H1 : 1 <= tag_size after_A) by discriminate.
  assert (H2 : Tag.tag_name (tag_at 0 after_A) = Live "a") by reflexivity.
  assert (H3 : cleanup_tag 1 after_A = Ok cleaned_A) by (vm_compute; reflexivity).
  assert (H4 : load_tag_file 1 two_files "B" after_A = Ok (true, after_A_B))
    by (vm_compute; reflexivity).
  pose proof (second_cleanup_frees_twice 1 two_files after_A cleaned_A "a" H1 H2 H3)
    as (K1 & K2 & K3).
  split; [exact H1|]. split; [exact H2|]. split; [exact H3|].
  split; [exact K1|]. split; [exact K2|]. split; [exact H4|].
  exact (K3 "B" doc_B true after_A_B "A" doc_A eq_refl H4 eq_refl).
Defined.


Lemma file_name_after_load_witness :
  load_tag_file 1 two_files (Outside "B") after_A = Ok (true, after_A_B) /\
  name_at (get_tag_file_name after_A_B) after_A_B
  = match two_files "B" with
    | Some _ => take 1023 "B"
    | None => name_at (get_tag_file_name after_A) after_A
    end.
Proof.
  assert (H : load_tag_file 1 two_files (Outside "B") after_A = Ok (true, after_A_B))
    by (vm_compute; reflexivity).
  split; [exact H|].
  exact (file_name_after_load 1 two_files "B" after_A after_A_B true H).
Defined.

Lemma property_limit_is_per_document_witness :
  forallb tag_ok [("say", [("text", "hi")])] = true /\
  Z.of_nat (total_props [("say", [("text", "hi")])] + length [("to", "end")]) = 2 /\
  parse_tag_document 2 (list event) record_event
                     (write_doc ([("say", [("text", "hi")])]
                                   ++ ("jump", [("to", "end")]) :: [("wait", [])])) []
  = Ok (false, Some "Too many properties.",
        Some (1 + Z.of_nat (length [("say", [("text", "hi")])])),
        events_of [("say", [("text", "hi")])] [] [] 1).
Proof.
  assert (H1 : forallb tag_ok [("say", [("text", "hi")])] = true)
    by (vm_compute; reflexivity).
  assert (H2 : name_ok "jump" = true) by reflexivity.
  assert (H3 : [("to", "end")] <> @nil (string * string)) by discriminate.
  assert (H4 : forallb prop_ok [("to", "end")] = true) by (vm_compute; reflexivity).
  assert (H5 : Z.of_nat (total_props [("say", [("text", "hi")])]
                         + length [("to", "end")]) = 2) by reflexivity.
  assert (H6 : 1 + Z.of_nat (length [("say", [("text", "hi")])]) <= INT_MAX)
    by discriminate.
  split; [exact H1|]. split; [exact H5|].
  exact (property_limit_is_per_document 2 [("say", [("text", "hi")])] [("wait", [])]
           "jump" [("to", "end")] H1 H2 H3 H4 H5 H6).
Defined.

Lemma cursor_reads_in_order_witness :
  cur_index after_A_B = 0 /\ tag_size after_A_B <= COMMAND_MAX /\
  Z.of_nat 1 <= tag_size after_A_B /\
  exists g',
    advance 1 after_A_B = Ok g' /\
    (Z.of_nat 1 < tag_size after_A_B ->
     get_current_tag g' = Ok (Some (tag_at (Z.of_nat 1) after_A_B)) /\
     get_tag_line g' = Ok (Tag.line (tag_at (Z.of_nat 1) after_A_B))) /\
    (Z.of_nat 1 = tag_size after_A_B ->
     get_current_tag g' = Ok None /\ get_tag_line g' = Ok (-1)).
Proof.
  assert (H1 : cur_index after_A_B = 0) by reflexivity.
  assert (H2 : tag_size after_A_B <= COMMAND_MAX) by discriminate.
  assert (H3 : Z.of_nat 1 <= tag_size after_A_B) by discriminate.
  split; [exact H1|]. split; [exact H2|]. split; [exact H3|].
  exact (cursor_reads_in_order after_A_B 1 H1 H2 H3).
Defined.

Lemma value_is_decoded_witness :
  value_text escaped_source = true /\
  Z.of_nat (String.length (decode escaped_source)) < PROP_VALUE_MAX /\
  exists l',
    scan 1 unit accept_all (escaped_source ++ Q ++ "]") in_value tt
      = scan 1 unit accept_all "]" l' tt /\
    st l' = ST_PROPNAME /\ len l' = 0 /\ line l' = line in_value /\
    prop_count l' = prop_count in_value + 1 /\
    aget EmptyString (prop_count in_value) (prop_val l') = decode escaped_source.
Proof.
  assert (H1 : value_text escaped_source = true) by reflexivity.
  assert (H2 : Z.of_nat (String.length (decode escaped_source)) < PROP_VALUE_MAX)
    by reflexivity.
  split; [exact H1|]. split; [exact H2|].
  refine (value_is_decoded 1 unit accept_all escaped_source "]" in_value tt
            H1 eq_refl _ eq_refl H2).
  split; [discriminate | reflexivity].
Defined.

Lemma first_load_walk_witness :
  holds (boot []) [] /\
  load_tag_file 1 two_files "A" (boot []) = Ok (true, after_A) /\
  exists evs msg ln,
    parse_tag_document 1 (list event) record_event doc_A []
      = Ok (true, msg, ln, evs) /\
    (forall (k : nat) (e : event),
        nth_error evs k = Some e ->
        exists gk, advance k after_A = Ok gk /\
                   get_current_tag gk = Ok (Some (record_of e)) /\
                   get_tag_line gk = Ok (ev_line e)) /\
    (exists gN, advance (length evs) after_A = Ok gN /\
                get_current_tag gN = Ok None /\ get_tag_line gN = Ok (-1)).
Proof.
  assert (H : load_tag_file 1 two_files "A" (boot []) = Ok (true, after_A))
    by (vm_compute; reflexivity).
  split; [exact boot_holds|]. split; [exact H|].
  exact (first_load_walk 1 two_files "A" doc_A (boot []) after_A boot_holds eq_refl H).
Defined.

Lemma failed_first_load_records_witness :
  load_tag_file 1 (only tag_then_garbage) "A" (boot []) = Ok (false, after_garbage) /\
  exists evs,
    holds after_garbage evs /\ cur_index after_garbage = 0 /\
    ((exists msg ln,
         parse_tag_document 1 (list event) record_event tag_then_garbage []
           = Ok (false, msg, ln, evs)) \/
     tag_size after_garbage = COMMAND_MAX).
Proof.
  assert (H : load_tag_file 1 (only tag_then_garbage) "A" (boot [])
              = Ok (false, after_garbage)) by (vm_compute; reflexivity).
  split; [exact H|].
  exact (failed_first_load_records 1 (only tag_then_garbage) "A" tag_then_garbage
           (boot []) after_garbage boot_holds eq_refl H).
Defined.

Lemma load_tag_file_never_shrinks_witness :
  load_tag_file 1 two_files "B" after_A = Ok (true, after_A_B) /\
  tag_size after_A <= tag_size after_A_B.
Proof.
  assert (H : load_tag_file 1 two_files "B" after_A = Ok (true, after_A_B))
    by (vm_compute; reflexivity).
  split; [exact H|].
  exact (load_tag_file_never_shrinks 1 two_files "B" after_A after_A_B true H).
Defined.

Lemma reload_appends_witness :
  do_calls 1 two_files [CallInit; CallLoad "A"; CallNext] (boot [])
    = Ok (set_cur_index 1 after_A) /\
  load_tag_file 1 two_files "B" (set_cur_index 1 after_A) = Ok (true, after_A_B) /\
  exists g0 evs msg ln,
    cleanup_tag 1 (set_cur_index 1 after_A) = Ok g0 /\
    parse_tag_document 1 (list event) record_event doc_B []
      = Ok (true, msg, ln, evs) /\
    tag after_A_B = (tag g0 ++ map record_of evs)%list /\
    tag_size after_A_B = tag_size (set_cur_index 1 after_A) + Z.of_nat (length evs) /\
    cur_index after_A_B = 0.
Proof.
  assert (H1 : do_calls 1 two_files [CallInit; CallLoad "A"; CallNext] (boot [])
               = Ok (set_cur_index 1 after_A)) by (vm_compute; reflexivity).
  assert (H2 : load_tag_file 1 two_files "B" (set_cur_index 1 after_A)
               = Ok (true, after_A_B)) by (vm_compute; reflexivity).
  split; [exact H1|]. split; [exact H2|].
  exact (reload_appends 1 two_files [CallInit; CallLoad "A"; CallNext] "B" doc_B
           (set_cur_index 1 after_A) after_A_B H1 eq_refl H2).
Defined.
